(** * Mastermind: the computer code breaker and the automated feedback

    A shallow embedding of [mastermind.py]: the configuration object
    [MastermindGameUtils], the feedback function [_auto_feedback], and the
    class [ComputerCodeBreaker] with its constraint matrix
    ([receive_feedback]) and its backtracking search ([make_guess],
    [_make_guess]).

    Python integers are [Z]; Python lists are [list] indexed the Python way
    (a negative index counts from the end, any other index out of range
    raises [IndexError]); Python sets of integers are [gset Z]; a feedback
    is a [string] of pegs.  Code that may raise returns a [result]. *)

From Stdlib Require Import ZArith Ascii String.
From stdpp Require Import base tactics option list sorting gmap fin_sets strings pretty.

Local Open Scope Z_scope.

(** ** Outcomes of a Python computation *)

(** The exceptions this code raises: [IndexError] from indexing a list out
    of range, [RecursionError] from a call nested deeper than the
    interpreter allows. *)
Inductive exn : Type := IndexError | RecursionError.

Inductive result (A : Type) : Type :=
| Ok (a : A)
| Raise (e : exn).

Arguments Ok {A} a.
Arguments Raise {A} e.

#[global] Instance result_ret : MRet result := λ A a, Ok a.

#[global] Instance result_bind : MBind result := λ A B k r,
  match r with
  | Ok a => k a
  | Raise e => Raise e
  end.

(** [for x in xs: s = body x s], stopping at the first exception. *)
Fixpoint for_ {A S : Type} (xs : list A) (body : A → S → result S) (s : S)
  : result S :=
  match xs with
  | [] => Ok s
  | x :: xs' => s' ← body x s; for_ xs' body s'
  end.

(** ** Python lists *)

(** The slot that index [i] designates in a list of length [n]. *)
Definition py_index (n : nat) (i : Z) : option nat :=
  if decide (0 ≤ i < Z.of_nat n) then Some (Z.to_nat i)
  else if decide (- Z.of_nat n ≤ i < 0) then Some (Z.to_nat (Z.of_nat n + i))
  else None.

(** [l[i]] *)
Definition getitem {A : Type} (l : list A) (i : Z) : result A :=
  match py_index (length l) i with
  | Some k => match l !! k with Some x => Ok x | None => Raise IndexError end
  | None => Raise IndexError
  end.

(** [l[i] = x] *)
Definition setitem {A : Type} (l : list A) (i : Z) (x : A) : result (list A) :=
  match py_index (length l) i with
  | Some k => Ok (<[k:=x]> l)
  | None => Raise IndexError
  end.

(** [range(n)] *)
Definition range (n : Z) : list Z := seqZ 0 n.

(** ** MastermindGameUtils *)

Record MastermindGameUtils : Type := {
  n_colors : Z;
  n_positions : Z;
  duplicates_allowed : bool
}.

(** The constructor rejects a configuration without enough colors. *)
Definition new_game_utils (colors positions : Z) (dups : bool)
  : option MastermindGameUtils :=
  if negb dups && bool_decide (positions > colors) then None
  else Some {| n_colors := colors; n_positions := positions;
               duplicates_allowed := dups |}.

(** The checks of [validate_code] on a list of integers. *)
Definition validate_code (gu : MastermindGameUtils) (code : list Z) : bool :=
  bool_decide (Z.of_nat (length code) = n_positions gu)
  && (duplicates_allowed gu || bool_decide (NoDup code))
  && forallb (λ color, bool_decide (1 ≤ color ≤ n_colors gu)) code.

(** The checks of [validate_feedback]. *)
Definition validate_feedback (gu : MastermindGameUtils) (feedback : string)
  : bool :=
  bool_decide (Z.of_nat (String.length feedback) = n_positions gu)
  && forallb (λ peg, bool_decide (peg ∈ list_ascii_of_string "bw."))
       (list_ascii_of_string feedback).

(** ** _auto_feedback *)

Definition _auto_feedback (code guess : list Z) : string :=
  foldl (λ feedback '(guessed_color, actual_color),
           if decide (guessed_color = actual_color) then feedback +:+ "b"
           else if decide (guessed_color ∈ code) then feedback +:+ "w"
           else feedback +:+ ".")
        ""%string (zip guess code).

(** The peg [_auto_feedback] appends for one pair of the zip. *)
Definition peg_of (code : list Z) (guessed_color actual_color : Z) : ascii :=
  if decide (guessed_color = actual_color) then "b"%char
  else if decide (guessed_color ∈ code) then "w"%char
  else "."%char.

(** ** ComputerCodeBreaker *)

Record ComputerCodeBreaker : Type := {
  _valid_guess : list (list bool);
  _unseen_colors : gset Z;
  _right_colors : gset Z;
  _right_colors_found : bool
}.

Definition with_valid_guess (self : ComputerCodeBreaker) (m : list (list bool))
  : ComputerCodeBreaker :=
  {| _valid_guess := m;
     _unseen_colors := _unseen_colors self;
     _right_colors := _right_colors self;
     _right_colors_found := _right_colors_found self |}.

Definition with_unseen_colors (self : ComputerCodeBreaker) (u : gset Z)
  : ComputerCodeBreaker :=
  {| _valid_guess := _valid_guess self;
     _unseen_colors := u;
     _right_colors := _right_colors self;
     _right_colors_found := _right_colors_found self |}.

Definition with_right_colors (self : ComputerCodeBreaker) (r : gset Z)
  : ComputerCodeBreaker :=
  {| _valid_guess := _valid_guess self;
     _unseen_colors := _unseen_colors self;
     _right_colors := r;
     _right_colors_found := _right_colors_found self |}.

Definition with_right_colors_found (self : ComputerCodeBreaker) (b : bool)
  : ComputerCodeBreaker :=
  {| _valid_guess := _valid_guess self;
     _unseen_colors := _unseen_colors self;
     _right_colors := _right_colors self;
     _right_colors_found := b |}.

(** [__init__] *)
Definition init (gu : MastermindGameUtils) : ComputerCodeBreaker :=
  {| _valid_guess :=
       (λ _, (λ _, true) <$> range (n_colors gu)) <$> range (n_positions gu);
     _unseen_colors := list_to_set (range (n_colors gu));
     _right_colors := ∅;
     _right_colors_found := false |}.

(** [m[pos][col]] *)
Definition mat_get (m : list (list bool)) (pos col : Z) : result bool :=
  row ← getitem m pos; getitem row col.

(** [m[pos][col] = b] *)
Definition mat_set (m : list (list bool)) (pos col : Z) (b : bool)
  : result (list (list bool)) :=
  row ← getitem m pos; row' ← setitem row col b; setitem m pos row'.

(** [enumerate(l)] *)
Definition enumerate {A : Type} (l : list A) : list (Z * A) :=
  zip (seqZ 0 (Z.of_nat (length l))) l.

Section Feedback.
Variable gu : MastermindGameUtils.

(** [for _pos in range(n_positions): valid_guess[_pos][col] = False] *)
Definition invalidate_color (col : Z) (m : list (list bool))
  : result (list (list bool)) :=
  for_ (range (n_positions gu)) (λ _pos m, mat_set m _pos col false) m.

(** [for _col in range(n_colors): valid_guess[pos][_col] = False] *)
Definition invalidate_position (pos : Z) (m : list (list bool))
  : result (list (list bool)) :=
  for_ (range (n_colors gu)) (λ _col m, mat_set m pos _col false) m.

(** The body of the loop of [receive_feedback]. *)
Definition feedback_step (pos : Z) (peg : ascii) (color : Z)
    (self : ComputerCodeBreaker) : result ComputerCodeBreaker :=
  let self :=
    if decide (color - 1 ∈ _unseen_colors self)
    then with_unseen_colors self (_unseen_colors self ∖ {[color - 1]})
    else self in
  if decide (peg = "b"%char) then
    m ← (if negb (duplicates_allowed gu)
         then invalidate_color (color - 1) (_valid_guess self)
         else Ok (_valid_guess self));
    m ← invalidate_position pos m;
    m ← mat_set m pos (color - 1) true;
    Ok (with_right_colors (with_valid_guess self m)
          (_right_colors self ∪ {[color - 1]}))
  else if decide (peg = "w"%char) then
    m ← mat_set (_valid_guess self) pos (color - 1) false;
    Ok (with_right_colors (with_valid_guess self m)
          (_right_colors self ∪ {[color - 1]}))
  else
    m ← invalidate_color (color - 1) (_valid_guess self);
    Ok (with_valid_guess self m).

Definition _check_right_colors_found (self : ComputerCodeBreaker) : bool :=
  if negb (duplicates_allowed gu)
  then bool_decide (Z.of_nat (size (_right_colors self)) = n_positions gu)
  else bool_decide (_unseen_colors self = ∅).

Definition receive_feedback (self : ComputerCodeBreaker)
    (guess : list Z) (feedback : string) : result ComputerCodeBreaker :=
  self ← for_ (enumerate (zip (list_ascii_of_string feedback) guess))
            (λ '(pos, (peg, color)) self, feedback_step pos peg color self)
            self;
  if negb (_right_colors_found self) then
    if _check_right_colors_found self
    then Ok (with_right_colors_found (with_unseen_colors self ∅) true)
    else Ok self
  else Ok self.

(** States the breaker can be in: after [__init__], and after any number
    of calls of [receive_feedback] on a validated guess and feedback. *)
Inductive reachable : ComputerCodeBreaker → Prop :=
| reachable_init : reachable (init gu)
| reachable_feedback self guess feedback self' :
    reachable self →
    validate_code gu guess = true →
    validate_feedback gu feedback = true →
    receive_feedback self guess feedback = Ok self' →
    reachable self'.
End Feedback.

(** ** list.sort(key=...) *)

(** Python's sort is stable; on a key it is determined by that alone.  It is
    taken here as the insertion sort that puts an element before the first
    one of the sorted rest whose key is not smaller. *)
Fixpoint insert_by_key {A : Type} (key : A → Z) (x : A) (l : list A) : list A :=
  match l with
  | [] => [x]
  | y :: l' =>
      if decide (key x ≤ key y) then x :: l else y :: insert_by_key key x l'
  end.

Definition sort_by_key {A : Type} (key : A → Z) (l : list A) : list A :=
  foldr (insert_by_key key) [] l.

(** ** The search for a guess *)

Section Search.
Variable gu : MastermindGameUtils.

(** The random source: [random.shuffle] takes the generator's state and a
    list, and gives a rearrangement of the list and the next state. *)
Variable RNG : Type.
Variable shuffle : RNG → list Z → list Z * RNG.

(** What a call of [_make_guess] can see and change: the breaker object,
    the random generator, and the two lists [make_guess] created, which
    all recursive calls share. *)
Record frame : Type := {
  self : ComputerCodeBreaker;
  rng : RNG;
  current_guess : list (option Z);
  colors_to_check : list bool
}.

Definition with_rng (σ : frame) (g : RNG) : frame :=
  {| self := self σ; rng := g;
     current_guess := current_guess σ;
     colors_to_check := colors_to_check σ |}.

Definition with_current_guess (σ : frame) (cg : list (option Z)) : frame :=
  {| self := self σ; rng := rng σ;
     current_guess := cg;
     colors_to_check := colors_to_check σ |}.

Definition with_colors_to_check (σ : frame) (cc : list bool) : frame :=
  {| self := self σ; rng := rng σ;
     current_guess := current_guess σ;
     colors_to_check := cc |}.

(** [colors_to_check[color] and self._valid_guess[current_position][color]] *)
Definition viable (σ : frame) (current_position color : Z) : result bool :=
  c ← getitem (colors_to_check σ) color;
  if c : bool then mat_get (_valid_guess (self σ)) current_position color
  else Ok false.

(** The list comprehension that collects the viable colors. *)
Definition viable_colors (σ : frame) (current_position : Z)
  : result (list Z) :=
  for_ (range (n_colors gu))
    (λ color acc,
       b ← viable σ current_position color;
       Ok (if b : bool then acc ++ [color] else acc))
    [].

(** The sort key:
    [2 * int(color + 1 in current_guess) if color in self._unseen_colors else 1] *)
Definition priority (σ : frame) (color : Z) : Z :=
  if decide (color ∈ _unseen_colors (self σ))
  then 2 * (if decide (Some (color + 1) ∈ current_guess σ) then 1 else 0)
  else 1.

(** The colors in the order in which the loop tries them, and the frame
    once they were shuffled. *)
Definition ordered_colors (σ : frame) (current_position : Z)
  : result (list Z * frame) :=
  valid_colors ← viable_colors σ current_position;
  let '(valid_colors, g) := shuffle (rng σ) valid_colors in
  let σ := with_rng σ g in
  Ok (sort_by_key (priority σ) valid_colors, σ).

(** The loop over the colors; [rec] is the recursive call on the next
    position.  [true] stands for returning [current_guess], [false] for
    returning [None]. *)
Fixpoint try_colors (rec : frame → result (bool * frame))
    (current_position : Z) (valid_colors : list Z) (σ : frame)
  : result (bool * frame) :=
  match valid_colors with
  | [] => Ok (false, σ)
  | color :: valid_colors =>
      if duplicates_allowed gu then
        cg ← setitem (current_guess σ) current_position (Some (color + 1));
        '(found, σ) ← rec (with_current_guess σ cg);
        if found : bool then Ok (true, σ)
        else try_colors rec current_position valid_colors σ
      else
        cc ← setitem (colors_to_check σ) color false;
        let σ := with_colors_to_check σ cc in
        cg ← setitem (current_guess σ) current_position (Some (color + 1));
        '(found, σ) ← rec (with_current_guess σ cg);
        if found : bool then Ok (true, σ)
        else
          cc ← setitem (colors_to_check σ) color true;
          try_colors rec current_position valid_colors
            (with_colors_to_check σ cc)
  end.

(** [_make_guess].  The function calls itself once for each position, and
    Python allows only so many nested calls (1000 frames by default, those
    of the callers included).  [depth] is the number of nested calls of
    [_make_guess] for which the interpreter still has room, a call being
    counted with the calls it makes itself (the comprehension,
    [random.shuffle], the sort key); a call that is nested deeper raises
    [RecursionError], which nothing in the program catches. *)
Fixpoint _make_guess (depth : nat) (σ : frame) (current_position : Z)
  : result (bool * frame) :=
  match depth with
  | O => Raise RecursionError
  | S depth =>
      if decide (current_position = n_positions gu) then Ok (true, σ)
      else
        '(valid_colors, σ) ← ordered_colors σ current_position;
        try_colors (λ σ, _make_guess depth σ (current_position + 1))
          current_position valid_colors σ
  end.

(** [make_guess]: the guess or [None], with the breaker and the generator
    as the call leaves them; [depth] as for [_make_guess]. *)
Definition make_guess (depth : nat) (self0 : ComputerCodeBreaker) (g : RNG)
  : result (option (list (option Z)) * ComputerCodeBreaker * RNG) :=
  '(found, σ) ← _make_guess depth
      {| self := self0; rng := g;
         current_guess := replicate (Z.to_nat (n_positions gu)) None;
         colors_to_check :=
           (λ color, bool_decide (color ∈ _right_colors self0)
                     || bool_decide (color ∈ _unseen_colors self0))
             <$> range (n_colors gu) |} 0;
  Ok (if found : bool then Some (current_guess σ) else None, self σ, rng σ).
End Search.

Arguments self {RNG} _.
Arguments rng {RNG} _.
Arguments current_guess {RNG} _.
Arguments colors_to_check {RNG} _.
Arguments with_rng {RNG} _ _.
Arguments with_current_guess {RNG} _ _.
Arguments with_colors_to_check {RNG} _ _.
Arguments viable {RNG} _ _ _.
Arguments viable_colors gu {RNG} _ _.
Arguments priority {RNG} _ _.
Arguments ordered_colors gu {RNG} shuffle _ _.
Arguments try_colors gu {RNG} rec _ _ _.
Arguments _make_guess gu {RNG} shuffle _ _ _.
Arguments make_guess gu {RNG} shuffle _ _ _.

(** ** Notions used in the statements *)

(** The shape [__init__] gives the matrix: one row for each position, one
    entry for each color. *)
Definition matrix_shape (rows cols : nat) (m : list (list bool)) : Prop :=
  length m = rows ∧ ∀ row, row ∈ m → length row = cols.

Definition well_formed (gu : MastermindGameUtils) (self : ComputerCodeBreaker)
  : Prop :=
  matrix_shape (Z.to_nat (n_positions gu)) (Z.to_nat (n_colors gu))
    (_valid_guess self).

(** The entry of row [i], column [j]; [false] outside of the matrix. *)
Definition valid_at (m : list (list bool)) (i j : nat) : bool :=
  default false (row ← m !! i; row !! j).

(** What one peg does to the entry of row [i], column [j]: the peg is for
    position [p], where color index [c] was guessed. *)
Definition cell_after (dups : bool) (peg : ascii) (p c : nat)
    (old : bool) (i j : nat) : bool :=
  if decide (peg = "b"%char) then
    if decide (i = p) then bool_decide (j = c)
    else if dups then old else negb (bool_decide (j = c)) && old
  else if decide (peg = "w"%char) then
    if decide (i = p ∧ j = c) then false else old
  else negb (bool_decide (j = c)) && old.

(** What one round of the loop of [receive_feedback] does to the breaker:
    position [p], guessed color index [c] (the color is [c + 1]). *)
Definition step_post (gu : MastermindGameUtils) (p c : nat) (peg : ascii)
    (self self' : ComputerCodeBreaker) : Prop :=
  well_formed gu self' ∧
  _unseen_colors self' = _unseen_colors self ∖ {[Z.of_nat c]} ∧
  _right_colors self'
    = (if decide (peg = "b"%char ∨ peg = "w"%char)
       then _right_colors self ∪ {[Z.of_nat c]} else _right_colors self) ∧
  _right_colors_found self' = _right_colors_found self ∧
  ∀ i j, valid_at (_valid_guess self') i j
         = cell_after (duplicates_allowed gu) peg p c
             (valid_at (_valid_guess self) i j) i j.

(** The end of [receive_feedback]: the test of the flag. *)
Definition update_found (gu : MastermindGameUtils) (self : ComputerCodeBreaker)
  : ComputerCodeBreaker :=
  if negb (_right_colors_found self) then
    if _check_right_colors_found gu self
    then with_right_colors_found (with_unseen_colors self ∅) true
    else self
  else self.

(** The secret code is still possible for the breaker: at every position
    its color is set in the matrix, and each of its colors is unseen or
    among the right colors. *)
Definition feasible (secret : list Z) (self : ComputerCodeBreaker) : Prop :=
  (∀ (p : nat) (color : Z), secret !! p = Some color →
     mat_get (_valid_guess self) (Z.of_nat p) (color - 1) = Ok true) ∧
  (∀ color, color ∈ secret →
     color - 1 ∈ _unseen_colors self ∨ color - 1 ∈ _right_colors self).

(** A game against [_auto_feedback]: the breaker receives, for each guess
    in turn, the feedback the secret code gives it. *)
Definition play (gu : MastermindGameUtils) (secret : list Z)
    (guesses : list (list Z)) (self : ComputerCodeBreaker)
  : result ComputerCodeBreaker :=
  for_ guesses
    (λ guess self, receive_feedback gu self guess (_auto_feedback secret guess))
    self.

(** The invariant of a game against [_auto_feedback], on the entries as
    [valid_at] reads them; the right colors all occur in the secret. *)
Definition oracle_inv (gu : MastermindGameUtils) (secret : list Z)
    (self : ComputerCodeBreaker) : Prop :=
  (∀ (p : nat) (color : Z), secret !! p = Some color →
     valid_at (_valid_guess self) p (Z.to_nat (color - 1)) = true) ∧
  (∀ color, color ∈ secret →
     color - 1 ∈ _unseen_colors self ∨ color - 1 ∈ _right_colors self) ∧
  (∀ c, c ∈ _right_colors self → c + 1 ∈ secret).

(** A computation that stays within the nesting of calls that the
    interpreter allows: it ends with a value or with another exception. *)
Definition in_depth {A : Type} (r : result A) : Prop :=
  r ≠ Raise RecursionError.

(** ** Notions used in the proofs about the search *)

(** The first [k] entries of [current_guess] are the colors of [code]:
    colors of the game, each set in the matrix at its position; in a game
    without duplicates they are pairwise distinct and no longer to check. *)
Definition placed (gu : MastermindGameUtils) {RNG : Type} (σ : frame RNG)
    (k : nat) (code : list Z) : Prop :=
  length code = k ∧
  take k (current_guess σ) = Some <$> code ∧
  (∀ (p : nat) (c : Z), code !! p = Some c →
     1 ≤ c ≤ n_colors gu ∧
     mat_get (_valid_guess (self σ)) (Z.of_nat p) (c - 1) = Ok true) ∧
  (duplicates_allowed gu = false →
     NoDup code ∧
     ∀ c, c ∈ code → colors_to_check σ !! Z.to_nat (c - 1) = Some false).

(** What a call of [_make_guess] at position [k] starts from. *)
Definition search_pre (gu : MastermindGameUtils) {RNG : Type} (σ : frame RNG)
    (k : nat) : Prop :=
  length (current_guess σ) = Z.to_nat (n_positions gu) ∧
  ∃ code, placed gu σ k code.

(** What it ends with: a complete guess when it returns [current_guess];
    the colors to check and the first [k] entries of the guess as they were
    when it returns [None]. *)
Definition search_post (gu : MastermindGameUtils) {RNG : Type}
    (σ : frame RNG) (k : nat) (found : bool) (σ' : frame RNG) : Prop :=
  self σ' = self σ ∧
  length (current_guess σ') = length (current_guess σ) ∧
  if found then ∃ code, placed gu σ' (Z.to_nat (n_positions gu)) code
  else colors_to_check σ' = colors_to_check σ
       ∧ take k (current_guess σ') = take k (current_guess σ).

(** What makes a color index a candidate at position [k]. *)
Definition candidate (gu : MastermindGameUtils) {RNG : Type} (σ : frame RNG)
    (k : nat) (c : Z) : Prop :=
  0 ≤ c < n_colors gu ∧
  colors_to_check σ !! Z.to_nat c = Some true ∧
  mat_get (_valid_guess (self σ)) (Z.of_nat k) c = Ok true.

(** ** Concrete games used as examples *)

(** A generator whose shuffle leaves the list as it is, and one whose
    shuffle reverses it. *)
Definition id_shuffle (g : unit) (l : list Z) : list Z * unit := (l, g).
Definition rev_shuffle (g : unit) (l : list Z) : list Z * unit := (reverse l, g).

Definition game_3_3 : MastermindGameUtils :=
  {| n_colors := 3; n_positions := 3; duplicates_allowed := true |}.

Definition game_3_3_distinct : MastermindGameUtils :=
  {| n_colors := 3; n_positions := 3; duplicates_allowed := false |}.

Definition game_6_3 : MastermindGameUtils :=
  {| n_colors := 6; n_positions := 3; duplicates_allowed := true |}.

(** [game_3_3_distinct] after the guess [1,2,3] was answered ["www"]. *)
Definition all_white : ComputerCodeBreaker :=
  {| _valid_guess := [[false; true; true]; [true; false; true];
                      [true; true; false]];
     _unseen_colors := ∅;
     _right_colors := {[0; 1; 2]};
     _right_colors_found := true |}.

(** [game_6_3] after the guess [1,2,3] was answered ["..b"] and the guess
    [4,5,3] was answered ["..w"]: only the colors 3 and 6 are left, and
    nothing is possible at the last position. *)
Definition stale_state : ComputerCodeBreaker :=
  {| _valid_guess := [[false; false; true; false; false; true];
                      [false; false; true; false; false; true];
                      [false; false; false; false; false; false]];
     _unseen_colors := {[5]};
     _right_colors := {[2]};
     _right_colors_found := false |}.

(** The frame of the search in [stale_state] when it comes to position 1
    for the second time: color 3 is placed at position 0, and position 1
    still holds the color 6 of the branch that was given up. *)
Definition stale_frame : frame unit :=
  {| self := stale_state; rng := tt;
     current_guess := [Some 3; Some 6; None];
     colors_to_check := [false; false; true; false; false; true] |}.

(** ** The priority as the specification words it *)

(** Priority 0 for an unseen color that is not placed at an earlier
    position of the guess under construction, 1 for a color that is not
    unseen, 2 for an unseen color placed at an earlier position. *)
Definition spec_priority {RNG : Type} (σ : frame RNG) (current_position : Z)
    (color : Z) : Z :=
  if decide (color ∈ _unseen_colors (self σ)) then
    if decide (Some (color + 1)
               ∈ take (Z.to_nat current_position) (current_guess σ))
    then 2 else 0
  else 1.


(** * The rest of the program *)

(** ** _is_guess_correct *)

(** [feedback] is [None] or a string. *)
Definition _is_guess_correct (feedback : option string) : bool :=
  match feedback with
  | Some feedback =>
      forallb (λ peg, bool_decide (peg = "b"%char))
        (list_ascii_of_string feedback)
  | None => false
  end.

(** ** Notions used in the proofs about what the search finds *)

(** The shapes the search relies on. *)
Definition search_shape (gu : MastermindGameUtils) {RNG : Type}
    (σ : frame RNG) : Prop :=
  well_formed gu (self σ) ∧
  length (colors_to_check σ) = Z.to_nat (n_colors gu).

(** The frame as the loop hands it to the recursive call: the color of
    index [c] placed at position [k]. *)
Definition place (gu : MastermindGameUtils) {RNG : Type} (σ : frame RNG)
    (k : nat) (c : Z) : frame RNG :=
  with_current_guess
    (with_colors_to_check σ
       (if duplicates_allowed gu then colors_to_check σ
        else <[Z.to_nat c:=false]> (colors_to_check σ)))
    (<[k:=Some (c + 1)]> (current_guess σ)).

(** There are colors for the positions from [k] on, candidates each at its
    position, pairwise distinct in a game without duplicates. *)
Definition completable (gu : MastermindGameUtils) {RNG : Type}
    (σ : frame RNG) (k : nat) : Prop :=
  ∃ rest : list Z,
    (k + length rest = Z.to_nat (n_positions gu))%nat ∧
    (∀ (i : nat) (c : Z), rest !! i = Some c → candidate gu σ (k + i) c) ∧
    (duplicates_allowed gu = false → NoDup rest).

(** A code that agrees with what the breaker knows: its colors are set in
    the matrix at their positions, each is a right color or still unseen,
    and without duplicates they are pairwise distinct. *)
Definition consistent (gu : MastermindGameUtils) (self : ComputerCodeBreaker)
    (code : list Z) : Prop :=
  validate_code gu code = true ∧
  ∀ (p : nat) (color : Z), code !! p = Some color →
    mat_get (_valid_guess self) (Z.of_nat p) (color - 1) = Ok true ∧
    (color - 1 ∈ _right_colors self ∨ color - 1 ∈ _unseen_colors self).

(** ** The game: code makers, and play_mastermind with the computer breaker *)

(** What ends a call early, in the part of the program around the breaker:
    a [ValueError] the program raises itself, an exception raised inside
    the [random] module, or an exception out of the breaker's code. *)
Inductive error : Type :=
| ValueError (msg : string)
| RandomError
| BreakerError (e : exn).

(** The class [CodeMaker]: the maker's state is [M], and [W] is the world
    its methods may use and change (the random generator, the console). *)
Class CodeMaker (W M : Type) : Type := {
  make_code : M → W → (error + M) * W;
  give_feedback : M → list Z → W → (error + string) * M * W
}.

(** How [play_mastermind] ends: [break] after a correct guess, [break]
    after "Guess could not be made", an exception, or, in this model only,
    no turns left.  [Unmodelled] stands for a guess with an entry [None],
    which [make_guess] does not return. *)
Inductive game_end : Type :=
| Solved
| NoGuess
| Raised (e : error)
| Unmodelled
| OutOfTurns.

(** The colors of a guess without an entry [None]. *)
Fixpoint ints (guess : list (option Z)) : option (list Z) :=
  match guess with
  | [] => Some []
  | Some color :: guess => (color ::.) <$> ints guess
  | None :: _ => None
  end.

(** ["".join([str(color) for color in guess])] *)
Definition guess_as_string (guess : list Z) : string :=
  foldr (λ color s, pretty color +:+ s) ""%string guess.

Section Game.
Variable gu : MastermindGameUtils.
Variable RNG : Type.
Variable shuffle : RNG → list Z → list Z * RNG.
(** [random.randint(a, b)] and [random.sample(population, k)]; [None]
    stands for the exception they raise on arguments they reject. *)
Variable randint : RNG → Z → Z → option Z * RNG.
Variable sample : RNG → list Z → Z → option (list Z) * RNG.

(** [[random.randint(1, n_colors) for _ in range(n)]] *)
Fixpoint randints (n : nat) (g : RNG) : option (list Z) * RNG :=
  match n with
  | O => (Some [], g)
  | S n =>
      match randint g 1 (n_colors gu) with
      | (Some color, g) =>
          let '(rest, g) := randints n g in ((color ::.) <$> rest, g)
      | (None, g) => (None, g)
      end
  end.

(** [random_code]; the argument [duplicates_allowed] is [None], [True] or
    [False]. *)
Definition random_code (dups : option bool) (g : RNG)
  : (error + list Z) * RNG :=
  if bool_decide (dups = Some true) && negb (duplicates_allowed gu)
  then (inl (ValueError "duplicates are not allowed"), g)
  else
    let dups := default (duplicates_allowed gu) dups in
    let '(code, g) :=
      if dups : bool then randints (Z.to_nat (n_positions gu)) g
      else sample g (seqZ 1 (n_colors gu)) (n_positions gu) in
    (from_option inr (inl RandomError) code, g).

(** [ComputerCodeMaker]: its state is [_code], [None] or the code. *)
#[global] Instance ComputerCodeMaker : CodeMaker RNG (option (list Z)) := {|
  make_code _code g :=
    match random_code None g with
    | (inr code, g) => (inr (Some code), g)
    | (inl e, g) => (inl e, g)
    end;
  give_feedback _code guess g :=
    match _code with
    | Some code => (inr (_auto_feedback code guess), _code, g)
    | None => (inl (ValueError "no code to provide feedback for"), _code, g)
    end
|}.

(** The loop of [play_mastermind] with a [ComputerCodeBreaker]: [out] is
    what was printed so far, one string for each line.  The loop is a
    [while True]: [turns] bounds its rounds in this model only; [depth] is
    the nesting of calls left for the search of each round. *)
Fixpoint game_loop `{CodeMaker RNG M} (turns depth : nat)
    (code_maker : M) (code_breaker : ComputerCodeBreaker) (g : RNG)
    (out : list string) : list string * game_end :=
  match turns with
  | O => (out, OutOfTurns)
  | S turns =>
      match make_guess gu shuffle depth code_breaker g with
      | Ok (Some guess, code_breaker, g) =>
          match ints guess with
          | Some guess =>
              match give_feedback code_maker guess g with
              | (inr feedback, code_maker, g) =>
                  let out :=
                    out ++ [guess_as_string guess +:+ " " +:+ feedback] in
                  if _is_guess_correct (Some feedback) then (out, Solved)
                  else
                    match receive_feedback gu code_breaker guess feedback with
                    | Ok code_breaker =>
                        game_loop turns depth code_maker code_breaker g out
                    | Raise e => (out, Raised (BreakerError e))
                    end
              | (inl e, _, _) => (out, Raised e)
              end
          | None => (out, Unmodelled)
          end
      | Ok (None, _, _) =>
          (out ++ ["Guess could not be made. Make sure your input is valid."],
           NoGuess)
      | Raise e => (out, Raised (BreakerError e))
      end
  end.

Definition play_mastermind `{CodeMaker RNG M} (turns depth : nat)
    (code_maker : M) (code_breaker : ComputerCodeBreaker) (g : RNG)
  : list string * game_end :=
  match make_code code_maker g with
  | (inr code_maker, g) => game_loop turns depth code_maker code_breaker g []
  | (inl e, _) => ([], Raised e)
  end.
End Game.

(** ** Notions used in the proofs about the game *)

(** The entries of the matrix, and how many of them are set. *)
Definition cells (gu : MastermindGameUtils) : list (nat * nat) :=
  list_prod (seq 0 (Z.to_nat (n_positions gu)))
            (seq 0 (Z.to_nat (n_colors gu))).

Definition count_valid (gu : MastermindGameUtils)
    (self : ComputerCodeBreaker) : nat :=
  length (filter (λ ij, valid_at (_valid_guess self) ij.1 ij.2 = true)
            (cells gu)).

(** A [random] module without chance, for examples: [randint] returns its
    lower bound and [sample] the first elements of the population. *)
Definition low_randint (g : unit) (a b : Z) : option Z * unit :=
  (if decide (a ≤ b) then Some a else None, g).
Definition head_sample (g : unit) (population : list Z) (k : Z)
  : option (list Z) * unit :=
  (if decide (0 ≤ k ≤ Z.of_nat (length population))
   then Some (take (Z.to_nat k) population) else None, g).

(** A frame of the search in [game_3_3] before any branch was given up:
    color 1 is placed at position 0, and the search is at position 1. *)
Definition fresh_frame : frame unit :=
  {| self := init game_3_3; rng := tt;
     current_guess := [Some 1; None; None];
     colors_to_check := [true; true; true] |}.

(** The entries of [current_guess] from position [k] on are colors that
    were to check when [make_guess] started ([cc0] is [colors_to_check] as
    [make_guess] builds it). *)
Definition checked_from (cc0 : list bool) {RNG : Type} (σ : frame RNG)
    (k : nat) : Prop :=
  ∀ (p : nat) (x : option Z), (k ≤ p)%nat → current_guess σ !! p = Some x →
    ∃ c, x = Some (c + 1) ∧ 0 ≤ c ∧ cc0 !! Z.to_nat c = Some true.

(** No color is to check now that was not to check at the start. *)
Definition check_mono (cc0 : list bool) {RNG : Type} (σ : frame RNG) : Prop :=
  ∀ i : nat, colors_to_check σ !! i = Some true → cc0 !! i = Some true.

(** One turn of the game as [play_mastermind] runs it with the computer as
    code breaker: the guess is the one [make_guess] returns in the state
    that then receives the feedback. *)
Inductive game_turn (gu : MastermindGameUtils) {RNG : Type}
    (shuffle : RNG → list Z → list Z * RNG)
  : ComputerCodeBreaker → list Z → string → ComputerCodeBreaker → Prop :=
| game_turn_intro (depth : nat) self g code self1 g' feedback self' :
    make_guess gu shuffle depth self g = Ok (Some (Some <$> code), self1, g') →
    validate_feedback gu feedback = true →
    receive_feedback gu self1 code feedback = Ok self' →
    game_turn gu shuffle self code feedback self'.

(** [later gu shuffle self self'] : the game takes the breaker from [self]
    to [self'] in some number of turns. *)
Inductive later (gu : MastermindGameUtils) {RNG : Type}
    (shuffle : RNG → list Z → list Z * RNG)
  : ComputerCodeBreaker → ComputerCodeBreaker → Prop :=
| later_now self : later gu shuffle self self
| later_turn self code feedback self' self'' :
    game_turn gu shuffle self code feedback self' →
    later gu shuffle self' self'' →
    later gu shuffle self self''.

(** A game of two colors and 1000 positions, with duplicates. *)
Definition game_2_1000 : MastermindGameUtils :=
  {| n_colors := 2; n_positions := 1000; duplicates_allowed := true |}.

(** * Properties *)

(** ** The automated feedback *)

Lemma list_ascii_of_string_app (s t : string) :
  list_ascii_of_string (s +:+ t)
  = list_ascii_of_string s ++ list_ascii_of_string t.
Proof. induction s as [|c s IH]; simpl; [done | by rewrite IH]. Qed.

Lemma length_list_ascii_of_string (s : string) :
  length (list_ascii_of_string s) = String.length s.
Proof. induction s; simpl; congruence. Qed.

Lemma auto_feedback_pegs_list (code guess : list Z) :
  list_ascii_of_string (_auto_feedback code guess)
  = (λ '(g, a), peg_of code g a) <$> zip guess code.
Proof.
  unfold _auto_feedback.
  set (f := λ (feedback : string) '(guessed_color, actual_color), _).
  assert (H : ∀ l acc, list_ascii_of_string (foldl f acc l)
            = list_ascii_of_string acc ++ ((λ '(g, a), peg_of code g a) <$> l)).
  { induction l as [|[g a] l IH]; intros acc; simpl.
    - by rewrite app_nil_r.
    - rewrite IH. unfold f, peg_of.
      repeat case_decide; rewrite list_ascii_of_string_app; simpl;
        by rewrite <- app_assoc. }
  by rewrite H.
Qed.

(** C3: on a code and a guess of the same length, the feedback has one peg
    for each position; the peg at position [p] is ['b'] exactly when the
    guessed color is the code's color there, ['w'] exactly when it is not
    but the guessed color occurs somewhere in the code, and ['.'] exactly
    when the guessed color occurs nowhere in the code.  Occurrence is plain
    membership in the whole code: no match is used up. *)
Theorem auto_feedback_rule (code guess : list Z) :
  length guess = length code →
  String.length (_auto_feedback code guess) = length guess ∧
  ∀ (p : nat) (g a : Z),
    guess !! p = Some g → code !! p = Some a →
    ∃ peg, list_ascii_of_string (_auto_feedback code guess) !! p = Some peg ∧
      (peg = "b"%char ↔ g = a) ∧
      (peg = "w"%char ↔ g ≠ a ∧ g ∈ code) ∧
      (peg = "."%char ↔ g ≠ a ∧ g ∉ code).
Proof.
  intros Hlen. split.
  - rewrite <- length_list_ascii_of_string, auto_feedback_pegs_list.
    rewrite length_fmap, length_zip_with. lia.
  - intros p g a Hg Ha. exists (peg_of code g a). split.
    + rewrite auto_feedback_pegs_list, list_lookup_fmap.
      assert (zip guess code !! p = Some (g, a)) as ->; [|done].
      apply lookup_zip_with_Some. eauto.
    + unfold peg_of. repeat case_decide; intuition congruence.
Qed.

Lemma auto_feedback_rule_witness :
  String.length (_auto_feedback [3; 1; 3] [1; 2; 3]) = 3%nat ∧
  ∀ (p : nat) (g a : Z),
    [1; 2; 3] !! p = Some g → [3; 1; 3] !! p = Some a →
    ∃ peg, list_ascii_of_string (_auto_feedback [3; 1; 3] [1; 2; 3]) !! p
           = Some peg ∧
      (peg = "b"%char ↔ g = a) ∧
      (peg = "w"%char ↔ g ≠ a ∧ g ∈ [3; 1; 3]) ∧
      (peg = "."%char ↔ g ≠ a ∧ g ∉ [3; 1; 3]).
Proof. apply (auto_feedback_rule [3; 1; 3] [1; 2; 3]). reflexivity. Defined.

(** C4 (as the code has it): with the secret [1,2,3,4] the guess [1,1,2,2]
    is answered with one black peg and three white pegs, because the colors
    1 and 2 both occur in the secret. *)
Theorem auto_feedback_example :
  _auto_feedback [1; 2; 3; 4] [1; 1; 2; 2] = "bwww"%string.
Proof. reflexivity. Qed.

(** The feedback for that guess is not one black peg and three misses. *)
Lemma auto_feedback_example_not_misses :
  _auto_feedback [1; 2; 3; 4] [1; 1; 2; 2] ≠ "b..."%string.
Proof. discriminate. Qed.

(** ** Python lists and loops *)

Lemma for_invariant {A St : Type} (I : nat → St → Prop) (xs : list A)
    (body : A → St → result St) (s : St) :
  I 0%nat s →
  (∀ k x s, xs !! k = Some x → I k s → ∃ s', body x s = Ok s' ∧ I (S k) s') →
  ∃ s', for_ xs body s = Ok s' ∧ I (length xs) s'.
Proof.
  revert I s. induction xs as [|x xs IH]; intros I s H0 Hstep; simpl.
  - eauto.
  - destruct (Hstep 0%nat x s eq_refl H0) as (s1 & -> & H1). simpl.
    apply (IH (λ k, I (S k))); [done|].
    intros k y s2 Hy. apply (Hstep (S k)). done.
Qed.

Lemma py_index_nat (n k : nat) : (k < n)%nat → py_index n (Z.of_nat k) = Some k.
Proof.
  intros Hk. unfold py_index. rewrite decide_True by lia.
  by rewrite Nat2Z.id.
Qed.

Lemma getitem_nat {A : Type} (l : list A) (k : nat) (x : A) :
  l !! k = Some x → getitem l (Z.of_nat k) = Ok x.
Proof.
  intros Hx. unfold getitem.
  rewrite py_index_nat by (by eapply lookup_lt_Some). by rewrite Hx.
Qed.

Lemma setitem_nat {A : Type} (l : list A) (k : nat) (x : A) :
  (k < length l)%nat → setitem l (Z.of_nat k) x = Ok (<[k:=x]> l).
Proof. intros Hk. unfold setitem. by rewrite py_index_nat. Qed.

Lemma mat_set_nat (m : list (list bool)) (i j : nat) (b : bool) row :
  m !! i = Some row → (j < length row)%nat →
  mat_set m (Z.of_nat i) (Z.of_nat j) b = Ok (alter (<[j:=b]>) i m).
Proof.
  intros Hrow Hj. unfold mat_set.
  rewrite (getitem_nat _ _ _ Hrow). simpl.
  rewrite setitem_nat by done. simpl.
  rewrite setitem_nat by (by eapply lookup_lt_Some).
  f_equal. apply list_eq. intros k.
  destruct (decide (k = i)) as [->|].
  - rewrite list_lookup_insert_eq by (by eapply lookup_lt_Some).
    by rewrite list_lookup_alter_eq, Hrow.
  - by rewrite list_lookup_insert_ne, list_lookup_alter_ne.
Qed.

Lemma mat_get_nat (m : list (list bool)) (i j : nat) row b :
  m !! i = Some row → row !! j = Some b →
  mat_get m (Z.of_nat i) (Z.of_nat j) = Ok b.
Proof.
  intros Hrow Hb. unfold mat_get.
  rewrite (getitem_nat _ _ _ Hrow). simpl. by apply getitem_nat.
Qed.

Lemma range_lookup (n : Z) (k : nat) (x : Z) :
  range n !! k = Some x → x = Z.of_nat k ∧ (k < Z.to_nat n)%nat.
Proof. unfold range. rewrite lookup_seqZ. lia. Qed.

Lemma length_range (n : Z) : length (range n) = Z.to_nat n.
Proof. apply length_seqZ. Qed.

(** ** The matrix *)

Lemma matrix_shape_lookup (R C : nat) m (i : nat) :
  matrix_shape R C m → (i < R)%nat → ∃ row, m !! i = Some row ∧ length row = C.
Proof.
  intros [Hlen Hrows] Hi.
  destruct (lookup_lt_is_Some_2 m i) as [row Hrow]; [lia|].
  exists row. split; [done|]. apply Hrows. by eapply list_elem_of_lookup_2.
Qed.

Lemma matrix_shape_fmap (R C : nat) m (f : list bool → list bool) :
  (∀ row, length (f row) = length row) →
  matrix_shape R C m → matrix_shape R C (f <$> m).
Proof.
  intros Hf [Hlen Hrows]. split; [by rewrite length_fmap|].
  intros row (row0 & -> & Hin)%list_elem_of_fmap. rewrite Hf. auto.
Qed.

Lemma matrix_shape_alter (R C : nat) m (f : list bool → list bool) (p : nat) :
  (∀ row, length row = C → length (f row) = C) →
  matrix_shape R C m → matrix_shape R C (alter f p m).
Proof.
  intros Hf [Hlen Hrows]. split; [by rewrite length_alter|].
  intros row (k & Hk)%list_elem_of_lookup.
  rewrite list_lookup_alter in Hk. case_decide as Hpk.
  - destruct (m !! p) as [row0|] eqn:Hp; simplify_eq/=.
    apply Hf, Hrows. by eapply list_elem_of_lookup_2.
  - apply Hrows. by eapply list_elem_of_lookup_2.
Qed.

Lemma valid_at_fmap_insert m (c : nat) (i j : nat) :
  valid_at ((<[c:=false]>) <$> m) i j
  = negb (bool_decide (j = c)) && valid_at m i j.
Proof.
  unfold valid_at. rewrite list_lookup_fmap.
  destruct (m !! i) as [row|]; simpl; [|by rewrite andb_false_r].
  case_bool_decide as Hj; simpl.
  - subst j. destruct (decide (c < length row)%nat).
    + by rewrite list_lookup_insert_eq.
    + by rewrite lookup_ge_None_2 by (rewrite length_insert; lia).
  - by rewrite list_lookup_insert_ne.
Qed.

Lemma valid_at_alter m (f : list bool → list bool) (p i j : nat) :
  valid_at (alter f p m) i j
  = if decide (i = p) then default false (row ← m !! p; f row !! j)
    else valid_at m i j.
Proof.
  unfold valid_at. rewrite list_lookup_alter.
  repeat case_decide; simplify_eq; try done. by destruct (m !! p).
Qed.

Lemma mat_get_valid_at (R C : nat) m (i j : nat) :
  matrix_shape R C m → (i < R)%nat → (j < C)%nat →
  mat_get m (Z.of_nat i) (Z.of_nat j) = Ok (valid_at m i j).
Proof.
  intros Hm Hi Hj. destruct (matrix_shape_lookup R C m i Hm Hi) as (row & Hrow & Hlen).
  destruct (lookup_lt_is_Some_2 row j) as [b Hb]; [lia|].
  rewrite (mat_get_nat m i j row b) by done.
  unfold valid_at. rewrite Hrow. simpl. by rewrite Hb.
Qed.

Section MatrixLoops.
Variable gu : MastermindGameUtils.
Let R := Z.to_nat (n_positions gu).
Let C := Z.to_nat (n_colors gu).

Lemma invalidate_color_ok m (c : nat) :
  matrix_shape R C m → (c < C)%nat →
  invalidate_color gu (Z.of_nat c) m = Ok ((<[c:=false]>) <$> m).
Proof.
  intros Hm Hc. unfold invalidate_color.
  destruct (for_invariant
    (λ k m', length m' = length m ∧
       ∀ i, m' !! i = if decide (i < k)%nat
                      then (<[c:=false]>) <$> m !! i else m !! i)
    (range (n_positions gu))
    (λ _pos m, mat_set m _pos (Z.of_nat c) false) m) as (m' & -> & Hlen & Hm').
  - split; [done|]. intros i. by rewrite decide_False by lia.
  - intros k x m1 [-> Hk]%range_lookup [Hlen1 Hm1].
    destruct (matrix_shape_lookup R C m k Hm Hk) as (row & Hrow & Hlen).
    assert (m1 !! k = Some row) as Hrow1.
    { by rewrite Hm1, decide_False by lia. }
    rewrite (mat_set_nat m1 k c false row) by (done || lia).
    eexists; split; [done|]. split; [by rewrite length_alter|].
    intros i. rewrite list_lookup_alter. repeat case_decide; try lia.
    + subst i. by rewrite Hrow1, Hrow.
    + rewrite Hm1. by rewrite decide_True by lia.
    + rewrite Hm1. by rewrite decide_False by lia.
  - f_equal. apply list_eq. intros i. rewrite Hm', list_lookup_fmap.
    rewrite length_range. case_decide; [done|].
    rewrite lookup_ge_None_2; [done|]. destruct Hm. unfold R in *. lia.
Qed.

Lemma insert_false_prefix (row : list bool) (k : nat) :
  (k < length row)%nat →
  <[k:=false]> (replicate k false ++ drop k row)
  = replicate (S k) false ++ drop (S k) row.
Proof.
  intros Hk. destruct (lookup_lt_is_Some_2 row k Hk) as [b Hb].
  rewrite replicate_S_end, <- app_assoc.
  rewrite insert_app_r_alt by (rewrite length_replicate; lia).
  rewrite length_replicate, Nat.sub_diag.
  by rewrite (drop_S row b k Hb).
Qed.

Lemma invalidate_position_ok m (p : nat) :
  matrix_shape R C m → (p < R)%nat →
  invalidate_position gu (Z.of_nat p) m
  = Ok (alter (λ _, replicate C false) p m).
Proof.
  intros Hm Hp. unfold invalidate_position.
  destruct (matrix_shape_lookup R C m p Hm Hp) as (row & Hrow & Hlen).
  destruct (for_invariant
    (λ k m', ∀ i, m' !! i = if decide (i = p)
                            then Some (replicate k false ++ drop k row)
                            else m !! i)
    (range (n_colors gu))
    (λ _col m, mat_set m (Z.of_nat p) _col false) m) as (m' & -> & Hm').
  - intros i. case_decide; [|done]. subst i. by rewrite drop_0.
  - intros k x m1 [-> Hk]%range_lookup Hm1.
    rewrite (mat_set_nat _ p k false (replicate k false ++ drop k row)).
    + eexists; split; [done|]. intros i. rewrite list_lookup_alter.
      case_decide; subst; rewrite Hm1.
      * case_decide; [|congruence]. simpl. f_equal.
        apply insert_false_prefix. unfold C in *. lia.
      * by repeat case_decide.
    + by rewrite Hm1, decide_True.
    + rewrite length_app, length_replicate, length_drop. unfold C in *. lia.
  - f_equal. apply list_eq. intros i. rewrite Hm', list_lookup_alter.
    rewrite length_range. case_decide; subst.
    + case_decide; [|congruence]. rewrite Hrow. simpl.
      rewrite drop_ge by (unfold C in *; lia). by rewrite app_nil_r.
    + by repeat case_decide.
Qed.
End MatrixLoops.

(** ** One round of [receive_feedback] *)

Section FeedbackStep.
Variable gu : MastermindGameUtils.
Let R := Z.to_nat (n_positions gu).
Let C := Z.to_nat (n_colors gu).

Lemma valid_at_black_row (m : list (list bool)) (p c : nat) (j : nat) row :
  m !! p = Some row → (c < C)%nat →
  default false
    (row ← alter (λ _, replicate C false) p m !! p; <[c:=true]> row !! j)
  = bool_decide (j = c).
Proof.
  intros Hrow Hc. rewrite list_lookup_alter_eq, Hrow. simpl.
  case_bool_decide as Hj.
  - subst j. by rewrite list_lookup_insert_eq by (by rewrite length_replicate).
  - rewrite list_lookup_insert_ne by done.
    destruct (replicate C false !! j) as [b|] eqn:Hb; [|done].
    by apply lookup_replicate in Hb as [-> _].
Qed.

Lemma valid_at_white (m : list (list bool)) (p c : nat) (i j : nat) :
  matrix_shape R C m → (p < R)%nat → (c < C)%nat →
  valid_at (alter (<[c:=false]>) p m) i j
  = if decide (i = p ∧ j = c) then false else valid_at m i j.
Proof.
  intros Hm Hp Hc. rewrite valid_at_alter.
  destruct (matrix_shape_lookup R C m p Hm Hp) as (row & Hrow & Hlen).
  repeat case_decide; try (exfalso; tauto).
  - destruct_and?. subst. rewrite Hrow. simpl.
    by rewrite list_lookup_insert_eq by lia.
  - subst i. unfold valid_at. rewrite Hrow. simpl.
    by rewrite list_lookup_insert_ne by (intros ->; tauto).
  - done.
Qed.

Lemma feedback_step_ok (self : ComputerCodeBreaker) (p c : nat) (peg : ascii) :
  well_formed gu self → (p < R)%nat → (c < C)%nat →
  ∃ self', feedback_step gu (Z.of_nat p) peg (Z.of_nat c + 1) self = Ok self'
           ∧ step_post gu p c peg self self'.
Proof.
  intros Hwf Hp Hc. unfold feedback_step.
  replace (Z.of_nat c + 1 - 1) with (Z.of_nat c) by lia.
  set (self1 := if decide (Z.of_nat c ∈ _unseen_colors self) then _ else _).
  assert (Hm1 : _valid_guess self1 = _valid_guess self)
    by (unfold self1; by case_decide).
  assert (Hu1 : _unseen_colors self1 = _unseen_colors self ∖ {[Z.of_nat c]}).
  { unfold self1. case_decide; simpl; [done|].
    symmetry. by apply difference_disjoint_L, disjoint_singleton_r. }
  assert (Hr1 : _right_colors self1 = _right_colors self)
    by (unfold self1; by case_decide).
  assert (Hf1 : _right_colors_found self1 = _right_colors_found self)
    by (unfold self1; by case_decide).
  rewrite Hm1, Hr1. clearbody self1. unfold well_formed in Hwf.
  fold R C in Hwf.
  destruct (matrix_shape_lookup R C _ p Hwf Hp) as (row & Hrow & Hlen).
  unfold step_post, well_formed. fold R C.
  assert (Hins : ∀ (b : bool) (row : list bool),
            length row = C → length (<[c:=b]> row) = C)
    by (intros; by rewrite length_insert).
  assert (Hrep : ∀ row : list bool,
            length row = C → length (replicate C false) = C)
    by (intros; by rewrite length_replicate).
  case_decide as Hb; [|case_decide as Hw].
  - (* black *)
    destruct (duplicates_allowed gu) eqn:Hdup; simpl.
    + rewrite invalidate_position_ok by done. simpl.
      rewrite (mat_set_nat _ p c true (replicate C false))
        by (by rewrite ?list_lookup_alter_eq, ?Hrow, ?length_replicate).
      eexists; split; [done|]. simpl.
      rewrite decide_True by auto.
      split; [by auto using matrix_shape_alter|]. repeat split; try done.
      intros i j. unfold cell_after. rewrite decide_True by done.
      rewrite valid_at_alter. case_decide.
      * by apply (valid_at_black_row _ p c j row).
      * rewrite valid_at_alter. by rewrite decide_False.
    + rewrite invalidate_color_ok by done. simpl.
      assert (matrix_shape R C (<[c:=false]> <$> _valid_guess self)) as Hm2.
      { apply matrix_shape_fmap; [|done]. intros. by rewrite length_insert. }
      rewrite invalidate_position_ok by done. simpl.
      destruct (matrix_shape_lookup R C _ p Hm2 Hp) as (row2 & Hrow2 & Hlen2).
      rewrite (mat_set_nat _ p c true (replicate C false))
        by (by rewrite ?list_lookup_alter_eq, ?Hrow2, ?length_replicate).
      eexists; split; [done|]. simpl.
      rewrite decide_True by auto.
      split; [by auto using matrix_shape_alter|]. repeat split; try done.
      intros i j. unfold cell_after. rewrite decide_True by done.
      rewrite valid_at_alter. case_decide.
      * by apply (valid_at_black_row _ p c j row2).
      * rewrite valid_at_alter. rewrite decide_False by done.
        apply valid_at_fmap_insert.
  - (* white *)
    rewrite (mat_set_nat _ p c false row) by (done || lia). simpl.
    eexists; split; [done|]. simpl.
    rewrite decide_True by auto.
    split; [by auto using matrix_shape_alter|]. repeat split; try done.
    intros i j. unfold cell_after.
    rewrite decide_False, decide_True by done.
    by apply valid_at_white.
  - (* miss *)
    rewrite invalidate_color_ok by done. simpl.
    eexists; split; [done|]. simpl.
    rewrite decide_False by tauto.
    split; [apply matrix_shape_fmap; [|done]; intros; by rewrite length_insert|].
    repeat split; try done.
    intros i j. unfold cell_after. rewrite !decide_False by done.
    apply valid_at_fmap_insert.
Qed.
End FeedbackStep.

(** ** The whole of [receive_feedback] *)

Lemma validate_code_spec (gu : MastermindGameUtils) (code : list Z) :
  validate_code gu code = true ↔
  Z.of_nat (length code) = n_positions gu ∧
  (duplicates_allowed gu = true ∨ NoDup code) ∧
  Forall (λ color, 1 ≤ color ≤ n_colors gu) code.
Proof.
  unfold validate_code.
  rewrite !andb_true_iff, orb_true_iff, forallb_forall, Forall_forall.
  rewrite !bool_decide_eq_true.
  setoid_rewrite bool_decide_eq_true. setoid_rewrite <- list_elem_of_In.
  tauto.
Qed.

Lemma validate_feedback_length (gu : MastermindGameUtils) (feedback : string) :
  validate_feedback gu feedback = true →
  Z.of_nat (length (list_ascii_of_string feedback)) = n_positions gu.
Proof.
  unfold validate_feedback.
  rewrite andb_true_iff, bool_decide_eq_true, length_list_ascii_of_string.
  tauto.
Qed.

Lemma enumerate_lookup {A : Type} (l : list A) (k : nat) (i : Z) (x : A) :
  enumerate l !! k = Some (i, x) ↔ i = Z.of_nat k ∧ l !! k = Some x.
Proof.
  unfold enumerate. rewrite lookup_zip_with_Some. split.
  - intros (i' & x' & [= <- <-] & [-> _]%lookup_seqZ & Hx). split; [lia|done].
  - intros [-> Hx]. exists (Z.of_nat k), x. split_and!; [done| |done].
    apply lookup_seqZ. apply lookup_lt_Some in Hx. lia.
Qed.

Lemma length_enumerate {A : Type} (l : list A) :
  length (enumerate l) = length l.
Proof. unfold enumerate. rewrite length_zip_with, length_seqZ. lia. Qed.

Section ReceiveFeedback.
Variable gu : MastermindGameUtils.
Let R := Z.to_nat (n_positions gu).
Let C := Z.to_nat (n_colors gu).

Lemma receive_feedback_unfold self guess feedback :
  receive_feedback gu self guess feedback
  = self' ← for_ (enumerate (zip (list_ascii_of_string feedback) guess))
              (λ '(pos, (peg, color)) self, feedback_step gu pos peg color self)
              self;
    Ok (update_found gu self').
Proof.
  unfold receive_feedback, update_found.
  destruct (for_ _ _ _) as [s|?]; simpl; [|done..].
  by repeat case_match.
Qed.

(** The rule for the loop: an invariant that every round keeps holds at
    the end, and the loop raises nothing. *)
Lemma receive_feedback_loop_range (I : nat → ComputerCodeBreaker → Prop)
    self guess feedback :
  well_formed gu self →
  Z.of_nat (length guess) = n_positions gu →
  Forall (λ color, 1 ≤ color ≤ n_colors gu) guess →
  I 0%nat self →
  (∀ (k c : nat) peg s s',
     list_ascii_of_string feedback !! k = Some peg →
     guess !! k = Some (Z.of_nat c + 1) → (c < C)%nat →
     well_formed gu s → I k s → step_post gu k c peg s s' → I (S k) s') →
  ∃ s', for_ (enumerate (zip (list_ascii_of_string feedback) guess))
          (λ '(pos, (peg, color)) self, feedback_step gu pos peg color self)
          self = Ok s'
        ∧ well_formed gu s'
        ∧ I (length (list_ascii_of_string feedback) `min` length guess)%nat s'.
Proof.
  intros Hwf Hlen Hcol H0 Hstep.
  destruct (for_invariant (λ k s, well_formed gu s ∧ I k s)
    (enumerate (zip (list_ascii_of_string feedback) guess))
    (λ '(pos, (peg, color)) self, feedback_step gu pos peg color self)
    self) as (s' & Hs' & Hwf' & HI'); [done| |].
  - intros k [pos [peg color]] s [-> Hk]%enumerate_lookup [Hwfs HIs].
    apply lookup_zip_with_Some in Hk as (peg' & color' & [= <- <-] & Hpeg & Hcolor).
    assert (1 ≤ color ≤ n_colors gu) as Hrange.
    { rewrite Forall_forall in Hcol. apply Hcol.
      by eapply list_elem_of_lookup_2. }
    assert (k < R)%nat as Hk by (apply lookup_lt_Some in Hcolor; unfold R; lia).
    assert (color = Z.of_nat (Z.to_nat (color - 1)) + 1) as Hc by lia.
    rewrite Hc in Hcolor |- *.
    destruct (feedback_step_ok gu s k (Z.to_nat (color - 1)) peg)
      as (s1 & Hs1 & Hpost); [done|done|lia|].
    exists s1. split; [done|]. split; [apply Hpost|].
    eapply Hstep; try done. unfold C. lia.
  - exists s'. split; [done|]. split; [done|].
    by rewrite length_enumerate, length_zip_with in HI'.
Qed.

Lemma receive_feedback_loop (I : nat → ComputerCodeBreaker → Prop)
    self guess feedback :
  well_formed gu self →
  validate_code gu guess = true →
  I 0%nat self →
  (∀ (k c : nat) peg s s',
     list_ascii_of_string feedback !! k = Some peg →
     guess !! k = Some (Z.of_nat c + 1) → (c < C)%nat →
     well_formed gu s → I k s → step_post gu k c peg s s' → I (S k) s') →
  ∃ s', for_ (enumerate (zip (list_ascii_of_string feedback) guess))
          (λ '(pos, (peg, color)) self, feedback_step gu pos peg color self)
          self = Ok s'
        ∧ well_formed gu s'
        ∧ I (length (list_ascii_of_string feedback) `min` length guess)%nat s'.
Proof.
  intros Hwf (Hlen & _ & Hcol)%validate_code_spec.
  by apply receive_feedback_loop_range.
Qed.
End ReceiveFeedback.

(** ** Reachable states *)

Section Reachable.
Variable gu : MastermindGameUtils.

Lemma init_well_formed : well_formed gu (init gu).
Proof.
  split; simpl.
  - by rewrite length_fmap, length_range.
  - intros row (x & -> & _)%list_elem_of_fmap.
    by rewrite length_fmap, length_range.
Qed.

Lemma update_found_valid_guess self :
  _valid_guess (update_found gu self) = _valid_guess self.
Proof. unfold update_found. by repeat case_match. Qed.

Lemma update_found_right_colors self :
  _right_colors (update_found gu self) = _right_colors self.
Proof. unfold update_found. by repeat case_match. Qed.

Lemma update_found_well_formed self :
  well_formed gu self → well_formed gu (update_found gu self).
Proof. unfold well_formed. by rewrite update_found_valid_guess. Qed.

(** On a validated guess [receive_feedback] raises nothing and keeps the
    shape of the matrix. *)
Lemma receive_feedback_well_formed self guess feedback :
  well_formed gu self → validate_code gu guess = true →
  ∃ self', receive_feedback gu self guess feedback = Ok self'
           ∧ well_formed gu self'.
Proof.
  intros Hwf Hcode.
  destruct (receive_feedback_loop gu (λ _ _, True) self guess feedback)
    as (s' & Hs' & Hwf' & _); [done..|].
  rewrite receive_feedback_unfold, Hs'. simpl.
  eauto using update_found_well_formed.
Qed.

Lemma reachable_well_formed self : reachable gu self → well_formed gu self.
Proof.
  induction 1 as [|self guess feedback self' _ IH Hcode _ Hrun].
  - apply init_well_formed.
  - destruct (receive_feedback_well_formed self guess feedback IH Hcode)
      as (s & Hs & Hwf).
    congruence.
Qed.

(** A call of [receive_feedback] never takes the flag back and never
    adds to the unseen colors. *)
Lemma receive_feedback_found self guess feedback :
  well_formed gu self → validate_code gu guess = true →
  (_right_colors_found self = true → _unseen_colors self = ∅) →
  ∃ self', receive_feedback gu self guess feedback = Ok self'
    ∧ (_right_colors_found self = true → _right_colors_found self' = true)
    ∧ (_right_colors_found self' = true → _unseen_colors self' = ∅).
Proof.
  intros Hwf Hcode Hinv.
  destruct (receive_feedback_loop gu
    (λ _ s, _right_colors_found s = _right_colors_found self
            ∧ _unseen_colors s ⊆ _unseen_colors self)
    self guess feedback) as (s' & Hs' & Hwf' & Hf & Hu); [done..| |].
  - intros k c peg s s1 _ _ _ _ [Hf Hu] (_ & Hu1 & _ & Hf1 & _).
    split; [congruence|]. rewrite Hu1. by apply subseteq_difference_l.
  - rewrite receive_feedback_unfold, Hs'. simpl.
    eexists; split; [done|]. unfold update_found. rewrite Hf.
    destruct (_right_colors_found self) eqn:Hfound; simpl.
    + split; [done|]. intros _. specialize (Hinv eq_refl).
      rewrite Hinv in Hu. set_solver.
    + destruct (_check_right_colors_found gu s'); simpl; [done|].
      split; [done|]. congruence.
Qed.

Lemma reachable_found_unseen self :
  reachable gu self →
  _right_colors_found self = true → _unseen_colors self = ∅.
Proof.
  induction 1 as [|self guess feedback self' Hreach IH Hcode _ Hrun].
  - done.
  - destruct (receive_feedback_found self guess feedback) as (s & Hs & _ & Hu);
      auto using reachable_well_formed.
    by assert (s = self') as <- by congruence.
Qed.

(** C6: in a reachable state in which the flag [_right_colors_found] is
    set there are no unseen colors, and every further call of
    [receive_feedback] (on a validated guess and feedback) returns a state
    in which the flag is still set and there are still no unseen colors. *)
Theorem found_flag_stable self :
  reachable gu self → _right_colors_found self = true →
  _unseen_colors self = ∅ ∧
  ∀ guess feedback,
    validate_code gu guess = true → validate_feedback gu feedback = true →
    ∃ self', receive_feedback gu self guess feedback = Ok self'
             ∧ _right_colors_found self' = true
             ∧ _unseen_colors self' = ∅.
Proof.
  intros Hreach Hfound. split; [by apply reachable_found_unseen|].
  intros guess feedback Hcode _.
  destruct (receive_feedback_found self guess feedback) as (s & Hs & Hf & Hu);
    auto using reachable_well_formed, reachable_found_unseen.
  exists s. auto.
Qed.
End Reachable.

(** ** What a call of [receive_feedback] does to the matrix *)

Section FeedbackEffects.
Variable gu : MastermindGameUtils.
Let R := Z.to_nat (n_positions gu).
Let C := Z.to_nat (n_colors gu).

Lemma mat_get_Z (self : ComputerCodeBreaker) (p c : Z) :
  well_formed gu self → 0 ≤ p < n_positions gu → 0 ≤ c < n_colors gu →
  mat_get (_valid_guess self) p c
  = Ok (valid_at (_valid_guess self) (Z.to_nat p) (Z.to_nat c)).
Proof.
  intros Hwf Hp Hc.
  rewrite <- (Z2Nat.id p) at 1 by lia. rewrite <- (Z2Nat.id c) at 1 by lia.
  apply (mat_get_valid_at R C); [done|unfold R; lia|unfold C; lia].
Qed.

(** An entry that is set after the call was set before it, or it is the
    entry of a black peg: its position and the color guessed there. *)
Lemma receive_feedback_entries_range self guess feedback :
  well_formed gu self →
  Z.of_nat (length guess) = n_positions gu →
  Forall (λ color, 1 ≤ color ≤ n_colors gu) guess →
  ∃ self', receive_feedback gu self guess feedback = Ok self'
    ∧ well_formed gu self'
    ∧ ∀ i j, valid_at (_valid_guess self') i j = true →
        valid_at (_valid_guess self) i j = true
        ∨ (list_ascii_of_string feedback !! i = Some "b"%char
           ∧ guess !! i = Some (Z.of_nat j + 1)).
Proof.
  intros Hwf Hlen Hcol.
  destruct (receive_feedback_loop_range gu
    (λ _ s, ∀ i j, valid_at (_valid_guess s) i j = true →
        valid_at (_valid_guess self) i j = true
        ∨ (list_ascii_of_string feedback !! i = Some "b"%char
           ∧ guess !! i = Some (Z.of_nat j + 1)))
    self guess feedback) as (s' & Hs' & Hwf' & Hinv); [done|done|done|auto| |].
  - intros k c peg s s1 Hpeg Hcolor _ _ IH (_ & _ & _ & _ & Hcell) i j.
    rewrite Hcell. unfold cell_after.
    repeat case_decide; repeat case_bool_decide; simplify_eq;
      destruct (duplicates_allowed gu); simpl; try done; auto.
  - rewrite receive_feedback_unfold, Hs'. simpl.
    eexists; split; [done|]. rewrite update_found_valid_guess.
    eauto using update_found_well_formed.
Qed.

Lemma receive_feedback_entries self guess feedback :
  well_formed gu self → validate_code gu guess = true →
  ∃ self', receive_feedback gu self guess feedback = Ok self'
    ∧ well_formed gu self'
    ∧ ∀ i j, valid_at (_valid_guess self') i j = true →
        valid_at (_valid_guess self) i j = true
        ∨ (list_ascii_of_string feedback !! i = Some "b"%char
           ∧ guess !! i = Some (Z.of_nat j + 1)).
Proof.
  intros Hwf (Hlen & _ & Hcol)%validate_code_spec.
  by apply receive_feedback_entries_range.
Qed.

(** C2 (as the code has it): on a guess of [n_positions] colors from 1 to
    [n_colors] (with or without a color twice) and a validated feedback,
    when the color guessed at each position with a black peg is set in the
    matrix at that position before the call, every entry of the matrix
    that is set after [receive_feedback] was set before it.  (A black peg
    sets the entry of its position and color, whatever it was.) *)
Theorem receive_feedback_shrinks self guess feedback :
  well_formed gu self →
  Z.of_nat (length guess) = n_positions gu →
  Forall (λ color, 1 ≤ color ≤ n_colors gu) guess →
  validate_feedback gu feedback = true →
  (∀ (p : nat) (color : Z),
     list_ascii_of_string feedback !! p = Some "b"%char →
     guess !! p = Some color →
     mat_get (_valid_guess self) (Z.of_nat p) (color - 1) = Ok true) →
  ∃ self', receive_feedback gu self guess feedback = Ok self' ∧
    ∀ p c, 0 ≤ p < n_positions gu → 0 ≤ c < n_colors gu →
      mat_get (_valid_guess self') p c = Ok true →
      mat_get (_valid_guess self) p c = Ok true.
Proof.
  intros Hwf Hlen Hcol _ Hblack.
  destruct (receive_feedback_entries_range self guess feedback)
    as (s' & Hs' & Hwf' & Hsub); [done..|].
  exists s'. split; [done|]. intros p c Hp Hc.
  rewrite !mat_get_Z by done. intros [= Hset].
  destruct (Hsub _ _ Hset) as [->|[Hpeg Hcolor]]; [done|].
  specialize (Hblack _ _ Hpeg Hcolor).
  rewrite Z2Nat.id in Hblack by lia.
  replace (Z.of_nat (Z.to_nat c) + 1 - 1) with c in Hblack by lia.
  by rewrite <- mat_get_Z.
Qed.

(** C5: in a game without duplicates, on a validated guess (its colors
    are pairwise distinct) and feedback, a black peg at position [p] for
    the color [color] leaves [color] as the only color set at [p], unset
    at every other position, and among the right colors. *)
Theorem black_peg_pins_color self guess feedback (p : nat) (color : Z) :
  duplicates_allowed gu = false →
  well_formed gu self →
  validate_code gu guess = true → validate_feedback gu feedback = true →
  list_ascii_of_string feedback !! p = Some "b"%char →
  guess !! p = Some color →
  ∃ self', receive_feedback gu self guess feedback = Ok self' ∧
    (∀ c', 0 ≤ c' < n_colors gu →
       mat_get (_valid_guess self') (Z.of_nat p) c'
       = Ok (bool_decide (c' = color - 1))) ∧
    (∀ p', 0 ≤ p' < n_positions gu → p' ≠ Z.of_nat p →
       mat_get (_valid_guess self') p' (color - 1) = Ok false) ∧
    color - 1 ∈ _right_colors self'.
Proof.
  intros Hdup Hwf Hcode Hfb Hpeg Hcolor.
  pose proof Hcode as (Hlen & [?|Hnodup] & Hcol)%validate_code_spec;
    [congruence|].
  assert (1 ≤ color ≤ n_colors gu) as Hrange.
  { rewrite Forall_forall in Hcol. apply Hcol.
    by eapply list_elem_of_lookup_2. }
  set (c := Z.to_nat (color - 1)).
  assert (color = Z.of_nat c + 1) as Hc by (unfold c; lia).
  destruct (receive_feedback_loop gu
    (λ k s, (p < k)%nat →
       (∀ i j, valid_at (_valid_guess s) i j = true → i = p ↔ j = c) ∧
       valid_at (_valid_guess s) p c = true ∧
       Z.of_nat c ∈ _right_colors s)
    self guess feedback) as (s' & Hs' & Hwf' & Hinv); [done|done|lia| |].
  - intros k c1 peg s s1 Hpeg1 Hcolor1 _ _ IH (_ & _ & Hr1 & _ & Hcell) Hk.
    destruct (decide (k = p)) as [->|Hne].
    + rewrite Hpeg in Hpeg1. injection Hpeg1 as <-.
      assert (c1 = c) as ->
        by (rewrite Hcolor in Hcolor1; injection Hcolor1; lia).
      split_and!.
      * intros i j. rewrite Hcell, Hdup. unfold cell_after. simpl.
        repeat case_decide; repeat case_bool_decide; try done;
          rewrite ?andb_false_l; naive_solver.
      * rewrite Hcell. unfold cell_after.
        rewrite !decide_True by done. by apply bool_decide_eq_true.
      * rewrite Hr1. rewrite decide_True by auto. set_solver.
    + destruct IH as (Hrow & Hpc & Hright); [lia|].
      assert (c1 ≠ c) as Hcne.
      { intros ->. apply Hne. eapply NoDup_lookup; [done..|].
        by rewrite Hcolor, Hc. }
      split_and!.
      * intros i j. rewrite Hcell, Hdup. unfold cell_after. simpl.
        specialize (Hrow i j).
        repeat case_decide; repeat case_bool_decide; simpl;
          try done; naive_solver.
      * rewrite Hcell, Hdup. unfold cell_after. simpl.
        repeat case_decide; repeat case_bool_decide; simpl;
          try done; naive_solver.
      * rewrite Hr1. case_decide; set_solver.
  - rewrite receive_feedback_unfold, Hs'. simpl.
    eexists; split; [done|].
    rewrite update_found_valid_guess, update_found_right_colors.
    assert (p < length (list_ascii_of_string feedback) `min` length guess)%nat
      as Hp.
    { apply lookup_lt_Some in Hpeg, Hcolor. lia. }
    destruct (Hinv Hp) as (Hrow & Hpc & Hright).
    assert (Z.of_nat p < n_positions gu)
      by (apply lookup_lt_Some in Hcolor; lia).
    split_and!.
    + intros c' Hc'. rewrite (mat_get_Z s') by (done || lia). f_equal.
      rewrite Nat2Z.id. case_bool_decide as Hcc.
      * subst c'. by fold c.
      * apply not_true_is_false. intros Hset%Hrow.
        apply Hcc. destruct Hset as [Hset _]. specialize (Hset eq_refl). lia.
    + intros p' Hp' Hne. rewrite (mat_get_Z s') by (done || lia). f_equal.
      fold c. apply not_true_is_false. intros Hset%Hrow.
      destruct Hset as [_ Hset]. specialize (Hset eq_refl). lia.
    + by replace (color - 1) with (Z.of_nat c) by lia.
Qed.
End FeedbackEffects.

(** ** Feedback from [_auto_feedback] keeps the secret code possible *)

Section Oracle.
Variable gu : MastermindGameUtils.
Variable secret : list Z.
Hypothesis secret_valid : validate_code gu secret = true.
Let R := Z.to_nat (n_positions gu).
Let C := Z.to_nat (n_colors gu).

Lemma secret_color_range (p : nat) (color : Z) :
  secret !! p = Some color → 1 ≤ color ≤ n_colors gu.
Proof.
  intros Hp. apply validate_code_spec in secret_valid as (_ & _ & Hcol).
  rewrite Forall_forall in Hcol. apply Hcol. by eapply list_elem_of_lookup_2.
Qed.

Lemma secret_no_dup :
  duplicates_allowed gu = false → NoDup secret.
Proof.
  intros Hdup. apply validate_code_spec in secret_valid as (_ & [?|?] & _);
    [congruence|done].
Qed.

Lemma oracle_inv_init : oracle_inv gu secret (init gu).
Proof.
  split_and!.
  - intros p color Hp. pose proof (secret_color_range p color Hp) as Hc.
    apply validate_code_spec in secret_valid as (Hlen & _ & _).
    apply lookup_lt_Some in Hp.
    unfold valid_at, init. simpl. rewrite !list_lookup_fmap.
    unfold range. rewrite lookup_seqZ_lt by lia. simpl.
    rewrite list_lookup_fmap, lookup_seqZ_lt by lia. done.
  - intros color [p Hp]%list_elem_of_lookup.
    pose proof (secret_color_range p color Hp) as Hc.
    left. simpl. apply elem_of_list_to_set, elem_of_seqZ. lia.
  - intros c. simpl. set_solver.
Qed.

Lemma oracle_inv_update_found self :
  oracle_inv gu secret self → oracle_inv gu secret (update_found gu self).
Proof.
  intros (Hm & Hcol & Hright). unfold update_found.
  destruct (_right_colors_found self); simpl; [done|].
  unfold _check_right_colors_found.
  destruct (duplicates_allowed gu) eqn:Hdup; simpl.
  - case_bool_decide as Hu; [|done]. split_and!; simpl; try done.
    intros color Hin. destruct (Hcol color Hin) as [Hun|?]; [|auto].
    rewrite Hu in Hun. set_solver.
  - case_bool_decide as Hsize; [|done]. split_and!; simpl; try done.
    intros color Hin. right.
    set (S := list_to_set ((λ s, s - 1) <$> secret) : gset Z).
    assert (_right_colors self ⊆ S) as Hsub.
    { intros c Hc. apply elem_of_list_to_set, list_elem_of_fmap.
      exists (c + 1). split; [lia|auto]. }
    assert (size S = length secret) as HsizeS.
    { unfold S. rewrite size_list_to_set, length_fmap; [done|].
      apply NoDup_fmap_2; [|by apply secret_no_dup]. intros ???; lia. }
    assert (_right_colors self = S) as ->.
    { apply set_subseteq_size_eq; [done|].
      apply validate_code_spec in secret_valid as (Hlen & _ & _). lia. }
    apply elem_of_list_to_set, list_elem_of_fmap. eauto.
Qed.

Lemma peg_of_cases (g a : Z) :
  (peg_of secret g a = "b"%char ∧ g = a) ∨
  (peg_of secret g a = "w"%char ∧ g ≠ a ∧ g ∈ secret) ∨
  (peg_of secret g a = "."%char ∧ g ≠ a ∧ g ∉ secret).
Proof. unfold peg_of. repeat case_decide; auto. Qed.

Lemma oracle_inv_step (k c : nat) (a : Z) (s s' : ComputerCodeBreaker) :
  secret !! k = Some a → (c < C)%nat →
  oracle_inv gu secret s →
  step_post gu k c (peg_of secret (Z.of_nat c + 1) a) s s' →
  oracle_inv gu secret s'.
Proof.
  intros Ha Hc (Hm & Hcol & Hright) (_ & Hu & Hr & _ & Hcell).
  assert (a ∈ secret) as Hain by (by eapply list_elem_of_lookup_2).
  split_and!.
  - intros p color Hp. rewrite Hcell. specialize (Hm p color Hp).
    pose proof (secret_color_range p color Hp) as Hrange.
    assert (color ∈ secret) as Hin by (by eapply list_elem_of_lookup_2).
    assert (Z.to_nat (color - 1) = c ↔ color = Z.of_nat c + 1) as Hcc by lia.
    rewrite Hm. unfold cell_after.
    destruct (peg_of_cases (Z.of_nat c + 1) a)
      as [[-> Hg]|[[-> [Hg Hin']]|[-> [Hg Hin']]]].
    + rewrite decide_True by done.
      destruct (decide (p = k)) as [->|Hpk].
      * apply bool_decide_eq_true. apply Hcc. congruence.
      * destruct (duplicates_allowed gu) eqn:Hdup; [done|].
        rewrite andb_true_r. apply negb_true_iff, bool_decide_eq_false.
        intros Heq%Hcc. apply Hpk.
        eapply NoDup_lookup; [by apply secret_no_dup|done|]. congruence.
    + rewrite decide_False, decide_True by done.
      destruct (decide (p = k ∧ _)) as [[-> Heq%Hcc]|]; [|done]. congruence.
    + rewrite !decide_False by done.
      rewrite andb_true_r. apply negb_true_iff, bool_decide_eq_false.
      intros Heq%Hcc. congruence.
  - intros color Hin. rewrite Hu, Hr.
    destruct (decide (color = Z.of_nat c + 1)) as [->|Hne].
    + right. destruct (peg_of_cases (Z.of_nat c + 1) a)
        as [[-> Hg]|[[-> [Hg Hin']]|[-> [Hg Hin']]]]; [| |done].
      * rewrite decide_True by auto. set_solver by lia.
      * rewrite decide_True by auto. set_solver by lia.
    + destruct (Hcol color Hin) as [?|?].
      * left. set_solver by lia.
      * right. case_decide; set_solver.
  - intros c'. rewrite Hr.
    destruct (peg_of_cases (Z.of_nat c + 1) a)
      as [[-> Hg]|[[-> [Hg Hin']]|[-> [Hg Hin']]]].
    + rewrite decide_True by auto.
      intros [?| ->%elem_of_singleton]%elem_of_union; [auto|]. by rewrite Hg.
    + rewrite decide_True by auto.
      intros [?| ->%elem_of_singleton]%elem_of_union; auto.
    + rewrite decide_False; [auto|]. intros [?|?]; done.
Qed.

Lemma receive_feedback_oracle self guess :
  well_formed gu self → validate_code gu guess = true → oracle_inv gu secret self →
  ∃ self', receive_feedback gu self guess (_auto_feedback secret guess)
           = Ok self'
           ∧ well_formed gu self' ∧ oracle_inv gu secret self'.
Proof.
  intros Hwf Hcode Hinv.
  destruct (receive_feedback_loop gu (λ _ s, oracle_inv gu secret s)
    self guess (_auto_feedback secret guess))
    as (s' & Hs' & Hwf' & Hinv'); [done|done|done| |].
  - intros k c peg s s1 Hpeg Hcolor Hc _ IH Hpost.
    rewrite auto_feedback_pegs_list, list_lookup_fmap in Hpeg.
    destruct (zip guess secret !! k) as [[g a]|] eqn:Hzip; [|done].
    apply lookup_zip_with_Some in Hzip
      as (g' & a' & [= <- <-] & Hg & Ha).
    simpl in Hpeg. injection Hpeg as <-.
    rewrite Hcolor in Hg. injection Hg as <-.
    by eapply oracle_inv_step.
  - rewrite receive_feedback_unfold, Hs'. simpl.
    eexists; split; [done|].
    split; [by apply update_found_well_formed|].
    by apply oracle_inv_update_found.
Qed.

Lemma oracle_inv_feasible self :
  well_formed gu self → oracle_inv gu secret self → feasible secret self.
Proof.
  intros Hwf (Hm & Hcol & _). split; [|done].
  intros p color Hp. pose proof (secret_color_range p color Hp).
  apply validate_code_spec in secret_valid as (Hlen & _ & _).
  rewrite (mat_get_Z gu); [|done|apply lookup_lt_Some in Hp; lia|lia].
  rewrite Nat2Z.id. f_equal. auto.
Qed.
End Oracle.

(** C10: for a secret code and guesses that [validate_code] accepts, a
    breaker that receives for each guess the feedback of [_auto_feedback]
    raises nothing, and after every call the secret is still possible: at
    each position its color is set in the matrix, and each of its colors is
    unseen or among the right colors. *)
Theorem secret_stays_feasible (gu : MastermindGameUtils) (secret : list Z)
    (guesses : list (list Z)) :
  validate_code gu secret = true →
  Forall (λ guess, validate_code gu guess = true) guesses →
  ∃ self, play gu secret guesses (init gu) = Ok self ∧ feasible secret self.
Proof.
  intros Hsecret Hguesses.
  assert (H : ∀ self, well_formed gu self → oracle_inv gu secret self →
            ∃ self', play gu secret guesses self = Ok self'
                     ∧ well_formed gu self' ∧ oracle_inv gu secret self').
  { induction Hguesses as [|guess guesses Hg _ IH]; intros self Hwf Hinv.
    - simpl. eauto.
    - destruct (receive_feedback_oracle gu secret Hsecret self guess)
        as (s1 & Hs1 & Hwf1 & Hinv1); [done..|].
      unfold play in *. simpl. rewrite Hs1. simpl. by apply IH. }
  destruct (H (init gu)) as (self & Hrun & Hwf & Hinv).
  - apply init_well_formed.
  - by apply oracle_inv_init.
  - exists self. split; [done|]. by apply (oracle_inv_feasible gu).
Qed.

(** ** The search: nesting of calls and frame *)

(** A branch that ends with an exception other than [RecursionError]. *)
Ltac raised :=
  first [done | unfold in_depth in *; simpl in *; congruence].

Lemma for_in_depth {A St : Type} (xs : list A) (body : A → St → result St)
    (s : St) :
  (∀ x s, in_depth (body x s)) → in_depth (for_ xs body s).
Proof.
  intros Hbody. revert s. induction xs as [|x xs IH]; intros s; simpl; [done|].
  specialize (Hbody x s). destruct (body x s); simpl; [apply IH|raised].
Qed.

Lemma getitem_in_depth {A : Type} (l : list A) (i : Z) :
  in_depth (getitem l i).
Proof. unfold getitem. by repeat case_match. Qed.

Lemma setitem_in_depth {A : Type} (l : list A) (i : Z) (x : A) :
  in_depth (setitem l i x).
Proof. unfold setitem. by repeat case_match. Qed.

Lemma mat_get_in_depth (m : list (list bool)) (pos col : Z) :
  in_depth (mat_get m pos col).
Proof.
  unfold mat_get. pose proof (getitem_in_depth m pos).
  destruct (getitem m pos); simpl;
    [apply getitem_in_depth|unfold in_depth in *; congruence].
Qed.

Section SearchBasics.
Variable gu : MastermindGameUtils.
Variable RNG : Type.
Variable shuffle : RNG → list Z → list Z * RNG.

Implicit Types σ : frame RNG.

Lemma viable_in_depth σ (pos color : Z) :
  in_depth (viable σ pos color).
Proof.
  unfold viable. pose proof (getitem_in_depth (colors_to_check σ) color).
  destruct (getitem _ color) as [[]|?]; simpl; try raised.
  apply mat_get_in_depth.
Qed.

Lemma ordered_colors_in_depth σ (pos : Z) :
  in_depth (ordered_colors gu shuffle σ pos).
Proof.
  unfold ordered_colors, viable_colors.
  match goal with |- in_depth (mbind _ ?r) =>
    assert (in_depth r) as Hr end.
  { apply for_in_depth. intros color acc.
    pose proof (viable_in_depth σ pos color).
    destruct (viable σ pos color); raised. }
  destruct (for_ _ _ _) as [l|?]; simpl; try raised.
  destruct (shuffle _ _); raised.
Qed.

Lemma ordered_colors_self σ σ' (pos : Z) (l : list Z) :
  ordered_colors gu shuffle σ pos = Ok (l, σ') →
  self σ' = self σ
  ∧ current_guess σ' = current_guess σ
  ∧ colors_to_check σ' = colors_to_check σ.
Proof.
  unfold ordered_colors. destruct (viable_colors _ _ _); simpl; try raised.
  destruct (shuffle _ _). by intros [= <- <-].
Qed.

Lemma try_colors_in_depth (rec : frame RNG → result (bool * frame RNG))
    (pos : Z) (colors : list Z) σ :
  (∀ σ, in_depth (rec σ)) → in_depth (try_colors gu rec pos colors σ).
Proof.
  intros Hrec. revert σ.
  induction colors as [|color colors IH]; intros σ; simpl; [done|].
  destruct (duplicates_allowed gu).
  - pose proof (setitem_in_depth (current_guess σ) pos (Some (color + 1))).
    destruct (setitem _ pos _) as [cg|?]; simpl; try raised.
    specialize (Hrec (with_current_guess σ cg)).
    destruct (rec _) as [[[] σ1]|?]; simpl; try raised; auto.
  - pose proof (setitem_in_depth (colors_to_check σ) color false).
    destruct (setitem _ color _) as [cc|?]; simpl; try raised.
    pose proof (setitem_in_depth (current_guess σ) pos (Some (color + 1))).
    destruct (setitem _ pos _) as [cg|?]; simpl; try raised.
    match goal with |- in_depth (mbind _ (rec ?σ1)) =>
      specialize (Hrec σ1); destruct (rec σ1) as [[[] σ2]|?] end;
      simpl; try raised.
    pose proof (setitem_in_depth (colors_to_check σ2) color true).
    destruct (setitem _ color true) as [cc2|?]; simpl; try raised; auto.
Qed.

(** No [RecursionError] when the depth covers the positions left. *)
Lemma _make_guess_in_depth (depth : nat) σ (pos : Z) :
  pos ≤ n_positions gu → (Z.to_nat (n_positions gu - pos) < depth)%nat →
  in_depth (_make_guess gu shuffle depth σ pos).
Proof.
  revert σ pos. induction depth as [|depth IH]; intros σ pos Hpos Hdepth;
    [lia|]. simpl.
  case_decide as Heq; [done|].
  pose proof (ordered_colors_in_depth σ pos).
  destruct (ordered_colors gu shuffle σ pos) as [[l σ1]|?]; simpl; try raised.
  apply try_colors_in_depth. intros σ2. apply IH; lia.
Qed.

(** More depth does not change a result that was reached. *)
Lemma try_colors_mono (rec rec' : frame RNG → result (bool * frame RNG))
    (pos : Z) (colors : list Z) σ :
  (∀ σ, in_depth (rec σ) → rec' σ = rec σ) →
  in_depth (try_colors gu rec pos colors σ) →
  try_colors gu rec' pos colors σ = try_colors gu rec pos colors σ.
Proof.
  intros Hrec. revert σ.
  induction colors as [|color colors IH]; intros σ; simpl; [done|].
  destruct (duplicates_allowed gu).
  - destruct (setitem _ pos _) as [cg|?]; simpl; try raised.
    destruct (rec (with_current_guess σ cg)) as [[[] σ1]|?] eqn:Hr;
      simpl; try raised; intros Hd;
      rewrite Hrec, Hr by (rewrite Hr; raised); simpl; auto.
  - destruct (setitem _ color _) as [cc|?]; simpl; try raised.
    destruct (setitem _ pos _) as [cg|?]; simpl; try raised.
    match goal with |- in_depth (mbind _ (rec ?σ1)) → _ =>
      destruct (rec σ1) as [[[] σ2]|?] eqn:Hr end;
      simpl; try raised; intros Hd;
      rewrite Hrec, Hr by (rewrite Hr; raised); simpl; auto.
    destruct (setitem _ color true) as [cc2|?]; simpl; try raised; auto.
Qed.

Lemma _make_guess_mono (depth : nat) σ (pos : Z) :
  in_depth (_make_guess gu shuffle depth σ pos) →
  _make_guess gu shuffle (S depth) σ pos = _make_guess gu shuffle depth σ pos.
Proof.
  revert σ pos. induction depth as [|depth IH]; intros σ pos; [done|].
  intros Hterm. simpl in Hterm |- *.
  case_decide as Heq; [done|].
  destruct (ordered_colors gu shuffle σ pos) as [[l σ1]|?]; simpl in *; try raised.
  apply try_colors_mono; [|done]. intros σ2 Hσ2. by apply IH.
Qed.

Lemma _make_guess_enough (depth depth' : nat) σ (pos : Z) :
  in_depth (_make_guess gu shuffle depth σ pos) → (depth ≤ depth')%nat →
  _make_guess gu shuffle depth' σ pos = _make_guess gu shuffle depth σ pos.
Proof.
  intros Hterm. induction 1 as [|depth' _ IH]; [done|].
  rewrite <- IH. apply _make_guess_mono. by rewrite IH.
Qed.

(** The search does not touch the breaker. *)
Lemma try_colors_self (rec : frame RNG → result (bool * frame RNG))
    (pos : Z) (colors : list Z) σ σ' (found : bool) :
  (∀ σ found σ', rec σ = Ok (found, σ') → self σ' = self σ) →
  try_colors gu rec pos colors σ = Ok (found, σ') →
  self σ' = self σ.
Proof.
  intros Hrec. revert σ.
  induction colors as [|color colors IH]; intros σ; simpl.
  { by intros [= <- <-]. }
  destruct (duplicates_allowed gu).
  - destruct (setitem _ pos _) as [cg|?]; simpl; try done.
    destruct (rec _) as [[[] σ1]|?] eqn:Hr; simpl; try done;
      apply Hrec in Hr; simpl in Hr.
    + intros [= <- <-]. done.
    + intros Hrest%IH. congruence.
  - destruct (setitem _ color _) as [cc|?]; simpl; try done.
    destruct (setitem _ pos _) as [cg|?]; simpl; try done.
    destruct (rec _) as [[[] σ1]|?] eqn:Hr; simpl; try done;
      apply Hrec in Hr; simpl in Hr.
    + intros [= <- <-]. done.
    + destruct (setitem _ color true) as [cc2|?]; simpl; try done.
      intros Hrest%IH. simpl in Hrest. congruence.
Qed.

Lemma _make_guess_self (depth : nat) σ σ' (pos : Z) (found : bool) :
  _make_guess gu shuffle depth σ pos = Ok (found, σ') → self σ' = self σ.
Proof.
  revert σ σ' pos found.
  induction depth as [|depth IH]; intros σ σ' pos found; [done|]. simpl.
  case_decide as Heq; [by intros [= <- <-]|].
  destruct (ordered_colors gu shuffle σ pos) as [[l σ1]|?] eqn:Hord; simpl; try done.
  apply ordered_colors_self in Hord as (Hself & _ & _).
  intros Htry. rewrite <- Hself.
  eapply try_colors_self; [|done]. intros σ2 found2 σ2'. apply IH.
Qed.
End SearchBasics.

(** ** The search: what it returns *)

Lemma for_invariant_partial {A St : Type} (I : nat → St → Prop) (xs : list A)
    (body : A → St → result St) (s s' : St) :
  for_ xs body s = Ok s' →
  I 0%nat s →
  (∀ k x s s1, xs !! k = Some x → I k s → body x s = Ok s1 → I (S k) s1) →
  I (length xs) s'.
Proof.
  revert I s. induction xs as [|x xs IH]; intros I s Hrun H0 Hstep; simpl in *.
  - by injection Hrun as <-.
  - destruct (body x s) as [s1|?] eqn:Hbody; simpl in Hrun; try done.
    apply (IH (λ k, I (S k)) s1); [done|by eapply (Hstep 0%nat)|].
    intros k y s2 s3 Hy. by apply (Hstep (S k)).
Qed.

Lemma getitem_nonneg {A : Type} (l : list A) (i : Z) (x : A) :
  0 ≤ i → getitem l i = Ok x → l !! Z.to_nat i = Some x.
Proof.
  intros Hi. unfold getitem, py_index.
  repeat case_decide; try lia; try done.
  by destruct (l !! Z.to_nat i); intros [= ->].
Qed.

Lemma setitem_nonneg {A : Type} (l l' : list A) (i : Z) (x : A) :
  0 ≤ i → setitem l i x = Ok l' →
  l' = <[Z.to_nat i:=x]> l ∧ (Z.to_nat i < length l)%nat.
Proof.
  intros Hi. unfold setitem, py_index.
  repeat case_decide; try lia; try done.
  intros [= <-]. split; [done|lia].
Qed.

Lemma insert_by_key_perm {A : Type} (key : A → Z) (x : A) (l : list A) :
  insert_by_key key x l ≡ₚ x :: l.
Proof.
  induction l as [|y l IH]; simpl; [done|].
  case_decide; [done|]. by rewrite IH, Permutation_swap.
Qed.

Lemma sort_by_key_perm {A : Type} (key : A → Z) (l : list A) :
  sort_by_key key l ≡ₚ l.
Proof.
  induction l as [|x l IH]; simpl; [done|].
  by rewrite insert_by_key_perm, IH.
Qed.

Section SearchSound.
Variable gu : MastermindGameUtils.
Variable RNG : Type.
Variable shuffle : RNG → list Z → list Z * RNG.
Hypothesis shuffle_perm : ∀ g l, (shuffle g l).1 ≡ₚ l.
Let N := Z.to_nat (n_positions gu).
Implicit Types σ : frame RNG.

Lemma viable_candidate σ (k : nat) (c : Z) :
  0 ≤ c < n_colors gu → viable σ (Z.of_nat k) c = Ok true → candidate gu σ k c.
Proof.
  intros Hc. unfold viable.
  destruct (getitem (colors_to_check σ) c) as [[]|?] eqn:Hget;
    simpl; try done.
  intros Hm. split; [done|]. split; [|done]. apply getitem_nonneg; [lia|done].
Qed.

Lemma viable_colors_candidates σ (k : nat) (l : list Z) :
  viable_colors gu σ (Z.of_nat k) = Ok l → ∀ c, c ∈ l → candidate gu σ k c.
Proof.
  intros Hrun.
  apply (for_invariant_partial (λ _ acc, ∀ c, c ∈ acc → candidate gu σ k c)
           _ _ _ _ Hrun).
  - intros c. by rewrite elem_of_nil.
  - intros i x acc acc1 [-> Hi]%range_lookup IH.
    destruct (viable σ (Z.of_nat k) (Z.of_nat i)) as [[]|?] eqn:Hv;
      simpl; try done; intros [= <-]; [|done].
    intros c [?| ->%list_elem_of_singleton]%elem_of_app; [auto|].
    apply viable_candidate; [lia|done].
Qed.

Lemma ordered_colors_candidates σ σ' (k : nat) (l : list Z) :
  ordered_colors gu shuffle σ (Z.of_nat k) = Ok (l, σ') →
  ∀ c, c ∈ l → candidate gu σ k c.
Proof.
  unfold ordered_colors.
  destruct (viable_colors gu σ (Z.of_nat k)) as [l0|?] eqn:Hv;
    simpl; try done.
  pose proof (shuffle_perm (rng σ) l0) as Hperm.
  destruct (shuffle (rng σ) l0) as [l1 g]. simpl in Hperm.
  intros [= <- <-] c Hc.
  rewrite sort_by_key_perm, Hperm in Hc.
  by eapply viable_colors_candidates.
Qed.

Lemma placed_frame σ σ' (k : nat) (code : list Z) :
  self σ' = self σ →
  colors_to_check σ' = colors_to_check σ →
  take k (current_guess σ') = take k (current_guess σ) →
  placed gu σ k code → placed gu σ' k code.
Proof. unfold placed. by intros -> -> ->. Qed.

Lemma candidate_frame σ σ' (k : nat) (c : Z) :
  self σ' = self σ →
  colors_to_check σ' = colors_to_check σ →
  candidate gu σ k c → candidate gu σ' k c.
Proof. unfold candidate. by intros -> ->. Qed.

(** Placing a candidate at position [k] extends what is placed. *)
Lemma placed_next σ (k : nat) (code : list Z) (c : Z) cc cg :
  (k < length (current_guess σ))%nat →
  placed gu σ k code → candidate gu σ k c →
  cg = <[k:=Some (c + 1)]> (current_guess σ) →
  (if duplicates_allowed gu then cc = colors_to_check σ
   else cc = <[Z.to_nat c:=false]> (colors_to_check σ)) →
  placed gu (with_current_guess (with_colors_to_check σ cc) cg) (S k)
    (code ++ [c + 1]).
Proof.
  intros Hk (Hlen & Htake & Hvalid & Hdup) (Hc & Hcheck & Hm) -> Hcc.
  split_and!; simpl.
  - rewrite length_app. simpl. lia.
  - rewrite (take_S_r _ _ (Some (c + 1)))
      by (by apply list_lookup_insert_eq).
    rewrite take_insert_ge by lia. by rewrite Htake, fmap_app.
  - intros p c' [Hp|[Hge Hp]]%lookup_app_Some.
    + by apply Hvalid.
    + apply list_lookup_singleton_Some in Hp as [Hp <-].
      replace p with k by lia. split; [lia|].
      by replace (c + 1 - 1) with c by lia.
  - intros Hno. rewrite Hno in Hcc. subst cc.
    destruct (Hdup Hno) as [Hnodup Hfalse]. split.
    + apply NoDup_app. split_and!; [done| |apply NoDup_singleton].
      intros x Hx ->%list_elem_of_singleton. apply Hfalse in Hx.
      replace (c + 1 - 1) with c in Hx by lia. congruence.
    + assert (Z.to_nat c < length (colors_to_check σ))%nat
        by (by eapply lookup_lt_Some).
      intros x [Hx| ->%list_elem_of_singleton]%elem_of_app.
      * destruct (decide (Z.to_nat (x - 1) = Z.to_nat c)) as [->|].
        -- by apply list_lookup_insert_eq.
        -- rewrite list_lookup_insert_ne by done. auto.
      * replace (c + 1 - 1) with c by lia. by apply list_lookup_insert_eq.
Qed.

Lemma try_colors_sound (rec : frame RNG → result (bool * frame RNG))
    (k : nat) (colors : list Z) σ (found : bool) σ' :
  (∀ σ1 found1 σ1', search_pre gu σ1 (S k) → rec σ1 = Ok (found1, σ1') →
                    search_post gu σ1 (S k) found1 σ1') →
  (k < N)%nat →
  search_pre gu σ k →
  (∀ c, c ∈ colors → candidate gu σ k c) →
  try_colors gu rec (Z.of_nat k) colors σ = Ok (found, σ') →
  search_post gu σ k found σ'.
Proof.
  intros Hrec Hk. revert σ.
  induction colors as [|c colors IH]; intros σ Hpre Hcand; simpl.
  { intros [= <- <-]. by split_and!. }
  destruct Hpre as (Hlen & code & Hplaced).
  assert (candidate gu σ k c) as Hc by (apply Hcand; left).
  pose proof Hc as (Hcr & Hcheck & Hm).
  assert (∀ cc cg found1 σ1',
    (if duplicates_allowed gu then cc = colors_to_check σ
     else cc = <[Z.to_nat c:=false]> (colors_to_check σ)) →
    setitem (current_guess σ) (Z.of_nat k) (Some (c + 1)) = Ok cg →
    rec (with_current_guess (with_colors_to_check σ cc) cg)
      = Ok (found1, σ1') →
    self σ1' = self σ ∧
    length (current_guess σ1') = length (current_guess σ) ∧
    if found1 then ∃ code, placed gu σ1' N code
    else colors_to_check σ1' = cc
         ∧ take k (current_guess σ1') = take k (current_guess σ))
    as Hiter.
  { intros cc cg found1 σ1' Hcc [-> _]%setitem_nonneg Hrun; [|lia].
    rewrite Nat2Z.id in *.
    apply Hrec in Hrun as (Hself & Hlen1 & Hres).
    - simpl in *. rewrite length_insert in Hlen1.
      split_and!; [done..|]. destruct found1; [done|].
      destruct Hres as [? Htake]. split; [done|].
      apply (f_equal (take k)) in Htake.
      rewrite !take_take, Nat.min_l in Htake by lia.
      by rewrite take_insert_ge in Htake by lia.
    - split; simpl; [by rewrite length_insert|].
      exists (code ++ [c + 1]).
      apply placed_next; [unfold N in *; lia|done..]. }
  assert (∀ σ2, self σ2 = self σ →
    length (current_guess σ2) = length (current_guess σ) →
    colors_to_check σ2 = colors_to_check σ →
    take k (current_guess σ2) = take k (current_guess σ) →
    try_colors gu rec (Z.of_nat k) colors σ2 = Ok (found, σ') →
    search_post gu σ k found σ') as Hrest.
  { intros σ2 Hself Hlen2 Hcc2 Htake2 Hrun.
    apply IH in Hrun as (Hs & Hl & Hres).
    - unfold search_post. split_and!; [congruence..|].
      destruct found; [done|]. destruct Hres. split; congruence.
    - split; [congruence|]. exists code. by eapply placed_frame.
    - intros c' Hc'. eapply candidate_frame; [done..|].
      apply Hcand. by right. }
  destruct (duplicates_allowed gu) eqn:Hdup.
  - destruct (setitem _ (Z.of_nat k) _) as [cg|?] eqn:Hcg; simpl; try done.
    destruct (rec _) as [[found1 σ1]|?] eqn:Hrun; simpl; try done.
    replace (with_current_guess σ cg)
      with (with_current_guess (with_colors_to_check σ (colors_to_check σ)) cg)
      in Hrun by by destruct σ.
    destruct (Hiter _ _ _ _ eq_refl eq_refl Hrun) as (Hself & Hlen1 & Hres).
    destruct found1.
    + intros [= <- <-]. by split_and!.
    + destruct Hres. by apply Hrest.
  - destruct (setitem _ c false) as [cc|?] eqn:Hcc; simpl; try done.
    apply setitem_nonneg in Hcc as [-> Hclen]; [|lia].
    destruct (setitem _ (Z.of_nat k) _) as [cg|?] eqn:Hcg; simpl; try done.
    destruct (rec _) as [[found1 σ1]|?] eqn:Hrun; simpl; try done.
    destruct (Hiter _ _ _ _ eq_refl eq_refl Hrun) as (Hself & Hlen1 & Hres).
    destruct found1.
    + intros [= <- <-]. by split_and!.
    + destruct Hres as [Hcc1 Htake1].
      destruct (setitem _ c true) as [cc2|?] eqn:Hcc2; simpl; try done.
      apply setitem_nonneg in Hcc2 as [-> _]; [|lia].
      apply Hrest; simpl; try done.
      rewrite Hcc1, list_insert_insert_eq. by apply list_insert_id.
Qed.

Lemma _make_guess_sound (depth : nat) σ (k : nat) (found : bool) σ' :
  0 ≤ n_positions gu → (k ≤ N)%nat →
  search_pre gu σ k →
  _make_guess gu shuffle depth σ (Z.of_nat k) = Ok (found, σ') →
  search_post gu σ k found σ'.
Proof.
  intros HN. revert σ k found σ'.
  induction depth as [|depth IH]; intros σ k found σ' Hk Hpre; [done|]. simpl.
  case_decide as Heq.
  - intros [= <- <-]. destruct Hpre as (Hlen & code & Hplaced).
    unfold search_post. split_and!; [done..|]. exists code.
    by replace (Z.to_nat (n_positions gu)) with k by lia.
  - destruct (ordered_colors gu shuffle σ (Z.of_nat k)) as [[l σ1]|?] eqn:Hord;
      simpl; try done.
    pose proof (ordered_colors_candidates _ _ _ _ Hord) as Hcand.
    apply ordered_colors_self in Hord as (Hself & Hcg & Hcc).
    intros Hrun. apply try_colors_sound in Hrun.
    + destruct Hrun as (Hs & Hl & Hres).
      unfold search_post. split_and!; [congruence..|].
      destruct found; [done|]. destruct Hres. split; congruence.
    + intros σ2 found2 σ2' Hpre2.
      replace (Z.of_nat k + 1) with (Z.of_nat (S k)) by lia.
      apply IH; [unfold N in *; lia|done].
    + unfold N in *. lia.
    + destruct Hpre as (Hlen & code & Hplaced).
      split; [congruence|]. exists code.
      eapply placed_frame; [done..|by rewrite Hcg|done].
    + intros c Hc. eapply candidate_frame; [done..|]. auto.
Qed.
End SearchSound.

Section SearchResults.
Variable gu : MastermindGameUtils.
Variable RNG : Type.
Variable shuffle : RNG → list Z → list Z * RNG.
Implicit Types σ : frame RNG.

Lemma try_colors_not_found (rec : frame RNG → result (bool * frame RNG))
    (pos : Z) (colors : list Z) σ σ' (found : bool) :
  (∀ σ found σ', rec σ = Ok (found, σ') → found = false) →
  try_colors gu rec pos colors σ = Ok (found, σ') → found = false.
Proof.
  intros Hrec. revert σ.
  induction colors as [|color colors IH]; intros σ; simpl.
  { by intros [= <- <-]. }
  destruct (duplicates_allowed gu).
  - destruct (setitem _ pos _) as [cg|?]; simpl; try done.
    destruct (rec _) as [[[] σ1]|?] eqn:Hr; simpl; try done;
      apply Hrec in Hr; [done|]. apply IH.
  - destruct (setitem _ color _) as [cc|?]; simpl; try done.
    destruct (setitem _ pos _) as [cg|?]; simpl; try done.
    destruct (rec _) as [[[] σ1]|?] eqn:Hr; simpl; try done;
      apply Hrec in Hr; [done|].
    destruct (setitem _ color true) as [cc2|?]; simpl; try done. apply IH.
Qed.

(** Past the last position the search finds nothing. *)
Lemma _make_guess_beyond (depth : nat) σ σ' (pos : Z) (found : bool) :
  n_positions gu < pos →
  _make_guess gu shuffle depth σ pos = Ok (found, σ') → found = false.
Proof.
  revert σ σ' pos found.
  induction depth as [|depth IH]; intros σ σ' pos found Hpos; [done|]. simpl.
  rewrite decide_False by lia.
  destruct (ordered_colors gu shuffle σ pos) as [[l σ1]|?]; simpl; try done.
  apply try_colors_not_found. intros σ2 found2 σ2'. apply IH. lia.
Qed.
End SearchResults.

(** C1: a guess that [make_guess] returns (not [None]) is a complete code:
    it has [n_positions] colors, each between 1 and [n_colors], the color
    chosen at each position is set in the matrix at that position, and in a
    game without duplicates the colors are pairwise distinct.  This holds
    in every state of the breaker, for every shuffle that rearranges. *)
Theorem make_guess_sound (gu : MastermindGameUtils) (RNG : Type)
    (shuffle : RNG → list Z → list Z * RNG)
    (depth : nat) (self0 : ComputerCodeBreaker) (g : RNG)
    (guess : list (option Z)) (self' : ComputerCodeBreaker) (g' : RNG) :
  (∀ g l, (shuffle g l).1 ≡ₚ l) →
  make_guess gu shuffle depth self0 g = Ok (Some guess, self', g') →
  ∃ code : list Z,
    guess = Some <$> code ∧
    Z.of_nat (length code) = n_positions gu ∧
    (∀ (p : nat) (c : Z), code !! p = Some c →
       1 ≤ c ≤ n_colors gu ∧
       mat_get (_valid_guess self0) (Z.of_nat p) (c - 1) = Ok true) ∧
    (duplicates_allowed gu = false → NoDup code).
Proof.
  intros Hperm. unfold make_guess.
  destruct (_make_guess _ _ _ _ _) as [[found σ']|?] eqn:Hrun; simpl; try done.
  destruct found; [|done]. intros [= <- <- <-].
  destruct (decide (0 ≤ n_positions gu)) as [HN|HN].
  - apply (_make_guess_sound gu RNG shuffle Hperm depth _ 0%nat) in Hrun
      as (Hself & Hlen & code & Hcode & Htake & Hvalid & Hdup); [|done|lia|].
    + simpl in Hself, Hlen. rewrite length_replicate in Hlen.
      exists code. split_and!.
      * rewrite <- Htake. symmetry. apply take_ge. lia.
      * lia.
      * intros p c Hp. rewrite <- Hself. by apply Hvalid.
      * intros Hno. by apply Hdup.
    + split; simpl; [by rewrite length_replicate|].
      exists []. split_and!; try done.
      intros _. split; [apply NoDup_nil_2|]. intros c. by rewrite elem_of_nil.
  - apply _make_guess_beyond in Hrun; [done|lia].
Qed.

Lemma make_guess_sound_witness :
  (∀ g l, (id_shuffle g l).1 ≡ₚ l) ∧
  make_guess game_3_3_distinct id_shuffle 4 (init game_3_3_distinct) tt
  = Ok (Some [Some 1; Some 2; Some 3], init game_3_3_distinct, tt) ∧
  ∃ code : list Z,
    [Some 1; Some 2; Some 3] = Some <$> code ∧
    Z.of_nat (length code) = n_positions game_3_3_distinct ∧
    (∀ (p : nat) (c : Z), code !! p = Some c →
       1 ≤ c ≤ n_colors game_3_3_distinct ∧
       mat_get (_valid_guess (init game_3_3_distinct)) (Z.of_nat p) (c - 1)
       = Ok true) ∧
    (duplicates_allowed game_3_3_distinct = false → NoDup code).
Proof.
  split; [intros g l; reflexivity|]. split; [vm_compute; reflexivity|].
  apply (make_guess_sound game_3_3_distinct unit id_shuffle 4
           (init game_3_3_distinct) tt _ (init game_3_3_distinct) tt).
  - intros g l. reflexivity.
  - vm_compute. reflexivity.
Defined.

(** C8: [make_guess] leaves the breaker as it found it: the matrix, the
    unseen colors, the right colors and the flag are the same after the
    call as before it. *)
Theorem make_guess_frame (gu : MastermindGameUtils) (RNG : Type)
    (shuffle : RNG → list Z → list Z * RNG)
    (depth : nat) (self0 : ComputerCodeBreaker) (g : RNG)
    (guess : option (list (option Z))) (self' : ComputerCodeBreaker) (g' : RNG) :
  make_guess gu shuffle depth self0 g = Ok (guess, self', g') →
  _valid_guess self' = _valid_guess self0 ∧
  _unseen_colors self' = _unseen_colors self0 ∧
  _right_colors self' = _right_colors self0 ∧
  _right_colors_found self' = _right_colors_found self0.
Proof.
  unfold make_guess.
  destruct (_make_guess _ _ _ _ _) as [[found σ']|?] eqn:Hrun; simpl; try done.
  intros [= _ <- _]. apply _make_guess_self in Hrun. simpl in Hrun.
  by rewrite Hrun.
Qed.

Lemma make_guess_frame_witness :
  make_guess game_3_3 id_shuffle 4 (init game_3_3) tt
  = Ok (Some [Some 1; Some 2; Some 3], init game_3_3, tt) ∧
  _valid_guess (init game_3_3) = _valid_guess (init game_3_3) ∧
  _unseen_colors (init game_3_3) = _unseen_colors (init game_3_3) ∧
  _right_colors (init game_3_3) = _right_colors (init game_3_3) ∧
  _right_colors_found (init game_3_3) = _right_colors_found (init game_3_3).
Proof.
  split; [vm_compute; reflexivity|].
  apply (make_guess_frame game_3_3 unit id_shuffle 4 (init game_3_3) tt
           (Some [Some 1; Some 2; Some 3]) (init game_3_3) tt).
  vm_compute. reflexivity.
Defined.

(** ** Examples *)

Lemma all_white_reachable : reachable game_3_3_distinct all_white.
Proof.
  apply (reachable_feedback _ (init game_3_3_distinct) [1; 2; 3] "www").
  - apply reachable_init.
  - reflexivity.
  - reflexivity.
  - vm_compute. reflexivity.
Defined.

Lemma found_flag_stable_witness :
  reachable game_3_3_distinct all_white ∧
  _right_colors_found all_white = true ∧
  _unseen_colors all_white = ∅ ∧
  ∀ guess feedback,
    validate_code game_3_3_distinct guess = true →
    validate_feedback game_3_3_distinct feedback = true →
    ∃ self', receive_feedback game_3_3_distinct all_white guess feedback
             = Ok self'
             ∧ _right_colors_found self' = true
             ∧ _unseen_colors self' = ∅.
Proof.
  split; [apply all_white_reachable|]. split; [reflexivity|].
  apply (found_flag_stable game_3_3_distinct all_white).
  - apply all_white_reachable.
  - reflexivity.
Defined.

(** The claim C2 fails as it stands: in the reachable state [all_white] the
    entry of position 0 and color 1 is not set; the validated guess [1,2,3]
    with the validated feedback ["bbb"] sets it. *)
Lemma receive_feedback_black_sets_entry :
  reachable game_3_3_distinct all_white ∧
  validate_code game_3_3_distinct [1; 2; 3] = true ∧
  validate_feedback game_3_3_distinct "bbb" = true ∧
  ∃ self', receive_feedback game_3_3_distinct all_white [1; 2; 3] "bbb"
           = Ok self'
           ∧ mat_get (_valid_guess self') 0 0 = Ok true
           ∧ mat_get (_valid_guess all_white) 0 0 = Ok false.
Proof.
  split; [apply all_white_reachable|]. split; [reflexivity|].
  split; [reflexivity|]. eexists. split; [vm_compute; reflexivity|].
  split; reflexivity.
Qed.

Lemma receive_feedback_shrinks_witness :
  well_formed game_3_3_distinct all_white ∧
  Z.of_nat (length [2; 2; 1]) = n_positions game_3_3_distinct ∧
  Forall (λ color, 1 ≤ color ≤ n_colors game_3_3_distinct) [2; 2; 1] ∧
  validate_feedback game_3_3_distinct "b.w" = true ∧
  (∀ (p : nat) (color : Z),
     list_ascii_of_string "b.w" !! p = Some "b"%char →
     [2; 2; 1] !! p = Some color →
     mat_get (_valid_guess all_white) (Z.of_nat p) (color - 1) = Ok true) ∧
  ∃ self', receive_feedback game_3_3_distinct all_white [2; 2; 1] "b.w"
           = Ok self' ∧
    ∀ p c, 0 ≤ p < n_positions game_3_3_distinct →
      0 ≤ c < n_colors game_3_3_distinct →
      mat_get (_valid_guess self') p c = Ok true →
      mat_get (_valid_guess all_white) p c = Ok true.
Proof.
  assert (Hwf : well_formed game_3_3_distinct all_white)
    by (apply reachable_well_formed, all_white_reachable).
  assert (Hcol : Forall (λ color, 1 ≤ color ≤ n_colors game_3_3_distinct)
                   [2; 2; 1])
    by (repeat constructor; simpl; lia).
  assert (Hblack : ∀ (p : nat) (color : Z),
     list_ascii_of_string "b.w" !! p = Some "b"%char →
     [2; 2; 1] !! p = Some color →
     mat_get (_valid_guess all_white) (Z.of_nat p) (color - 1) = Ok true).
  { intros [|[|[|p]]] color; simpl; intros [=] [=]; subst; reflexivity. }
  split; [exact Hwf|]. split; [reflexivity|]. split; [exact Hcol|].
  split; [reflexivity|]. split; [exact Hblack|].
  apply (receive_feedback_shrinks game_3_3_distinct all_white [2; 2; 1] "b.w").
  - exact Hwf.
  - reflexivity.
  - exact Hcol.
  - reflexivity.
  - exact Hblack.
Defined.

Lemma black_peg_pins_color_witness :
  duplicates_allowed game_3_3_distinct = false ∧
  well_formed game_3_3_distinct (init game_3_3_distinct) ∧
  validate_code game_3_3_distinct [2; 1; 3] = true ∧
  validate_feedback game_3_3_distinct "bw." = true ∧
  list_ascii_of_string "bw." !! 0%nat = Some "b"%char ∧
  [2; 1; 3] !! 0%nat = Some 2 ∧
  ∃ self', receive_feedback game_3_3_distinct (init game_3_3_distinct)
             [2; 1; 3] "bw." = Ok self' ∧
    (∀ c', 0 ≤ c' < n_colors game_3_3_distinct →
       mat_get (_valid_guess self') (Z.of_nat 0) c'
       = Ok (bool_decide (c' = 2 - 1))) ∧
    (∀ p', 0 ≤ p' < n_positions game_3_3_distinct → p' ≠ Z.of_nat 0 →
       mat_get (_valid_guess self') p' (2 - 1) = Ok false) ∧
    2 - 1 ∈ _right_colors self'.
Proof.
  split; [reflexivity|]. split; [apply init_well_formed|].
  split; [reflexivity|]. split; [reflexivity|].
  split; [reflexivity|]. split; [reflexivity|].
  apply (black_peg_pins_color game_3_3_distinct (init game_3_3_distinct)
           [2; 1; 3] "bw." 0%nat 2); try reflexivity.
  apply init_well_formed.
Defined.

Lemma secret_stays_feasible_witness :
  validate_code game_3_3 [1; 2; 2] = true ∧
  Forall (λ guess, validate_code game_3_3 guess = true)
    [[1; 2; 3]; [3; 1; 2]] ∧
  ∃ self, play game_3_3 [1; 2; 2] [[1; 2; 3]; [3; 1; 2]] (init game_3_3)
          = Ok self
          ∧ feasible [1; 2; 2] self.
Proof.
  assert (Hguesses : Forall (λ guess, validate_code game_3_3 guess = true)
                       [[1; 2; 3]; [3; 1; 2]])
    by (repeat constructor).
  split; [reflexivity|]. split; [exact Hguesses|].
  apply (secret_stays_feasible game_3_3 [1; 2; 2] [[1; 2; 3]; [3; 1; 2]]).
  - reflexivity.
  - exact Hguesses.
Defined.

(** ** The order in which the colors are tried *)

Lemma insert_by_key_head {A : Type} (key : A → Z) (x : A) (l : list A) :
  (∀ y, y ∈ l → key x ≤ key y) → insert_by_key key x l = x :: l.
Proof.
  destruct l as [|y l]; simpl; [done|]. intros Hle.
  rewrite decide_True; [done|]. apply Hle. left.
Qed.

Lemma insert_by_key_app {A : Type} (key : A → Z) (x : A) (l1 l2 : list A) :
  (∀ y, y ∈ l1 → key y < key x) →
  insert_by_key key x (l1 ++ l2) = l1 ++ insert_by_key key x l2.
Proof.
  induction l1 as [|y l1 IH]; simpl; [done|]. intros Hlt.
  rewrite decide_False by (specialize (Hlt y ltac:(left)); lia).
  rewrite IH; [done|]. intros z Hz. apply Hlt. by right.
Qed.

(** A stable sort on keys 0, 1 and 2 puts the elements of key 0 first, then
    those of key 1, then those of key 2, each group in the order it had. *)
Lemma sort_by_key_three {A : Type} (key : A → Z) (l : list A) :
  (∀ x, x ∈ l → key x = 0 ∨ key x = 1 ∨ key x = 2) →
  sort_by_key key l
  = filter (λ x, key x = 0) l ++ filter (λ x, key x = 1) l
    ++ filter (λ x, key x = 2) l.
Proof.
  induction l as [|x l IH]; intros Hkeys; [done|]. simpl.
  rewrite IH by (intros y Hy; apply Hkeys; by right).
  rewrite !filter_cons.
  assert (∀ k y, y ∈ filter (λ x, key x = k) l → key y = k) as Hf
    by (by intros k y [? _]%list_elem_of_filter).
  destruct (Hkeys x ltac:(left)) as [Hx|[Hx|Hx]];
    repeat case_decide; try lia.
  - apply insert_by_key_head.
    intros y [Hy|[Hy|Hy]%elem_of_app]%elem_of_app; apply Hf in Hy; lia.
  - rewrite insert_by_key_app by (intros y Hy%Hf; lia). f_equal.
    apply insert_by_key_head.
    intros y [Hy|Hy]%elem_of_app; apply Hf in Hy; lia.
  - rewrite app_assoc.
    rewrite insert_by_key_app
      by (intros y [Hy|Hy]%elem_of_app; apply Hf in Hy; lia).
    rewrite <- app_assoc. do 2 f_equal.
    apply insert_by_key_head. intros y Hy%Hf. lia.
Qed.

Lemma priority_values {RNG : Type} (σ : frame RNG) (color : Z) :
  priority σ color = 0 ∨ priority σ color = 1 ∨ priority σ color = 2.
Proof. unfold priority. repeat case_decide; auto. Qed.

(** What the code does: the colors are tried by ascending key, where the
    key of an unseen color is 2 as soon as the color occurs anywhere in
    [current_guess]; among equal keys the shuffled order is kept. *)
Lemma ordered_colors_order (gu : MastermindGameUtils) (RNG : Type)
    (shuffle : RNG → list Z → list Z * RNG) (σ σ' : frame RNG)
    (current_position : Z) (colors : list Z) :
  ordered_colors gu shuffle σ current_position = Ok (colors, σ') →
  ∃ valid_colors,
    viable_colors gu σ current_position = Ok valid_colors ∧
    let shuffled := (shuffle (rng σ) valid_colors).1 in
    colors = filter (λ c, priority σ c = 0) shuffled
             ++ filter (λ c, priority σ c = 1) shuffled
             ++ filter (λ c, priority σ c = 2) shuffled.
Proof.
  unfold ordered_colors.
  destruct (viable_colors gu σ current_position) as [l|?]; simpl; try done.
  destruct (shuffle (rng σ) l) as [l1 g] eqn:Hsh. intros [= <- <-].
  exists l. split; [done|]. rewrite Hsh. simpl.
  apply (sort_by_key_three (priority (with_rng σ g))).
  intros c _. apply priority_values.
Qed.

(** Where no branch was given up yet, so that [current_guess] holds nothing
    from the current position on, the key is the one of the specification. *)
Lemma priority_fresh {RNG : Type} (σ : frame RNG) (k : nat) (color : Z) :
  (∀ x, x ∈ drop k (current_guess σ) → x = None) →
  priority σ color = spec_priority σ (Z.of_nat k) color.
Proof.
  intros Hfresh. unfold priority, spec_priority. rewrite Nat2Z.id.
  case_decide; [|done].
  destruct (decide (Some (color + 1) ∈ current_guess σ)) as [Hin|Hout];
    destruct (decide (Some (color + 1) ∈ take k (current_guess σ)))
      as [Hin'|Hout']; try done.
  - rewrite <- (take_drop k (current_guess σ)) in Hin.
    apply elem_of_app in Hin as [?|Hin]; [done|]. by apply Hfresh in Hin.
  - exfalso. apply Hout. rewrite <- (take_drop k (current_guess σ)).
    apply elem_of_app. by left.
Qed.

(** The state [stale_state] comes up in a game of the computer breaker
    whose shuffle leaves the lists as they are: its first guess is
    [1,2,3]; answered ["..b"], its second guess is [4,5,3]; that one is
    answered ["..w"]. *)
Lemma stale_state_in_game :
  make_guess game_6_3 id_shuffle 4 (init game_6_3) tt
  = Ok (Some [Some 1; Some 2; Some 3], init game_6_3, tt) ∧
  ∃ self1,
    receive_feedback game_6_3 (init game_6_3) [1; 2; 3] "..b" = Ok self1 ∧
    make_guess game_6_3 id_shuffle 4 self1 tt
    = Ok (Some [Some 4; Some 5; Some 3], self1, tt) ∧
    receive_feedback game_6_3 self1 [4; 5; 3] "..w" = Ok stale_state.
Proof.
  split; [vm_compute; reflexivity|].
  eexists. split; [vm_compute; reflexivity|].
  split; vm_compute; reflexivity.
Qed.

Lemma stale_state_reachable : reachable game_6_3 stale_state.
Proof.
  destruct stale_state_in_game as (_ & self1 & H1 & _ & H2).
  apply (reachable_feedback _ self1 [4; 5; 3] "..w"); try done.
  by apply (reachable_feedback _ (init game_6_3) [1; 2; 3] "..b");
    [apply reachable_init|..].
Qed.

(** In [stale_state] the search first places color 6 at position 0, finds
    nothing and leaves color 6 at position 1; its next round places color 3
    at position 0 and calls [_make_guess] on [stale_frame]. *)
Lemma stale_frame_in_search :
  let σ0 : frame unit :=
    {| self := stale_state; rng := tt;
       current_guess := [None; None; None];
       colors_to_check := [false; false; true; false; false; true] |} in
  let rec := λ σ, _make_guess game_6_3 id_shuffle 3 σ (0 + 1) in
  make_guess game_6_3 id_shuffle 4 stale_state tt
  = ('(found, σ) ← _make_guess game_6_3 id_shuffle 4 σ0 0;
     Ok (if found : bool then Some (current_guess σ) else None, self σ, rng σ)) ∧
  _make_guess game_6_3 id_shuffle 4 σ0 0
  = try_colors game_6_3 rec 0 [5; 2] σ0 ∧
  rec (with_current_guess σ0 [Some 6; None; None])
  = Ok (false, with_current_guess σ0 [Some 6; Some 6; None]) ∧
  try_colors game_6_3 rec 0 [5; 2] σ0
  = ('(found, σ) ← rec stale_frame;
     if found : bool then Ok (true, σ)
     else try_colors game_6_3 rec 0 [] σ).
Proof.
  intros σ0 rec. split_and!.
  - vm_compute. reflexivity.
  - reflexivity.
  - vm_compute. reflexivity.
  - vm_compute. reflexivity.
Qed.

(** C7 (the code at the input where it departs from the claim): in the
    call of [_make_guess] on [stale_frame] at position 1 the candidates are
    the colors of index 2 and 5.  Index 5 is unseen and is not placed at the
    earlier position, so the claim gives it priority 0 and has it tried
    first; the code finds it in [current_guess] at position 1, where an
    abandoned branch left it, gives it key 2 and tries it last. *)
Theorem stale_entry_changes_order :
  ordered_colors game_6_3 id_shuffle stale_frame 1 = Ok ([2; 5], stale_frame) ∧
  (5 ∈ _unseen_colors (self stale_frame)) ∧
  (Some (5 + 1) ∉ take 1 (current_guess stale_frame)) ∧
  priority stale_frame 5 = 2 ∧
  spec_priority stale_frame 1 5 = 0 ∧
  sort_by_key (spec_priority stale_frame 1) [2; 5] = [5; 2].
Proof.
  split_and!.
  - vm_compute. reflexivity.
  - by vm_compute.
  - simpl. by intros [=]%list_elem_of_singleton.
  - reflexivity.
  - reflexivity.
  - reflexivity.
Qed.

(** * Further properties of the program *)

(** ** The automated feedback and the end of the game *)

Lemma forallb_fmap_zip_eq (full code guess : list Z) :
  length guess = length code →
  forallb (λ peg, bool_decide (peg = "b"%char))
    ((λ '(g, a), peg_of full g a) <$> zip guess code) = true
  ↔ guess = code.
Proof.
  revert code. induction guess as [|g guess IH]; intros [|a code] Hlen;
    simpl in *; try done.
  rewrite andb_true_iff, IH by lia. rewrite bool_decide_eq_true.
  unfold peg_of. split.
  - intros [Hpeg ->]. repeat case_decide; by simplify_eq.
  - intros [= -> ->]. by rewrite decide_True.
Qed.

(** X1: the feedback that [_auto_feedback] gives a guess of the length of
    the code passes [_is_guess_correct] exactly when the guess is the
    code. *)
Theorem auto_feedback_correct_iff (code guess : list Z) :
  length guess = length code →
  _is_guess_correct (Some (_auto_feedback code guess)) = true ↔ guess = code.
Proof.
  intros Hlen. unfold _is_guess_correct.
  rewrite auto_feedback_pegs_list. by apply forallb_fmap_zip_eq.
Qed.

Lemma auto_feedback_correct_iff_witness :
  length [2; 1; 3] = length [2; 1; 3] ∧
  (_is_guess_correct (Some (_auto_feedback [2; 1; 3] [2; 1; 3])) = true
   ↔ [2; 1; 3] = [2; 1; 3]).
Proof.
  split; [reflexivity|].
  apply (auto_feedback_correct_iff [2; 1; 3] [2; 1; 3]). reflexivity.
Defined.

Lemma auto_feedback_valid_feedback (gu : MastermindGameUtils)
    (code guess : list Z) :
  Z.of_nat (length code) = n_positions gu →
  Z.of_nat (length guess) = n_positions gu →
  validate_feedback gu (_auto_feedback code guess) = true.
Proof.
  intros Hcode Hguess. unfold validate_feedback.
  apply andb_true_iff. split.
  - apply bool_decide_eq_true.
    rewrite <- length_list_ascii_of_string, auto_feedback_pegs_list.
    rewrite length_fmap, length_zip_with. lia.
  - rewrite auto_feedback_pegs_list. apply forallb_forall.
    intros peg Hin%list_elem_of_In.
    apply list_elem_of_fmap in Hin as ([g a] & -> & _).
    apply bool_decide_eq_true. unfold peg_of. simpl.
    repeat case_decide; set_solver.
Qed.

(** X2: for a code and a guess that both have [n_positions] colors, the
    feedback of [_auto_feedback] is one that [validate_feedback] accepts. *)
Theorem auto_feedback_validates (gu : MastermindGameUtils)
    (code guess : list Z) :
  Z.of_nat (length code) = n_positions gu →
  Z.of_nat (length guess) = n_positions gu →
  validate_feedback gu (_auto_feedback code guess) = true.
Proof. apply auto_feedback_valid_feedback. Qed.

Lemma auto_feedback_validates_witness :
  Z.of_nat (length [1; 2; 2]) = n_positions game_3_3 ∧
  Z.of_nat (length [3; 2; 1]) = n_positions game_3_3 ∧
  validate_feedback game_3_3 (_auto_feedback [1; 2; 2] [3; 2; 1]) = true.
Proof.
  split; [reflexivity|]. split; [reflexivity|].
  apply (auto_feedback_validates game_3_3 [1; 2; 2] [3; 2; 1]); reflexivity.
Defined.

(** ** More on what a call of [receive_feedback] does *)

Lemma cell_after_other_row (dups : bool) (peg : ascii) (p c : nat)
    (old : bool) (i j : nat) :
  i ≠ p → cell_after dups peg p c old i j = true → old = true.
Proof.
  intros Hne. unfold cell_after.
  destruct (decide (peg = "b"%char)); [|destruct (decide (peg = "w"%char))].
  - rewrite decide_False by done. destruct dups; [done|].
    by intros [_ ?]%andb_true_iff.
  - by destruct (decide (i = p ∧ j = c)).
  - by intros [_ ?]%andb_true_iff.
Qed.

Lemma cell_after_not_black (dups : bool) (peg : ascii) (p c : nat)
    (old : bool) :
  peg ≠ "b"%char → cell_after dups peg p c old p c = false.
Proof.
  intros Hnb. unfold cell_after. rewrite decide_False by done.
  destruct (decide (peg = "w"%char)).
  - by destruct (decide (p = p ∧ c = c)) as [|[]].
  - by rewrite bool_decide_eq_true_2.
Qed.

Lemma cell_after_miss (dups : bool) (peg : ascii) (p c : nat)
    (old : bool) (i : nat) :
  peg ≠ "b"%char → peg ≠ "w"%char → cell_after dups peg p c old i c = false.
Proof.
  intros Hnb Hnw. unfold cell_after. rewrite !decide_False by done.
  by rewrite bool_decide_eq_true_2.
Qed.

Lemma cell_after_set (dups : bool) (peg : ascii) (p c : nat)
    (old : bool) (i j : nat) :
  cell_after dups peg p c old i j = true →
  old = true ∨ (peg = "b"%char ∧ i = p ∧ j = c).
Proof.
  unfold cell_after.
  destruct (decide (peg = "b"%char)); [|destruct (decide (peg = "w"%char))].
  - destruct (decide (i = p)).
    + intros ?%bool_decide_eq_true. auto.
    + destruct dups; [auto|]. intros [_ ?]%andb_true_iff. auto.
  - destruct (decide (i = p ∧ j = c)); [done|auto].
  - intros [_ ?]%andb_true_iff. auto.
Qed.

Section FeedbackPegs.
Variable gu : MastermindGameUtils.

(** X3: a peg other than ['b'] at position [p] leaves the color guessed
    there unset at [p]; a white peg also puts the color among the right
    colors. *)
Theorem other_peg_unsets_entry self guess feedback (p : nat) (peg : ascii)
    (color : Z) :
  well_formed gu self → validate_code gu guess = true →
  list_ascii_of_string feedback !! p = Some peg → peg ≠ "b"%char →
  guess !! p = Some color →
  ∃ self', receive_feedback gu self guess feedback = Ok self' ∧
    mat_get (_valid_guess self') (Z.of_nat p) (color - 1) = Ok false ∧
    (peg = "w"%char → color - 1 ∈ _right_colors self').
Proof.
  intros Hwf Hcode Hpeg Hnb Hcolor.
  pose proof Hcode as (Hlen & _ & Hcol)%validate_code_spec.
  assert (1 ≤ color ≤ n_colors gu) as Hrange.
  { rewrite Forall_forall in Hcol. apply Hcol.
    by eapply list_elem_of_lookup_2. }
  set (c := Z.to_nat (color - 1)).
  assert (color = Z.of_nat c + 1) as Hc by (unfold c; lia).
  destruct (receive_feedback_loop gu
    (λ k s, (p < k)%nat →
       valid_at (_valid_guess s) p c = false ∧
       (peg = "w"%char → Z.of_nat c ∈ _right_colors s))
    self guess feedback) as (s' & Hs' & Hwf' & Hinv); [done|done|lia| |].
  - intros k c1 peg1 s s1 Hpeg1 Hcolor1 _ _ IH (_ & _ & Hr1 & _ & Hcell) Hk.
    rewrite Hcell, Hr1.
    destruct (decide (k = p)) as [->|Hne].
    + rewrite Hpeg in Hpeg1. injection Hpeg1 as <-.
      assert (c1 = c) as ->
        by (rewrite Hcolor in Hcolor1; injection Hcolor1; lia).
      split.
      * by apply cell_after_not_black.
      * intros ->. rewrite decide_True by auto. set_solver.
    + destruct IH as [Hfalse Hright]; [lia|]. split.
      * apply not_true_is_false. intros Hset.
        apply cell_after_other_row in Hset; [congruence|done].
      * intros Hw. specialize (Hright Hw). case_decide; set_solver.
  - rewrite receive_feedback_unfold, Hs'. simpl.
    eexists; split; [done|].
    rewrite update_found_valid_guess, update_found_right_colors.
    assert (p < length (list_ascii_of_string feedback) `min` length guess)%nat
      as Hp by (apply lookup_lt_Some in Hpeg, Hcolor; lia).
    destruct (Hinv Hp) as [Hfalse Hright]. split.
    + rewrite (mat_get_Z gu s');
        [|done|apply lookup_lt_Some in Hcolor; lia|lia].
      rewrite Nat2Z.id. fold c. by rewrite Hfalse.
    + replace (color - 1) with (Z.of_nat c) by lia. done.
Qed.

(** X4: a peg that is neither ['b'] nor ['w'] for a color unsets that color
    at every position, but for the positions further on where the same
    color gets a black peg. *)
Theorem miss_peg_unsets_color self guess feedback (p : nat) (peg : ascii)
    (color : Z) :
  well_formed gu self → validate_code gu guess = true →
  list_ascii_of_string feedback !! p = Some peg →
  peg ≠ "b"%char → peg ≠ "w"%char →
  guess !! p = Some color →
  ∃ self', receive_feedback gu self guess feedback = Ok self' ∧
    ∀ p' : nat, Z.of_nat p' < n_positions gu →
      mat_get (_valid_guess self') (Z.of_nat p') (color - 1) = Ok true →
      (p < p')%nat ∧
      list_ascii_of_string feedback !! p' = Some "b"%char ∧
      guess !! p' = Some color.
Proof.
  intros Hwf Hcode Hpeg Hnb Hnw Hcolor.
  pose proof Hcode as (Hlen & _ & Hcol)%validate_code_spec.
  assert (1 ≤ color ≤ n_colors gu) as Hrange.
  { rewrite Forall_forall in Hcol. apply Hcol.
    by eapply list_elem_of_lookup_2. }
  set (c := Z.to_nat (color - 1)).
  assert (color = Z.of_nat c + 1) as Hc by (unfold c; lia).
  destruct (receive_feedback_loop gu
    (λ k s, (p < k)%nat →
       ∀ i, valid_at (_valid_guess s) i c = true →
         (p < i)%nat ∧
         list_ascii_of_string feedback !! i = Some "b"%char ∧
         guess !! i = Some color)
    self guess feedback) as (s' & Hs' & Hwf' & Hinv); [done|done|lia| |].
  - intros k c1 peg1 s s1 Hpeg1 Hcolor1 _ _ IH (_ & _ & _ & _ & Hcell) Hk i.
    rewrite Hcell.
    destruct (decide (k = p)) as [->|Hne].
    + rewrite Hpeg in Hpeg1. injection Hpeg1 as <-.
      assert (c1 = c) as ->
        by (rewrite Hcolor in Hcolor1; injection Hcolor1; lia).
      by rewrite cell_after_miss.
    + intros [Hold|(-> & -> & <-)]%cell_after_set.
      * apply IH; [lia|done].
      * split_and!; [lia|done|by rewrite Hcolor1, Hc].
  - rewrite receive_feedback_unfold, Hs'. simpl.
    eexists; split; [done|]. rewrite update_found_valid_guess.
    assert (p < length (list_ascii_of_string feedback) `min` length guess)%nat
      as Hp by (apply lookup_lt_Some in Hpeg, Hcolor; lia).
    intros p' Hp'. rewrite (mat_get_Z gu s') by (done || lia).
    rewrite Nat2Z.id. fold c. intros [= Hset]. by apply (Hinv Hp).
Qed.

End FeedbackPegs.

Lemma other_peg_unsets_entry_witness :
  well_formed game_3_3 (init game_3_3) ∧
  validate_code game_3_3 [2; 1; 3] = true ∧
  list_ascii_of_string "bw." !! 1%nat = Some "w"%char ∧
  "w"%char ≠ "b"%char ∧
  [2; 1; 3] !! 1%nat = Some 1 ∧
  ∃ self', receive_feedback game_3_3 (init game_3_3) [2; 1; 3] "bw."
           = Ok self' ∧
    mat_get (_valid_guess self') (Z.of_nat 1) (1 - 1) = Ok false ∧
    ("w"%char = "w"%char → 1 - 1 ∈ _right_colors self').
Proof.
  split; [apply init_well_formed|]. split; [reflexivity|].
  split; [reflexivity|]. split; [discriminate|]. split; [reflexivity|].
  apply (other_peg_unsets_entry game_3_3 (init game_3_3) [2; 1; 3] "bw."
           1%nat "w"%char 1); try reflexivity.
  - apply init_well_formed.
  - discriminate.
Defined.

Lemma miss_peg_unsets_color_witness :
  well_formed game_3_3 (init game_3_3) ∧
  validate_code game_3_3 [2; 1; 3] = true ∧
  list_ascii_of_string "bw." !! 2%nat = Some "."%char ∧
  "."%char ≠ "b"%char ∧ "."%char ≠ "w"%char ∧
  [2; 1; 3] !! 2%nat = Some 3 ∧
  ∃ self', receive_feedback game_3_3 (init game_3_3) [2; 1; 3] "bw."
           = Ok self' ∧
    ∀ p' : nat, Z.of_nat p' < n_positions game_3_3 →
      mat_get (_valid_guess self') (Z.of_nat p') (3 - 1) = Ok true →
      (2 < p')%nat ∧
      list_ascii_of_string "bw." !! p' = Some "b"%char ∧
      [2; 1; 3] !! p' = Some 3.
Proof.
  split; [apply init_well_formed|]. split; [reflexivity|].
  split; [reflexivity|]. split; [discriminate|]. split; [discriminate|].
  split; [reflexivity|].
  apply (miss_peg_unsets_color game_3_3 (init game_3_3) [2; 1; 3] "bw."
           2%nat "."%char 3); try reflexivity; try discriminate.
  apply init_well_formed.
Defined.

Lemma update_found_unseen_subseteq (gu : MastermindGameUtils)
    (self : ComputerCodeBreaker) :
  _unseen_colors (update_found gu self) ⊆ _unseen_colors self.
Proof. unfold update_found. repeat case_match; simpl; set_solver. Qed.

(** X5: a call of [receive_feedback] takes every guessed color out of the
    unseen colors, whatever its peg, and adds none; it keeps the right
    colors it had and adds only guessed colors. *)
Theorem receive_feedback_colors (gu : MastermindGameUtils)
    (self : ComputerCodeBreaker) (guess : list Z) (feedback : string) :
  well_formed gu self →
  validate_code gu guess = true → validate_feedback gu feedback = true →
  ∃ self', receive_feedback gu self guess feedback = Ok self' ∧
    _unseen_colors self' ⊆ _unseen_colors self ∧
    (∀ color, color ∈ guess → color - 1 ∉ _unseen_colors self') ∧
    _right_colors self ⊆ _right_colors self' ∧
    (∀ c, c ∈ _right_colors self' → c ∈ _right_colors self ∨ c + 1 ∈ guess).
Proof.
  intros Hwf Hcode Hfb.
  pose proof Hcode as (Hlen & _ & _)%validate_code_spec.
  apply validate_feedback_length in Hfb.
  destruct (receive_feedback_loop gu
    (λ k s,
       _unseen_colors s ⊆ _unseen_colors self ∧
       (∀ (i : nat) color, (i < k)%nat → guess !! i = Some color →
          color - 1 ∉ _unseen_colors s) ∧
       _right_colors self ⊆ _right_colors s ∧
       (∀ c, c ∈ _right_colors s → c ∈ _right_colors self ∨ c + 1 ∈ guess))
    self guess feedback) as (s' & Hs' & Hwf' & Hinv); [done|done| | |].
  - split_and!; [done| |done|auto]. intros i color Hi. lia.
  - intros k c peg s s1 Hpeg Hcolor _ _ (Hu & Hseen & Hr & Hnew)
      (_ & Hu1 & Hr1 & _ & _).
    rewrite Hu1, Hr1. split_and!.
    + set_solver.
    + intros i color Hi Hcol.
      destruct (decide (i = k)) as [->|Hne].
      * rewrite Hcolor in Hcol. injection Hcol as <-. set_solver by lia.
      * assert (color - 1 ∉ _unseen_colors s) by (apply (Hseen i); [lia|done]).
        set_solver.
    + case_decide; set_solver.
    + intros c'. case_decide; [|auto].
      intros [?| ->%elem_of_singleton]%elem_of_union; [auto|].
      right. by eapply list_elem_of_lookup_2.
  - destruct Hinv as (Hu & Hseen & Hr & Hnew).
    rewrite receive_feedback_unfold, Hs'. simpl.
    eexists; split; [done|]. rewrite update_found_right_colors.
    pose proof (update_found_unseen_subseteq gu s') as Hsub.
    split_and!; [set_solver| |done|done].
    intros color [i Hi]%list_elem_of_lookup Hin.
    apply (Hseen i color); [|done|set_solver].
    apply lookup_lt_Some in Hi. lia.
Qed.

Lemma receive_feedback_colors_witness :
  well_formed game_3_3 (init game_3_3) ∧
  validate_code game_3_3 [2; 1; 1] = true ∧
  validate_feedback game_3_3 "bw." = true ∧
  ∃ self', receive_feedback game_3_3 (init game_3_3) [2; 1; 1] "bw."
           = Ok self' ∧
    _unseen_colors self' ⊆ _unseen_colors (init game_3_3) ∧
    (∀ color, color ∈ [2; 1; 1] → color - 1 ∉ _unseen_colors self') ∧
    _right_colors (init game_3_3) ⊆ _right_colors self' ∧
    (∀ c, c ∈ _right_colors self' →
       c ∈ _right_colors (init game_3_3) ∨ c + 1 ∈ [2; 1; 1]).
Proof.
  split; [apply init_well_formed|]. split; [reflexivity|].
  split; [reflexivity|].
  apply (receive_feedback_colors game_3_3 (init game_3_3) [2; 1; 1] "bw.");
    try reflexivity.
  apply init_well_formed.
Defined.


(** ** What [make_guess] returns, for use in the game *)

Lemma make_guess_same_self (gu : MastermindGameUtils) (RNG : Type)
    (shuffle : RNG → list Z → list Z * RNG) (depth : nat)
    (self0 : ComputerCodeBreaker) (g : RNG)
    (guess : option (list (option Z))) (self1 : ComputerCodeBreaker) (g' : RNG) :
  make_guess gu shuffle depth self0 g = Ok (guess, self1, g') → self1 = self0.
Proof.
  unfold make_guess.
  destruct (_make_guess _ _ _ _ _) as [[found σ']|?] eqn:Hrun; simpl; try done.
  intros [= _ <- _]. by apply _make_guess_self in Hrun.
Qed.

Lemma make_guess_code (gu : MastermindGameUtils) (RNG : Type)
    (shuffle : RNG → list Z → list Z * RNG) (depth : nat)
    (self0 : ComputerCodeBreaker) (g : RNG)
    (guess : list (option Z)) (self1 : ComputerCodeBreaker) (g' : RNG) :
  (∀ g l, (shuffle g l).1 ≡ₚ l) →
  make_guess gu shuffle depth self0 g = Ok (Some guess, self1, g') →
  ∃ code : list Z,
    guess = Some <$> code ∧
    validate_code gu code = true ∧
    ∀ (p : nat) (c : Z), code !! p = Some c →
      mat_get (_valid_guess self0) (Z.of_nat p) (c - 1) = Ok true.
Proof.
  intros Hperm. unfold make_guess.
  destruct (_make_guess _ _ _ _ _) as [[found σ']|?] eqn:Hrun; simpl; try done.
  destruct found; [|done]. intros [= <- <- <-].
  destruct (decide (0 ≤ n_positions gu)) as [HN|HN];
    [|apply _make_guess_beyond in Hrun; [done|lia]].
  apply (_make_guess_sound gu RNG shuffle Hperm depth _ 0%nat) in Hrun
    as (Hself & Hlen & code & Hcode & Htake & Hvalid & Hdup); [|done|lia|].
  - simpl in Hself, Hlen. rewrite length_replicate in Hlen.
    exists code. split_and!.
    + rewrite <- Htake. symmetry. apply take_ge. lia.
    + apply validate_code_spec. split_and!; [lia| |].
      * destruct (duplicates_allowed gu); [auto|]. right. by apply Hdup.
      * apply Forall_forall. intros c [p Hp]%list_elem_of_lookup.
        by apply Hvalid in Hp as [? _].
    + intros p c Hp. rewrite <- Hself. by apply Hvalid.
  - split; simpl; [by rewrite length_replicate|].
    exists []. split_and!; try done.
    intros _. split; [apply NoDup_nil_2|]. intros c. by rewrite elem_of_nil.
Qed.

(** X6: in the game, where the guess is one that [make_guess] returned in
    the state that then receives the feedback, [receive_feedback] only
    unsets entries of the matrix, whatever the validated feedback is. *)
Theorem game_turn_shrinks (gu : MastermindGameUtils) (RNG : Type)
    (shuffle : RNG → list Z → list Z * RNG) (depth : nat)
    (self0 : ComputerCodeBreaker) (g : RNG)
    (guess : list (option Z)) (self1 : ComputerCodeBreaker) (g' : RNG)
    (feedback : string) :
  (∀ g l, (shuffle g l).1 ≡ₚ l) →
  well_formed gu self0 →
  make_guess gu shuffle depth self0 g = Ok (Some guess, self1, g') →
  validate_feedback gu feedback = true →
  ∃ code self',
    guess = Some <$> code ∧
    receive_feedback gu self1 code feedback = Ok self' ∧
    ∀ p c, 0 ≤ p < n_positions gu → 0 ≤ c < n_colors gu →
      mat_get (_valid_guess self') p c = Ok true →
      mat_get (_valid_guess self0) p c = Ok true.
Proof.
  intros Hperm Hwf Hguess Hfb.
  pose proof (make_guess_same_self _ _ _ _ _ _ _ _ _ Hguess) as ->.
  destruct (make_guess_code _ _ _ _ _ _ _ _ _ Hperm Hguess)
    as (code & -> & Hcode & Hvalid).
  destruct (receive_feedback_entries gu self0 code feedback)
    as (self' & Hrun & Hwf' & Hsub); [done..|].
  exists code, self'. split_and!; [done..|].
  intros p c Hp Hc. rewrite !(mat_get_Z gu) by done. intros [= Hset].
  destruct (Hsub _ _ Hset) as [->|[_ Hcolor]]; [done|].
  apply Hvalid in Hcolor. rewrite Z2Nat.id in Hcolor by lia.
  replace (Z.of_nat (Z.to_nat c) + 1 - 1) with c in Hcolor by lia.
  by rewrite <- (mat_get_Z gu).
Qed.

Lemma game_turn_shrinks_witness :
  (∀ g l, (id_shuffle g l).1 ≡ₚ l) ∧
  well_formed game_3_3_distinct all_white ∧
  make_guess game_3_3_distinct id_shuffle 4 all_white tt
  = Ok (Some [Some 2; Some 3; Some 1], all_white, tt) ∧
  validate_feedback game_3_3_distinct "b.w" = true ∧
  ∃ code self',
    [Some 2; Some 3; Some 1] = Some <$> code ∧
    receive_feedback game_3_3_distinct all_white code "b.w" = Ok self' ∧
    ∀ p c, 0 ≤ p < n_positions game_3_3_distinct →
      0 ≤ c < n_colors game_3_3_distinct →
      mat_get (_valid_guess self') p c = Ok true →
      mat_get (_valid_guess all_white) p c = Ok true.
Proof.
  assert (Hwf : well_formed game_3_3_distinct all_white)
    by (apply reachable_well_formed, all_white_reachable).
  split; [intros g l; reflexivity|]. split; [exact Hwf|].
  split; [vm_compute; reflexivity|]. split; [reflexivity|].
  apply (game_turn_shrinks game_3_3_distinct unit id_shuffle 4 all_white tt
           [Some 2; Some 3; Some 1] all_white tt "b.w").
  - intros g l. reflexivity.
  - exact Hwf.
  - vm_compute. reflexivity.
  - reflexivity.
Defined.

(** ** The search finds a guess when there is one *)

Lemma getitem_Z {A : Type} (l : list A) (i : Z) (x : A) :
  0 ≤ i → l !! Z.to_nat i = Some x → getitem l i = Ok x.
Proof.
  intros Hi Hx. rewrite <- (Z2Nat.id i Hi). by apply getitem_nat.
Qed.

Lemma setitem_Z {A : Type} (l : list A) (i : Z) (x : A) :
  0 ≤ i → (Z.to_nat i < length l)%nat →
  setitem l i x = Ok (<[Z.to_nat i:=x]> l).
Proof.
  intros Hi Hlen. rewrite <- (Z2Nat.id i Hi) at 1. by apply setitem_nat.
Qed.

Section SearchComplete.
Variable gu : MastermindGameUtils.
Variable RNG : Type.
Variable shuffle : RNG → list Z → list Z * RNG.
Hypothesis shuffle_perm : ∀ g l, (shuffle g l).1 ≡ₚ l.
Let N := Z.to_nat (n_positions gu).
Implicit Types σ : frame RNG.

Lemma viable_total σ (k : nat) (c : Z) :
  search_shape gu σ → (k < N)%nat → 0 ≤ c < n_colors gu →
  ∃ b : bool, viable σ (Z.of_nat k) c = Ok b ∧ (b = true ↔ candidate gu σ k c).
Proof.
  intros [Hwf Hlen] Hk Hc. unfold viable, candidate.
  destruct (lookup_lt_is_Some_2 (colors_to_check σ) (Z.to_nat c))
    as [x Hx]; [lia|].
  rewrite (getitem_Z _ _ _ (proj1 Hc) Hx). simpl.
  rewrite Hx. destruct x.
  - rewrite (mat_get_Z gu) by (done || unfold N in *; lia).
    eexists; split; [done|]. split; [intros ->; auto|].
    by intros (_ & _ & [= ->]).
  - exists false. split; [done|]. split; [done|]. by intros (_ & [=] & _).
Qed.

Lemma viable_colors_total σ (k : nat) :
  search_shape gu σ → (k < N)%nat →
  ∃ l, viable_colors gu σ (Z.of_nat k) = Ok l
       ∧ ∀ c, c ∈ l ↔ candidate gu σ k c.
Proof.
  intros Hshape Hk. unfold viable_colors.
  destruct (for_invariant
    (λ i acc, ∀ c, c ∈ acc ↔ c < Z.of_nat i ∧ candidate gu σ k c)
    (range (n_colors gu))
    (λ color acc,
       b ← viable σ (Z.of_nat k) color;
       Ok (if b : bool then acc ++ [color] else acc))
    []) as (l & Hl & Hiff).
  - intros c. rewrite elem_of_nil. unfold candidate. lia.
  - intros i x acc [-> Hi]%range_lookup IH.
    destruct (viable_total σ k (Z.of_nat i) Hshape Hk) as (b & -> & Hb);
      [lia|]. simpl.
    eexists; split; [done|]. intros c. destruct b.
    + rewrite elem_of_app, list_elem_of_singleton, IH.
      assert (candidate gu σ k (Z.of_nat i)) by by apply Hb.
      split; [intros [[? ?]| ->]; split; (done || lia)|].
      intros [Hlt Hcand]. destruct (decide (c = Z.of_nat i)); [auto|].
      left. split; [lia|done].
    + rewrite IH. split; [intros [? ?]; split; (done || lia)|].
      intros [Hlt Hcand]. split; [|done].
      destruct (decide (c = Z.of_nat i)) as [->|]; [|lia].
      apply Hb in Hcand. done.
  - exists l. split; [done|]. intros c. rewrite Hiff, length_range.
    unfold candidate. split; [tauto|]. intros H. split; [lia|done].
Qed.

Lemma ordered_colors_total σ (k : nat) :
  search_shape gu σ → (k < N)%nat →
  ∃ l σ1, ordered_colors gu shuffle σ (Z.of_nat k) = Ok (l, σ1)
          ∧ ∀ c, c ∈ l ↔ candidate gu σ k c.
Proof.
  intros Hshape Hk.
  destruct (viable_colors_total σ k Hshape Hk) as (l0 & Hl0 & Hiff).
  unfold ordered_colors. rewrite Hl0. simpl.
  pose proof (shuffle_perm (rng σ) l0) as Hperm.
  destruct (shuffle (rng σ) l0) as [l1 g]. simpl in Hperm.
  eexists _, _. split; [done|]. intros c.
  by rewrite sort_by_key_perm, Hperm.
Qed.

Lemma completable_frame σ σ' (k : nat) :
  self σ' = self σ → colors_to_check σ' = colors_to_check σ →
  completable gu σ k → completable gu σ' k.
Proof.
  intros Hself Hcc (rest & Hlen & Hcand & Hdup).
  exists rest. split_and!; [done| |done].
  intros i c Hc. eapply candidate_frame; [done..|]. auto.
Qed.

Lemma place_frame σ σ' (k : nat) (c : Z) :
  self σ' = self σ → colors_to_check σ' = colors_to_check σ →
  self (place gu σ' k c) = self (place gu σ k c)
  ∧ colors_to_check (place gu σ' k c) = colors_to_check (place gu σ k c).
Proof. unfold place. simpl. by intros -> ->. Qed.

Lemma search_shape_place σ (k : nat) (c : Z) :
  search_shape gu σ → search_shape gu (place gu σ k c).
Proof.
  intros [Hwf Hlen]. split; [done|]. unfold place. simpl.
  destruct (duplicates_allowed gu); [done|]. by rewrite length_insert.
Qed.

Lemma search_pre_place σ (k : nat) (c : Z) :
  (k < N)%nat → search_pre gu σ k → candidate gu σ k c →
  search_pre gu (place gu σ k c) (S k).
Proof.
  intros Hk (Hlen & code & Hplaced) Hc. split.
  - unfold place. simpl. by rewrite length_insert.
  - exists (code ++ [c + 1]). apply (placed_next gu RNG); try done.
    + unfold N in *. lia.
    + by destruct (duplicates_allowed gu).
Qed.

(** A completion from position [k] starts with a candidate at [k], after
    which the rest is a completion from the next position. *)
Lemma completable_step σ (k : nat) :
  (k < N)%nat → completable gu σ k →
  ∃ c, candidate gu σ k c ∧ completable gu (place gu σ k c) (S k).
Proof.
  intros Hk (rest & Hlen & Hcand & Hdup).
  destruct rest as [|c rest]; [simpl in Hlen; unfold N in *; lia|].
  exists c. split.
  { specialize (Hcand 0%nat c eq_refl). by rewrite Nat.add_0_r in Hcand. }
  exists rest. split_and!.
  - simpl in Hlen. lia.
  - intros i c' Hc'.
    destruct (Hcand (S i) c' Hc') as (Hrange & Hcheck & Hm).
    unfold candidate.
    replace (S k + i)%nat with (k + S i)%nat by lia.
    unfold place. simpl.
    split; [done|]. split; [|done].
    destruct (duplicates_allowed gu) eqn:Hno; [done|].
    rewrite list_lookup_insert_ne; [done|].
    specialize (Hdup eq_refl). apply NoDup_cons in Hdup as [Hnotin _].
    destruct (Hcand 0%nat c eq_refl) as (Hrange0 & _).
    intros Heq. apply Hnotin. replace c with c' by lia.
    by eapply list_elem_of_lookup_2.
  - intros Hno. specialize (Hdup Hno). by apply NoDup_cons in Hdup as [_ ?].
Qed.

Lemma try_colors_complete (rec : frame RNG → result (bool * frame RNG))
    (k : nat) (colors : list Z) σ :
  (∀ σ1, search_shape gu σ1 → search_pre gu σ1 (S k) →
     ∃ found σ1', rec σ1 = Ok (found, σ1')
       ∧ search_post gu σ1 (S k) found σ1'
       ∧ (completable gu σ1 (S k) → found = true)) →
  (k < N)%nat →
  search_shape gu σ → search_pre gu σ k →
  (∀ c, c ∈ colors → candidate gu σ k c) →
  ∃ found σ', try_colors gu rec (Z.of_nat k) colors σ = Ok (found, σ')
    ∧ (∀ c, c ∈ colors → completable gu (place gu σ k c) (S k) →
       found = true).
Proof.
  intros Hrec Hk. revert σ.
  induction colors as [|c colors IH]; intros σ Hshape Hpre Hcand; simpl.
  { eexists _, _. split; [done|]. intros c. by rewrite elem_of_nil. }
  assert (candidate gu σ k c) as Hc by (apply Hcand; left).
  pose proof Hc as (Hcr & Hcheck & Hm).
  pose proof Hpre as [Hlen _].
  destruct (Hrec (place gu σ k c)) as (found1 & σ1 & Hrun & Hpost & Hcomp).
  { by apply search_shape_place. }
  { by apply search_pre_place. }
  destruct Hpost as (Hself & Hlen1 & Hres).
  assert (setitem (current_guess σ) (Z.of_nat k) (Some (c + 1))
          = Ok (<[k:=Some (c + 1)]> (current_guess σ))) as Hcg
    by (apply setitem_nat; unfold N in *; lia).
  assert (Z.to_nat c < length (colors_to_check σ))%nat as Hclen
    by (by eapply lookup_lt_Some).
  assert (∀ σ2, self σ2 = self σ →
    length (current_guess σ2) = length (current_guess σ) →
    colors_to_check σ2 = colors_to_check σ →
    take k (current_guess σ2) = take k (current_guess σ) →
    found1 = false →
    ∃ found σ', try_colors gu rec (Z.of_nat k) colors σ2 = Ok (found, σ')
      ∧ (∀ c', c' ∈ c :: colors →
         completable gu (place gu σ k c') (S k) → found = true)) as Hrest.
  { intros σ2 Hself2 Hlen2 Hcc2 Htake2 ->.
    destruct (IH σ2) as (found & σ' & Htry & Hall).
    - destruct Hshape as [Hwf Hl]. split; congruence.
    - destruct Hpre as (_ & code & Hplaced). split; [congruence|].
      exists code. by eapply placed_frame.
    - intros c' Hc'. eapply candidate_frame; [done..|].
      apply Hcand. by right.
    - exists found, σ'. split; [done|].
      intros c' [->|Hin]%elem_of_cons Hcompl.
      + by specialize (Hcomp Hcompl).
      + apply (Hall c' Hin).
        destruct (place_frame σ σ2 k c' Hself2 Hcc2) as [? ?].
        by eapply completable_frame. }
  unfold place in Hrun, Hself, Hlen1, Hres. simpl in Hself, Hlen1.
  rewrite length_insert in Hlen1.
  destruct (duplicates_allowed gu) eqn:Hdup.
  - rewrite Hcg. simpl.
    replace (with_current_guess σ (<[k:=Some (c + 1)]> (current_guess σ)))
      with (with_current_guess (with_colors_to_check σ (colors_to_check σ))
              (<[k:=Some (c + 1)]> (current_guess σ))) by by destruct σ.
    rewrite Hrun. simpl. destruct found1.
    + eexists _, _. split; [done|]. done.
    + simpl in Hres. destruct Hres as [Hcc Htake].
      apply Hrest; try done.
      apply (f_equal (take k)) in Htake.
      rewrite !take_take, Nat.min_l in Htake by lia.
      by rewrite take_insert_ge in Htake by lia.
  - rewrite (setitem_Z (colors_to_check σ) c false) by (done || lia).
    simpl. rewrite Hcg. simpl.
    rewrite Hrun. simpl. destruct found1.
    + eexists _, _. split; [done|]. done.
    + simpl in Hres. destruct Hres as [Hcc Htake].
      rewrite (setitem_Z (colors_to_check σ1) c true)
        by (rewrite ?Hcc, ?length_insert; (done || lia)).
      simpl.
      apply Hrest; simpl; try done.
      * rewrite Hcc, list_insert_insert_eq. by apply list_insert_id.
      * apply (f_equal (take k)) in Htake.
        rewrite !take_take, Nat.min_l in Htake by lia.
        by rewrite take_insert_ge in Htake by lia.
Qed.

Lemma _make_guess_complete (depth : nat) σ (k : nat) :
  0 ≤ n_positions gu → (k ≤ N)%nat → (N - k < depth)%nat →
  search_shape gu σ → search_pre gu σ k →
  ∃ found σ', _make_guess gu shuffle depth σ (Z.of_nat k) = Ok (found, σ')
    ∧ search_post gu σ k found σ'
    ∧ (completable gu σ k → found = true).
Proof.
  intros HN. revert σ k.
  induction depth as [|depth IH]; intros σ k Hk Hdepth Hshape Hpre; [lia|].
  assert (∀ found σ', _make_guess gu shuffle (S depth) σ (Z.of_nat k)
                       = Ok (found, σ') →
            search_post gu σ k found σ') as Hsound
    by (intros found σ'; by apply _make_guess_sound).
  simpl in *. case_decide as Heq.
  { eexists _, _. split; [done|]. split; [by apply Hsound|done]. }
  assert (k < N)%nat as Hlt by (unfold N in *; lia).
  destruct (ordered_colors_total σ k Hshape Hlt) as (l & σ1 & Hord & Hiff).
  rewrite Hord in Hsound |- *. simpl in *.
  apply ordered_colors_self in Hord as (Hself & Hcg & Hcc).
  destruct (try_colors_complete
    (λ σ, _make_guess gu shuffle depth σ (Z.of_nat k + 1)) k l σ1)
    as (found & σ' & Htry & Hall); [|done| | | |].
  - intros σ2 Hshape2 Hpre2.
    replace (Z.of_nat k + 1) with (Z.of_nat (S k)) by lia.
    apply IH; [lia|lia|done..].
  - destruct Hshape as [Hwf Hl]. split; congruence.
  - destruct Hpre as (Hlen & code & Hplaced). split; [congruence|].
    exists code. eapply placed_frame; [done..|by rewrite Hcg|done].
  - intros c Hc. eapply candidate_frame; [done..|]. by apply Hiff.
  - exists found, σ'. split; [done|]. split; [by apply Hsound|].
    intros Hcompl. apply completable_step in Hcompl as (c & Hc & Hrest);
      [|done].
    apply (Hall c); [by apply Hiff|].
    destruct (place_frame σ σ1 k c Hself Hcc) as [? ?].
    by eapply completable_frame.
Qed.
End SearchComplete.

(** ** [make_guess] in a state of the right shape *)

Lemma make_guess_total (gu : MastermindGameUtils) (RNG : Type)
    (shuffle : RNG → list Z → list Z * RNG) (depth : nat)
    (self0 : ComputerCodeBreaker) (g : RNG) :
  (∀ g l, (shuffle g l).1 ≡ₚ l) →
  well_formed gu self0 → 0 ≤ n_positions gu →
  (Z.to_nat (n_positions gu) < depth)%nat →
  ∃ r g', make_guess gu shuffle depth self0 g = Ok (r, self0, g')
          ∧ ((∃ code, consistent gu self0 code) → r ≠ None).
Proof.
  intros Hperm Hwf HN Hdepth. unfold make_guess.
  set (σ0 := {| self := self0; rng := g;
                current_guess := replicate (Z.to_nat (n_positions gu)) None;
                colors_to_check :=
                  (λ color, bool_decide (color ∈ _right_colors self0)
                            || bool_decide (color ∈ _unseen_colors self0))
                    <$> range (n_colors gu) |}).
  destruct (_make_guess_complete gu RNG shuffle Hperm depth σ0 0%nat)
    as (found & σ' & Hrun & (Hself & _) & Hcompl); [done|lia|lia| | |].
  - split; [done|]. simpl. by rewrite length_fmap, length_range.
  - split; simpl; [by rewrite length_replicate|].
    exists []. split_and!; try done.
    intros _. split; [apply NoDup_nil_2|]. intros c. by rewrite elem_of_nil.
  - change (Z.of_nat 0) with 0 in Hrun. rewrite Hrun. simpl.
    rewrite Hself. simpl. eexists _, _. split; [done|].
    intros (code & Hcode & Hcons).
    apply validate_code_spec in Hcode as (Hlen & Hdup & Hcol).
    rewrite Hcompl; [done|].
    exists ((λ c, c - 1) <$> code). split_and!.
    + rewrite length_fmap. lia.
    + intros i c' Hi. rewrite list_lookup_fmap in Hi.
      destruct (code !! i) as [c|] eqn:Hc; [|done]. injection Hi as <-.
      destruct (Hcons i c Hc) as [Hm Hcheck].
      assert (1 ≤ c ≤ n_colors gu) as Hrange.
      { rewrite Forall_forall in Hcol. apply Hcol.
        by eapply list_elem_of_lookup_2. }
      split; [lia|]. split; [|done]. simpl.
      rewrite list_lookup_fmap. unfold range.
      rewrite lookup_seqZ_lt by lia. simpl. f_equal.
      rewrite Z2Nat.id by lia. replace (0 + (c - 1)) with (c - 1) by lia.
      apply orb_true_iff. rewrite !bool_decide_eq_true. done.
    + intros Hno. destruct Hdup as [?|Hnodup]; [congruence|].
      apply NoDup_fmap_2; [|done]. intros ???; lia.
Qed.



(** ** The game: every turn unsets an entry *)

Lemma ints_fmap_Some (code : list Z) : ints (Some <$> code) = Some code.
Proof.
  induction code as [|c code IH]; [done|].
  rewrite fmap_cons. simpl. by rewrite IH.
Qed.

Lemma filter_length_le {A : Type} (P Q : A → Prop)
    `{∀ x, Decision (P x)} `{∀ x, Decision (Q x)} (l : list A) :
  (∀ x, x ∈ l → Q x → P x) →
  (length (filter Q l) ≤ length (filter P l))%nat.
Proof.
  induction l as [|x l IH]; intros Himp; [done|].
  rewrite !filter_cons.
  assert (length (filter Q l) ≤ length (filter P l))%nat
    by (apply IH; intros y Hy; apply Himp; by right).
  specialize (Himp x ltac:(left)).
  destruct (decide (Q x)), (decide (P x)); simpl; try lia. tauto.
Qed.

Lemma filter_length_lt {A : Type} (P Q : A → Prop)
    `{∀ x, Decision (P x)} `{∀ x, Decision (Q x)} (l : list A) (x : A) :
  (∀ x, x ∈ l → Q x → P x) → x ∈ l → P x → ¬ Q x →
  (length (filter Q l) < length (filter P l))%nat.
Proof.
  induction l as [|y l IH]; intros Himp Hin HP HQ.
  { by apply elem_of_nil in Hin. }
  rewrite !filter_cons.
  assert (length (filter Q l) ≤ length (filter P l))%nat
    by (apply filter_length_le; intros z Hz; apply Himp; by right).
  apply elem_of_cons in Hin as [<-|Hin].
  - rewrite decide_False, decide_True by done. simpl. lia.
  - assert (length (filter Q l) < length (filter P l))%nat
      by (apply IH; try done; intros z Hz; apply Himp; by right).
    specialize (Himp y ltac:(left)).
    destruct (decide (Q y)), (decide (P y)); simpl; try lia. tauto.
Qed.

Lemma elem_of_cells (gu : MastermindGameUtils) (i j : nat) :
  (i, j) ∈ cells gu
  ↔ (i < Z.to_nat (n_positions gu))%nat ∧ (j < Z.to_nat (n_colors gu))%nat.
Proof.
  unfold cells. rewrite list_elem_of_In, in_prod_iff.
  rewrite <- !list_elem_of_In, !elem_of_seq. lia.
Qed.

Lemma count_valid_bound (gu : MastermindGameUtils)
    (self : ComputerCodeBreaker) :
  (count_valid gu self
   ≤ Z.to_nat (n_positions gu) * Z.to_nat (n_colors gu))%nat.
Proof.
  unfold count_valid. etrans; [apply length_filter|].
  unfold cells. by rewrite length_prod, !length_seq.
Qed.

Lemma count_valid_lt (gu : MastermindGameUtils)
    (self self' : ComputerCodeBreaker) (i j : nat) :
  (∀ i j, valid_at (_valid_guess self') i j = true →
          valid_at (_valid_guess self) i j = true) →
  (i < Z.to_nat (n_positions gu))%nat → (j < Z.to_nat (n_colors gu))%nat →
  valid_at (_valid_guess self) i j = true →
  valid_at (_valid_guess self') i j = false →
  (count_valid gu self' < count_valid gu self)%nat.
Proof.
  intros Hsub Hi Hj Hset Hunset. unfold count_valid.
  apply (filter_length_lt _ _ _ (i, j)).
  - intros [i' j'] _. apply Hsub.
  - by apply elem_of_cells.
  - done.
  - simpl. congruence.
Qed.

Lemma count_valid_pos (gu : MastermindGameUtils)
    (self : ComputerCodeBreaker) (i j : nat) :
  (i < Z.to_nat (n_positions gu))%nat → (j < Z.to_nat (n_colors gu))%nat →
  valid_at (_valid_guess self) i j = true →
  (0 < count_valid gu self)%nat.
Proof.
  intros Hi Hj Hset. unfold count_valid.
  assert ((i, j) ∈ filter
            (λ ij, valid_at (_valid_guess self) ij.1 ij.2 = true) (cells gu))
    as Hin by (apply list_elem_of_filter; split; [done|by apply elem_of_cells]).
  destruct (filter _ _); [by apply elem_of_nil in Hin|simpl; lia].
Qed.

Lemma not_all_black (feedback : string) :
  _is_guess_correct (Some feedback) = false →
  ∃ (p : nat) (peg : ascii),
    list_ascii_of_string feedback !! p = Some peg ∧ peg ≠ "b"%char.
Proof.
  unfold _is_guess_correct.
  induction (list_ascii_of_string feedback) as [|peg l IH]; simpl; [done|].
  case_bool_decide as Hpeg; simpl.
  - intros (p & peg' & Hp & Hne)%IH. by exists (S p), peg'.
  - intros _. by exists 0%nat, peg.
Qed.

(** A peg other than ['b'] leaves its entry unset, at every position. *)
Lemma receive_feedback_not_black (gu : MastermindGameUtils)
    (self : ComputerCodeBreaker) (guess : list Z) (feedback : string) :
  well_formed gu self → validate_code gu guess = true →
  ∃ self', receive_feedback gu self guess feedback = Ok self' ∧
    ∀ (p c : nat) (peg : ascii),
      list_ascii_of_string feedback !! p = Some peg → peg ≠ "b"%char →
      guess !! p = Some (Z.of_nat c + 1) →
      valid_at (_valid_guess self') p c = false.
Proof.
  intros Hwf Hcode.
  destruct (receive_feedback_loop gu
    (λ k s, ∀ (p c : nat) (peg : ascii), (p < k)%nat →
       list_ascii_of_string feedback !! p = Some peg → peg ≠ "b"%char →
       guess !! p = Some (Z.of_nat c + 1) →
       valid_at (_valid_guess s) p c = false)
    self guess feedback) as (s' & Hs' & Hwf' & Hinv); [done|done| | |].
  - intros p c peg Hp. lia.
  - intros k c1 peg1 s s1 Hpeg1 Hcolor1 _ _ IH (_ & _ & _ & _ & Hcell)
      p c peg Hp Hpeg Hnb Hcolor.
    rewrite Hcell. destruct (decide (p = k)) as [->|Hne].
    + rewrite Hpeg in Hpeg1. injection Hpeg1 as <-.
      assert (c1 = c) as ->
        by (rewrite Hcolor in Hcolor1; injection Hcolor1; lia).
      by apply cell_after_not_black.
    + apply not_true_is_false. intros Hset.
      apply cell_after_other_row in Hset; [|done].
      rewrite (IH p c peg) in Hset; [done|lia|done..].
  - rewrite receive_feedback_unfold, Hs'. simpl.
    eexists; split; [done|]. rewrite update_found_valid_guess.
    intros p c peg Hpeg Hnb Hcolor. apply (Hinv p c peg); try done.
    apply lookup_lt_Some in Hpeg, Hcolor. lia.
Qed.

(** One turn with a guess whose colors are set in the matrix and a
    validated feedback that is not all black: fewer entries are set. *)
Lemma game_turn_count (gu : MastermindGameUtils)
    (self : ComputerCodeBreaker) (code : list Z) (feedback : string) :
  well_formed gu self → validate_code gu code = true →
  (∀ (p : nat) (c : Z), code !! p = Some c →
     mat_get (_valid_guess self) (Z.of_nat p) (c - 1) = Ok true) →
  Z.of_nat (length (list_ascii_of_string feedback)) = n_positions gu →
  _is_guess_correct (Some feedback) = false →
  ∃ self', receive_feedback gu self code feedback = Ok self'
           ∧ well_formed gu self'
           ∧ (count_valid gu self' < count_valid gu self)%nat.
Proof.
  intros Hwf Hcode Hvalid Hfb Hwrong.
  pose proof Hcode as (Hlen & _ & Hcol)%validate_code_spec.
  destruct (receive_feedback_entries gu self code feedback)
    as (self' & Hrun & Hwf' & Hsub); [done..|].
  destruct (receive_feedback_not_black gu self code feedback)
    as (self'' & Hrun' & Hunset); [done..|].
  assert (self'' = self') as -> by congruence.
  exists self'. split; [done|]. split; [done|].
  apply not_all_black in Hwrong as (p & peg & Hpeg & Hnb).
  destruct (lookup_lt_is_Some_2 code p) as [color Hcolor].
  { apply lookup_lt_Some in Hpeg. lia. }
  assert (1 ≤ color ≤ n_colors gu) as Hrange.
  { rewrite Forall_forall in Hcol. apply Hcol.
    by eapply list_elem_of_lookup_2. }
  assert (∀ (i : nat) (c : Z), code !! i = Some c →
            valid_at (_valid_guess self) i (Z.to_nat (c - 1)) = true)
    as Hvalid'.
  { intros i c Hc. pose proof (Hvalid i c Hc) as Hm.
    assert (1 ≤ c ≤ n_colors gu).
    { rewrite Forall_forall in Hcol. apply Hcol.
      by eapply list_elem_of_lookup_2. }
    rewrite (mat_get_Z gu) in Hm;
      [|done|apply lookup_lt_Some in Hc; lia|lia].
    rewrite Nat2Z.id in Hm. by injection Hm. }
  apply (count_valid_lt gu self self' p (Z.to_nat (color - 1))).
  - intros i j Hset. destruct (Hsub i j Hset) as [?|[_ Hc]]; [done|].
    apply Hvalid' in Hc.
    by replace (Z.to_nat (Z.of_nat j + 1 - 1)) with j in Hc by lia.
  - apply lookup_lt_Some in Hcolor. lia.
  - lia.
  - by apply Hvalid'.
  - apply (Hunset p _ peg); [done..|].
    rewrite Hcolor. f_equal. lia.
Qed.

(** ** The game comes to an end, whoever makes the code *)

Section GameEnds.
Variable gu : MastermindGameUtils.
Variable RNG : Type.
Variable shuffle : RNG → list Z → list Z * RNG.
Context `{CodeMaker RNG M}.
Hypothesis shuffle_perm : ∀ g l, (shuffle g l).1 ≡ₚ l.

(** The states of a code maker that answers every validated guess with a
    validated feedback. *)
Variable answers : M → Prop.
Hypothesis answers_feedback : ∀ m code g,
  answers m → validate_code gu code = true →
  ∃ feedback m' g',
    give_feedback m code g = (inr feedback, m', g')
    ∧ validate_feedback gu feedback = true ∧ answers m'.

Lemma game_loop_ends (turns depth : nat) (m : M) (b : ComputerCodeBreaker)
    (g : RNG) (out : list string) :
  0 ≤ n_positions gu → (Z.to_nat (n_positions gu) < depth)%nat →
  answers m → well_formed gu b → (count_valid gu b < turns)%nat →
  ∃ out' e,
    game_loop gu RNG shuffle turns depth m b g out = (out ++ out', e)
    ∧ (e = Solved ∨ e = NoGuess)
    ∧ (length out' ≤ S (count_valid gu b))%nat.
Proof.
  intros HN Hdepth. revert m b g out.
  induction turns as [|turns IH]; intros m b g out Hm Hwf Hcount; [lia|].
  simpl.
  destruct (make_guess_total gu RNG shuffle depth b g)
    as (r & g1 & Hguess & _); [done..|].
  rewrite Hguess. destruct r as [guess|]; cycle 1.
  { eexists _, _. split; [done|]. split; [auto|]. simpl. lia. }
  destruct (make_guess_code _ _ _ _ _ _ _ _ _ shuffle_perm Hguess)
    as (code & -> & Hcode & Hvalid).
  rewrite ints_fmap_Some.
  destruct (answers_feedback m code g1 Hm Hcode)
    as (feedback & m' & g2 & -> & Hfb & Hm').
  fold (_is_guess_correct (Some feedback)).
  destruct (_is_guess_correct (Some feedback)) eqn:Hcorrect.
  { eexists _, _. split; [reflexivity|]. split; [auto|]. simpl. lia. }
  destruct (game_turn_count gu b code feedback)
    as (b' & -> & Hwf' & Hlt); [done..|by apply validate_feedback_length|done|].
  destruct (IH m' b' g2 (out ++ [guess_as_string code +:+ " " +:+ feedback]))
    as (out' & e & -> & He & Hlen); [done|done|lia|].
  exists ([guess_as_string code +:+ " " +:+ feedback] ++ out'), e.
  split; [by rewrite app_assoc|]. split; [done|].
  rewrite length_app. simpl. lia.
Qed.

End GameEnds.


(** ** The game against the automated feedback is won *)

Lemma auto_feedback_self_pegs (full code : list Z) :
  (λ '(g, a), peg_of full g a) <$> zip code code
  = replicate (length code) "b"%char.
Proof.
  induction code as [|c code IH]; [done|].
  change (zip (c :: code) (c :: code)) with ((c, c) :: zip code code).
  rewrite fmap_cons, IH. simpl. unfold peg_of. by rewrite decide_True.
Qed.

Lemma auto_feedback_self (code : list Z) :
  _auto_feedback code code
  = string_of_list_ascii (replicate (length code) "b"%char).
Proof.
  rewrite <- (string_of_list_ascii_of_string (_auto_feedback code code)).
  by rewrite auto_feedback_pegs_list, auto_feedback_self_pegs.
Qed.

Section HonestGame.
Variable gu : MastermindGameUtils.
Variable RNG : Type.
Variable shuffle : RNG → list Z → list Z * RNG.
Variable randint : RNG → Z → Z → option Z * RNG.
Variable sample : RNG → list Z → Z → option (list Z) * RNG.
Hypothesis shuffle_perm : ∀ g l, (shuffle g l).1 ≡ₚ l.
Variable secret : list Z.
Hypothesis secret_valid : validate_code gu secret = true.
Hypothesis positions : 0 < n_positions gu.

Lemma oracle_inv_consistent (b : ComputerCodeBreaker) :
  well_formed gu b → oracle_inv gu secret b → consistent gu b secret.
Proof.
  intros Hwf Hinv. pose proof (oracle_inv_feasible gu secret secret_valid b Hwf Hinv)
    as [Hm Hcol].
  split; [done|]. intros p color Hp. split; [by apply Hm|].
  destruct (Hcol color) as [?|?]; [by eapply list_elem_of_lookup_2|auto..].
Qed.

Lemma oracle_inv_count (b : ComputerCodeBreaker) :
  oracle_inv gu secret b → (0 < count_valid gu b)%nat.
Proof.
  intros (Hm & _).
  pose proof secret_valid as (Hlen & _ & Hcol)%validate_code_spec.
  destruct (lookup_lt_is_Some_2 secret 0%nat) as [color Hcolor]; [lia|].
  assert (1 ≤ color ≤ n_colors gu) as Hrange.
  { rewrite Forall_forall in Hcol. apply Hcol.
    by eapply list_elem_of_lookup_2. }
  apply (count_valid_pos gu b 0%nat (Z.to_nat (color - 1))); [lia|lia|].
  by apply Hm.
Qed.

Lemma honest_loop (turns depth : nat) (b : ComputerCodeBreaker) (g : RNG)
    (out : list string) :
  (Z.to_nat (n_positions gu) < depth)%nat →
  well_formed gu b → oracle_inv gu secret b →
  (count_valid gu b ≤ turns)%nat →
  ∃ out',
    game_loop gu RNG shuffle (H := ComputerCodeMaker gu RNG randint sample)
      turns depth (Some secret) b g out = (out ++ out', Solved)
    ∧ last out' = Some (guess_as_string secret +:+ " "
                        +:+ _auto_feedback secret secret)
    ∧ (length out' ≤ count_valid gu b)%nat.
Proof.
  intros Hdepth. revert b g out.
  induction turns as [|turns IH]; intros b g out Hwf Hinv Hcount.
  { apply oracle_inv_count in Hinv. lia. }
  pose proof (oracle_inv_count b Hinv) as Hpos.
  pose proof secret_valid as (Hlen & _)%validate_code_spec.
  simpl.
  destruct (make_guess_total gu RNG shuffle depth b g)
    as (r & g1 & Hguess & Hsome); [done|done|lia|done|].
  rewrite Hguess. destruct r as [guess|]; cycle 1.
  { destruct Hsome; [|done]. exists secret. by apply oracle_inv_consistent. }
  destruct (make_guess_code _ _ _ _ _ _ _ _ _ shuffle_perm Hguess)
    as (code & -> & Hcode & Hvalid).
  pose proof Hcode as (Hlenc & _)%validate_code_spec.
  rewrite ints_fmap_Some.
  fold (_is_guess_correct (Some (_auto_feedback secret code))).
  destruct (_is_guess_correct (Some (_auto_feedback secret code)))
    eqn:Hcorrect.
  - unfold _is_guess_correct in Hcorrect.
    rewrite auto_feedback_pegs_list in Hcorrect.
    apply forallb_fmap_zip_eq in Hcorrect as ->; [|lia].
    eexists. split; [reflexivity|]. split; [done|]. simpl. lia.
  - destruct (game_turn_count gu b code (_auto_feedback secret code))
      as (b' & Hrun & Hwf' & Hlt); [done..| |done|].
    { apply validate_feedback_length.
      by apply auto_feedback_valid_feedback. }
    destruct (receive_feedback_oracle gu secret secret_valid b code)
      as (b'' & Hrun' & _ & Hinv'); [done..|].
    assert (b'' = b') as -> by congruence.
    rewrite Hrun.
    destruct (IH b' g1
      (out ++ [guess_as_string code +:+ " " +:+ _auto_feedback secret code]))
      as (out' & -> & Hlast & Hlenout); [done|done|lia|].
    exists ([guess_as_string code +:+ " " +:+ _auto_feedback secret code]
            ++ out').
    split; [by rewrite app_assoc|]. split.
    + by rewrite last_app, Hlast.
    + rewrite length_app. simpl. lia.
Qed.

End HonestGame.


(** ** random_code, and the program with both roles played by the computer *)

Section RandomCode.
Variable gu : MastermindGameUtils.
Variable RNG : Type.
Variable shuffle : RNG → list Z → list Z * RNG.
Variable randint : RNG → Z → Z → option Z * RNG.
Variable sample : RNG → list Z → Z → option (list Z) * RNG.

(** What the program relies on from the [random] module. *)
Hypothesis shuffle_perm : ∀ g l, (shuffle g l).1 ≡ₚ l.
Hypothesis randint_range : ∀ g a b, a ≤ b →
  ∃ x g', randint g a b = (Some x, g') ∧ a ≤ x ≤ b.
Hypothesis sample_distinct : ∀ g population k,
  0 ≤ k ≤ Z.of_nat (length population) → NoDup population →
  ∃ l g', sample g population k = (Some l, g')
          ∧ Z.of_nat (length l) = k ∧ NoDup l ∧ l ⊆ population.

Lemma randints_range (n : nat) (g : RNG) :
  0 < n_colors gu →
  ∃ l g', randints gu RNG randint n g = (Some l, g')
          ∧ length l = n
          ∧ Forall (λ color, 1 ≤ color ≤ n_colors gu) l.
Proof.
  intros Hcolors. revert g. induction n as [|n IH]; intros g; simpl.
  { by eexists [], _. }
  destruct (randint_range g 1 (n_colors gu)) as (x & g1 & -> & Hx); [lia|].
  destruct (IH g1) as (l & g2 & -> & Hlen & Hall). simpl.
  eexists (x :: l), _. split; [done|]. split; [simpl; lia|].
  by constructor.
Qed.

Lemma random_code_ok (dups : option bool) (g : RNG) :
  0 < n_colors gu → 0 ≤ n_positions gu →
  ¬ (dups = Some true ∧ duplicates_allowed gu = false) →
  (default (duplicates_allowed gu) dups = false →
   n_positions gu ≤ n_colors gu) →
  ∃ code g',
    random_code gu RNG randint sample dups g = (inr code, g')
    ∧ validate_code gu code = true
    ∧ (default (duplicates_allowed gu) dups = false → NoDup code).
Proof.
  intros Hcolors Hpositions Hallowed Henough. unfold random_code.
  assert (bool_decide (dups = Some true) && negb (duplicates_allowed gu)
          = false) as ->.
  { apply not_true_is_false.
    intros [Hd Hn%negb_true_iff]%andb_true_iff.
    apply bool_decide_eq_true in Hd. auto. }
  destruct (default (duplicates_allowed gu) dups) eqn:Hd.
  - destruct (randints_range (Z.to_nat (n_positions gu)) g Hcolors)
      as (l & g' & -> & Hlen & Hall). simpl.
    exists l, g'. split; [done|]. split; [|done].
    apply validate_code_spec. split_and!; [lia| |done].
    left. destruct dups as [[]|]; simpl in Hd; try done.
    destruct (duplicates_allowed gu); [done|]. destruct Hallowed; auto.
  - destruct (sample_distinct g (seqZ 1 (n_colors gu)) (n_positions gu))
      as (l & g' & -> & Hlen & Hnodup & Hsub).
    { rewrite length_seqZ. specialize (Henough eq_refl). lia. }
    { apply NoDup_seqZ. }
    simpl. exists l, g'. split; [done|]. split; [|done].
    apply validate_code_spec. split_and!; [done|auto|].
    apply Forall_forall. intros c Hc%Hsub%elem_of_seqZ. lia.
Qed.

(** X11: with one color at least, a number of positions that is not
    negative and, where the code is to be without duplicates, no more
    positions than colors, [random_code] returns a code that
    [validate_code] accepts, unless it is asked for duplicates in a game
    that does not allow them; the code is without duplicates when the
    argument, or without an argument the game, says so.  This relies on
    [randint] staying in its range and [sample] giving distinct elements of
    the population. *)
Theorem random_code_valid (dups : option bool) (g : RNG) :
  0 < n_colors gu → 0 ≤ n_positions gu →
  ¬ (dups = Some true ∧ duplicates_allowed gu = false) →
  (default (duplicates_allowed gu) dups = false →
   n_positions gu ≤ n_colors gu) →
  ∃ code g',
    random_code gu RNG randint sample dups g = (inr code, g')
    ∧ validate_code gu code = true
    ∧ (default (duplicates_allowed gu) dups = false → NoDup code).
Proof. apply random_code_ok. Qed.

End RandomCode.

Lemma low_randint_range :
  ∀ (g : unit) a b, a ≤ b →
    ∃ x g', low_randint g a b = (Some x, g') ∧ a ≤ x ≤ b.
Proof.
  intros g a b Hab. exists a, g. unfold low_randint.
  rewrite decide_True by done. split; [done|lia].
Defined.

Lemma head_sample_distinct :
  ∀ (g : unit) population k,
    0 ≤ k ≤ Z.of_nat (length population) → NoDup population →
    ∃ l g', head_sample g population k = (Some l, g')
            ∧ Z.of_nat (length l) = k ∧ NoDup l ∧ l ⊆ population.
Proof.
  intros g population k Hk Hnodup.
  exists (take (Z.to_nat k) population), g. unfold head_sample.
  rewrite decide_True by done. split_and!; [done| | |].
  - rewrite length_take. lia.
  - eapply sublist_NoDup; [done|apply sublist_take].
  - apply sublist_subseteq, sublist_take.
Defined.

Lemma random_code_valid_witness :
  (∀ (g : unit) a b, a ≤ b →
     ∃ x g', low_randint g a b = (Some x, g') ∧ a ≤ x ≤ b) ∧
  (∀ (g : unit) population k,
     0 ≤ k ≤ Z.of_nat (length population) → NoDup population →
     ∃ l g', head_sample g population k = (Some l, g')
             ∧ Z.of_nat (length l) = k ∧ NoDup l ∧ l ⊆ population) ∧
  0 < n_colors game_6_3 ∧ 0 ≤ n_positions game_6_3 ∧
  ¬ (Some false = Some true ∧ duplicates_allowed game_6_3 = false) ∧
  (default (duplicates_allowed game_6_3) (Some false) = false →
   n_positions game_6_3 ≤ n_colors game_6_3) ∧
  ∃ code g',
    random_code game_6_3 unit low_randint head_sample (Some false) tt
    = (inr code, g')
    ∧ validate_code game_6_3 code = true
    ∧ (default (duplicates_allowed game_6_3) (Some false) = false
       → NoDup code).
Proof.
  split; [exact low_randint_range|]. split; [exact head_sample_distinct|].
  split; [done|]. split; [done|]. split; [by intros [[=] _]|].
  split; [by intros _|].
  apply (random_code_valid game_6_3 unit low_randint head_sample
           low_randint_range head_sample_distinct (Some false) tt).
  - done.
  - done.
  - by intros [[=] _].
  - by intros _.
Defined.


(** ** More invariants of [receive_feedback] *)

(** X13: on a guess that [validate_code] accepts, [receive_feedback] raises
    nothing, whatever the feedback string is, and leaves a matrix of the
    shape of the game. *)
Theorem receive_feedback_returns (gu : MastermindGameUtils)
    (self : ComputerCodeBreaker) (guess : list Z) (feedback : string) :
  well_formed gu self → validate_code gu guess = true →
  ∃ self', receive_feedback gu self guess feedback = Ok self'
           ∧ well_formed gu self'.
Proof. apply receive_feedback_well_formed. Qed.

Lemma receive_feedback_returns_witness :
  well_formed game_6_3 stale_state ∧
  validate_code game_6_3 [6; 6; 1] = true ∧
  ∃ self', receive_feedback game_6_3 stale_state [6; 6; 1] "b?" = Ok self'
           ∧ well_formed game_6_3 self'.
Proof.
  assert (Hwf : well_formed game_6_3 stale_state)
    by (apply reachable_well_formed, stale_state_reachable).
  split; [exact Hwf|]. split; [reflexivity|].
  apply (receive_feedback_returns game_6_3 stale_state [6; 6; 1] "b?");
    [exact Hwf|reflexivity].
Defined.

(** X14: in a game with duplicates, after a call of [receive_feedback] in
    a reachable state the flag [_right_colors_found] is set exactly when no
    color is unseen. *)
Theorem found_iff_no_unseen (gu : MastermindGameUtils)
    (self : ComputerCodeBreaker) (guess : list Z) (feedback : string) :
  duplicates_allowed gu = true →
  reachable gu self → validate_code gu guess = true →
  ∃ self', receive_feedback gu self guess feedback = Ok self' ∧
    (_right_colors_found self' = true ↔ _unseen_colors self' = ∅).
Proof.
  intros Hdup Hreach Hcode.
  pose proof (reachable_well_formed gu self Hreach) as Hwf.
  pose proof (reachable_found_unseen gu self Hreach) as Hpre.
  destruct (receive_feedback_found gu self guess feedback Hwf Hcode Hpre)
    as (self' & Hrun & _ & Hfound).
  exists self'. split; [done|]. split; [done|].
  rewrite receive_feedback_unfold in Hrun.
  destruct (for_ _ _ _) as [s|?]; simpl in Hrun; try done.
  injection Hrun as <-. unfold update_found, _check_right_colors_found.
  rewrite Hdup. simpl.
  destruct (_right_colors_found s) eqn:Hf; simpl; [by rewrite Hf|].
  case_bool_decide; simpl; [done|]. by rewrite Hf.
Qed.

Lemma found_iff_no_unseen_witness :
  duplicates_allowed game_6_3 = true ∧
  reachable game_6_3 stale_state ∧
  validate_code game_6_3 [6; 6; 1] = true ∧
  ∃ self', receive_feedback game_6_3 stale_state [6; 6; 1] "..." = Ok self' ∧
    (_right_colors_found self' = true ↔ _unseen_colors self' = ∅).
Proof.
  split; [reflexivity|]. split; [apply stale_state_reachable|].
  split; [reflexivity|].
  apply (found_iff_no_unseen game_6_3 stale_state [6; 6; 1] "...");
    [reflexivity|apply stale_state_reachable|reflexivity].
Defined.

(** ** The right colors in a game against the automated feedback *)

Section RightColors.
Variable gu : MastermindGameUtils.
Variable secret : list Z.
Hypothesis secret_valid : validate_code gu secret = true.
Hypothesis no_duplicates : duplicates_allowed gu = false.

Lemma right_colors_all (self : ComputerCodeBreaker) :
  oracle_inv gu secret self →
  Z.of_nat (size (_right_colors self)) = n_positions gu →
  _right_colors self = list_to_set ((λ c, c - 1) <$> secret).
Proof.
  intros (_ & _ & Hright) Hsize.
  pose proof secret_valid as (Hlen & _)%validate_code_spec.
  apply set_subseteq_size_eq.
  - intros c Hc. apply elem_of_list_to_set, list_elem_of_fmap.
    exists (c + 1). split; [lia|auto].
  - rewrite size_list_to_set, length_fmap; [lia|].
    apply NoDup_fmap_2; [intros ???; lia|].
    by apply (secret_no_dup gu secret).
Qed.

Lemma receive_feedback_right_all (self : ComputerCodeBreaker)
    (guess : list Z) :
  well_formed gu self → validate_code gu guess = true →
  oracle_inv gu secret self →
  (_right_colors_found self = true →
   _right_colors self = list_to_set ((λ c, c - 1) <$> secret)) →
  ∃ self', receive_feedback gu self guess (_auto_feedback secret guess)
           = Ok self'
    ∧ well_formed gu self' ∧ oracle_inv gu secret self'
    ∧ (_right_colors_found self' = true →
       _right_colors self' = list_to_set ((λ c, c - 1) <$> secret)).
Proof.
  intros Hwf Hcode Hinv Hpre.
  destruct (receive_feedback_oracle gu secret secret_valid self guess)
    as (self' & Hrun & Hwf' & Hinv'); [done..|].
  exists self'. split; [done|]. split; [done|]. split; [done|].
  destruct (receive_feedback_loop gu
    (λ _ s, _right_colors_found s = _right_colors_found self
            ∧ _right_colors self ⊆ _right_colors s)
    self guess (_auto_feedback secret guess))
    as (s & Hs & _ & Hf & Hsub); [done..| |].
  { intros k c peg s0 s1 _ _ _ _ [Hf Hsub] (_ & _ & Hr & Hf1 & _).
    split; [congruence|]. rewrite Hr. case_decide; set_solver. }
  rewrite receive_feedback_unfold, Hs in Hrun. simpl in Hrun.
  injection Hrun as <-.
  intros Hfound. destruct (_right_colors_found self) eqn:Hold.
  - specialize (Hpre eq_refl). rewrite update_found_right_colors.
    apply (anti_symm (⊆)).
    + destruct Hinv' as (_ & _ & Hright).
      rewrite update_found_right_colors in Hright.
      intros c Hc. apply elem_of_list_to_set, list_elem_of_fmap.
      exists (c + 1). split; [lia|auto].
    + by rewrite <- Hpre.
  - apply right_colors_all; [done|].
    rewrite update_found_right_colors.
    unfold update_found, _check_right_colors_found in Hfound.
    rewrite Hf, no_duplicates in Hfound. simpl in Hfound.
    case_bool_decide; [done|]. simpl in Hfound. congruence.
Qed.
End RightColors.

(** X15: in a game without duplicates against [_auto_feedback], once the
    flag [_right_colors_found] is set the right colors are exactly the
    colors of the secret code. *)
Theorem found_right_colors (gu : MastermindGameUtils) (secret : list Z)
    (guesses : list (list Z)) (self : ComputerCodeBreaker) :
  validate_code gu secret = true → duplicates_allowed gu = false →
  Forall (λ guess, validate_code gu guess = true) guesses →
  play gu secret guesses (init gu) = Ok self →
  _right_colors_found self = true →
  ∀ c, c ∈ _right_colors self ↔ c + 1 ∈ secret.
Proof.
  intros Hsecret Hno Hguesses Hplay Hfound.
  assert (H : ∀ s, well_formed gu s → oracle_inv gu secret s →
            (_right_colors_found s = true →
             _right_colors s = list_to_set ((λ c, c - 1) <$> secret)) →
            play gu secret guesses s = Ok self →
            _right_colors_found self = true →
            _right_colors self = list_to_set ((λ c, c - 1) <$> secret)).
  { clear Hplay Hfound.
    induction Hguesses as [|guess guesses Hg _ IH];
      intros s Hwf Hinv Hpre Hplay.
    - injection Hplay as <-. done.
    - destruct (receive_feedback_right_all gu secret Hsecret Hno s guess)
        as (s1 & Hs1 & Hwf1 & Hinv1 & Hpre1); [done..|].
      unfold play in *. simpl in Hplay. rewrite Hs1 in Hplay.
      by apply (IH s1). }
  intros c. rewrite (H (init gu)); try done.
  - rewrite elem_of_list_to_set, list_elem_of_fmap. split.
    + intros (x & -> & Hx). by replace (x - 1 + 1) with x by lia.
    + intros Hc. exists (c + 1). split; [lia|done].
  - apply init_well_formed.
  - by apply oracle_inv_init.
Qed.

Lemma found_right_colors_witness :
  validate_code game_3_3_distinct [3; 1; 2] = true ∧
  duplicates_allowed game_3_3_distinct = false ∧
  Forall (λ guess, validate_code game_3_3_distinct guess = true)
    [[1; 2; 3]] ∧
  play game_3_3_distinct [3; 1; 2] [[1; 2; 3]] (init game_3_3_distinct)
  = Ok all_white ∧
  _right_colors_found all_white = true ∧
  ∀ c, c ∈ _right_colors all_white ↔ c + 1 ∈ [3; 1; 2].
Proof.
  assert (Hguesses : Forall
            (λ guess, validate_code game_3_3_distinct guess = true)
            [[1; 2; 3]]) by (repeat constructor).
  split; [reflexivity|]. split; [reflexivity|]. split; [exact Hguesses|].
  split; [vm_compute; reflexivity|]. split; [reflexivity|].
  apply (found_right_colors game_3_3_distinct [3; 1; 2] [[1; 2; 3]] all_white);
    [reflexivity|reflexivity|exact Hguesses|vm_compute; reflexivity
    |reflexivity].
Defined.

(** ** The order of the candidates where no branch was given up *)

(** X16: where [current_guess] holds [None] from the current position on,
    the colors are tried in the order of the priorities as the
    specification words them: first the unseen colors not placed at an
    earlier position, then the colors that are not unseen, then the unseen
    colors placed at an earlier position, each group in the order the
    shuffle gave. *)
Theorem ordered_colors_fresh (gu : MastermindGameUtils) (RNG : Type)
    (shuffle : RNG → list Z → list Z * RNG) (σ σ' : frame RNG)
    (k : nat) (colors : list Z) :
  ordered_colors gu shuffle σ (Z.of_nat k) = Ok (colors, σ') →
  (∀ x, x ∈ drop k (current_guess σ) → x = None) →
  ∃ valid_colors,
    viable_colors gu σ (Z.of_nat k) = Ok valid_colors ∧
    let shuffled := (shuffle (rng σ) valid_colors).1 in
    colors = filter (λ c, spec_priority σ (Z.of_nat k) c = 0) shuffled
             ++ filter (λ c, spec_priority σ (Z.of_nat k) c = 1) shuffled
             ++ filter (λ c, spec_priority σ (Z.of_nat k) c = 2) shuffled.
Proof.
  intros Hord Hfresh.
  destruct (ordered_colors_order _ _ _ _ _ _ _ Hord)
    as (valid_colors & Hvalid & Hcolors).
  exists valid_colors. split; [done|]. simpl in *. rewrite Hcolors.
  f_equal; [|f_equal]; apply list_filter_iff;
    intros c; by rewrite (priority_fresh σ k c Hfresh).
Qed.

Lemma ordered_colors_fresh_witness :
  ordered_colors game_3_3 id_shuffle fresh_frame (Z.of_nat 1)
  = Ok ([1; 2; 0], fresh_frame) ∧
  (∀ x, x ∈ drop 1 (current_guess fresh_frame) → x = None) ∧
  ∃ valid_colors,
    viable_colors game_3_3 fresh_frame (Z.of_nat 1) = Ok valid_colors ∧
    let shuffled := (id_shuffle (rng fresh_frame) valid_colors).1 in
    [1; 2; 0]
    = filter (λ c, spec_priority fresh_frame (Z.of_nat 1) c = 0) shuffled
      ++ filter (λ c, spec_priority fresh_frame (Z.of_nat 1) c = 1) shuffled
      ++ filter (λ c, spec_priority fresh_frame (Z.of_nat 1) c = 2) shuffled.
Proof.
  assert (Hfresh : ∀ x, x ∈ drop 1 (current_guess fresh_frame) → x = None).
  { simpl. intros x Hx. by repeat (apply elem_of_cons in Hx as [->|Hx]);
      [..|apply elem_of_nil in Hx]. }
  split; [vm_compute; reflexivity|]. split; [exact Hfresh|].
  apply (ordered_colors_fresh game_3_3 unit id_shuffle fresh_frame fresh_frame
           1%nat [1; 2; 0]); [vm_compute; reflexivity|exact Hfresh].
Defined.

(** ** The search uses no color that is known to be wrong *)

Section SearchChecked.
Variable gu : MastermindGameUtils.
Variable RNG : Type.
Variable shuffle : RNG → list Z → list Z * RNG.
Hypothesis shuffle_perm : ∀ g l, (shuffle g l).1 ≡ₚ l.
Variable cc0 : list bool.
Let N := Z.to_nat (n_positions gu).
Implicit Types σ : frame RNG.

Lemma check_mono_place σ (k : nat) (c : Z) :
  check_mono cc0 σ → check_mono cc0 (place gu σ k c).
Proof.
  intros Hmono i. unfold place. simpl.
  destruct (duplicates_allowed gu); [apply Hmono|].
  destruct (decide (i = Z.to_nat c)) as [->|Hne].
  - intros Hi. assert (Z.to_nat c < length (colors_to_check σ))%nat.
    { apply lookup_lt_Some in Hi. by rewrite length_insert in Hi. }
    by rewrite list_lookup_insert_eq in Hi.
  - rewrite list_lookup_insert_ne by done. apply Hmono.
Qed.

Lemma try_colors_checked (rec : frame RNG → result (bool * frame RNG))
    (k : nat) (colors : list Z) σ σ' :
  (∀ σ1 found1 σ1', search_pre gu σ1 (S k) → check_mono cc0 σ1 →
     rec σ1 = Ok (found1, σ1') →
     search_post gu σ1 (S k) found1 σ1'
     ∧ (found1 = true →
        take (S k) (current_guess σ1') = take (S k) (current_guess σ1)
        ∧ checked_from cc0 σ1' (S k))) →
  (k < N)%nat →
  search_pre gu σ k → check_mono cc0 σ →
  (∀ c, c ∈ colors → candidate gu σ k c) →
  try_colors gu rec (Z.of_nat k) colors σ = Ok (true, σ') →
  take k (current_guess σ') = take k (current_guess σ)
  ∧ checked_from cc0 σ' k.
Proof.
  intros Hrec Hk. revert σ.
  induction colors as [|c colors IH]; intros σ Hpre Hmono Hcand; simpl;
    [done|].
  assert (candidate gu σ k c) as Hc by (apply Hcand; left).
  pose proof Hc as (Hcr & Hcheck & Hm).
  pose proof Hpre as [Hlen _].
  assert (setitem (current_guess σ) (Z.of_nat k) (Some (c + 1))
          = Ok (<[k:=Some (c + 1)]> (current_guess σ))) as Hcg
    by (apply setitem_nat; unfold N in *; lia).
  assert (Z.to_nat c < length (colors_to_check σ))%nat as Hclen
    by (by eapply lookup_lt_Some).
  assert (∀ found1 σ1, rec (place gu σ k c) = Ok (found1, σ1) →
    search_post gu (place gu σ k c) (S k) found1 σ1
    ∧ (found1 = true →
       take k (current_guess σ1) = take k (current_guess σ)
       ∧ checked_from cc0 σ1 k)) as Hplace.
  { intros found1 σ1 Hrun.
    apply Hrec in Hrun as [Hpost Hsucc];
      [|by apply search_pre_place|by apply check_mono_place].
    split; [done|]. intros Hfound. destruct (Hsucc Hfound) as [Htake Hchk].
    unfold place in Htake. simpl in Htake.
    assert (length (current_guess σ1) = length (current_guess σ)) as Hlen1.
    { destruct Hpost as (_ & Hl & _). unfold place in Hl. simpl in Hl.
      by rewrite length_insert in Hl. }
    split.
    - apply (f_equal (take k)) in Htake.
      rewrite !take_take, Nat.min_l in Htake by lia.
      by rewrite take_insert_ge in Htake by lia.
    - intros p x Hp Hx. destruct (decide (p = k)) as [->|Hne].
      + assert (take (S k) (current_guess σ1) !! k = Some x) as Hx'
          by (by rewrite lookup_take_lt by lia).
        rewrite Htake, lookup_take_lt, list_lookup_insert_eq in Hx'
          by (unfold N in *; lia).
        injection Hx' as <-. exists c. split; [done|]. split; [lia|].
        by apply Hmono.
      + apply (Hchk p x); [lia|done]. }
  assert (∀ σ2, self σ2 = self σ →
    length (current_guess σ2) = length (current_guess σ) →
    colors_to_check σ2 = colors_to_check σ →
    take k (current_guess σ2) = take k (current_guess σ) →
    try_colors gu rec (Z.of_nat k) colors σ2 = Ok (true, σ') →
    take k (current_guess σ') = take k (current_guess σ)
    ∧ checked_from cc0 σ' k) as Hrest.
  { intros σ2 Hself2 Hlen2 Hcc2 Htake2 Hrun.
    apply IH in Hrun as [Htake Hchk].
    - split; [congruence|done].
    - destruct Hpre as (_ & code & Hplaced). split; [congruence|].
      exists code. by eapply placed_frame.
    - intros i. rewrite Hcc2. apply Hmono.
    - intros c' Hc'. eapply candidate_frame; [done..|].
      apply Hcand. by right. }
  unfold place in Hplace. simpl in Hplace.
  destruct (duplicates_allowed gu) eqn:Hdup.
  - rewrite Hcg. simpl.
    replace (with_current_guess σ (<[k:=Some (c + 1)]> (current_guess σ)))
      with (with_current_guess (with_colors_to_check σ (colors_to_check σ))
              (<[k:=Some (c + 1)]> (current_guess σ))) by by destruct σ.
    destruct (rec _) as [[found1 σ1]|?] eqn:Hrun; simpl; try done.
    destruct (Hplace _ _ eq_refl) as [(Hself & Hlen1 & Hres) Hsucc].
    simpl in Hself, Hlen1. rewrite length_insert in Hlen1.
    destruct found1.
    + intros [= <-]. by apply Hsucc.
    + simpl in Hres. destruct Hres as [Hcc Htake].
      apply Hrest; try done.
      apply (f_equal (take k)) in Htake.
      rewrite !take_take, Nat.min_l in Htake by lia.
      by rewrite take_insert_ge in Htake by lia.
  - rewrite (setitem_Z (colors_to_check σ) c false) by (done || lia).
    simpl. rewrite Hcg. simpl.
    destruct (rec _) as [[found1 σ1]|?] eqn:Hrun; simpl; try done.
    destruct (Hplace _ _ eq_refl) as [(Hself & Hlen1 & Hres) Hsucc].
    simpl in Hself, Hlen1. rewrite length_insert in Hlen1.
    destruct found1.
    + intros [= <-]. by apply Hsucc.
    + simpl in Hres. destruct Hres as [Hcc Htake].
      rewrite (setitem_Z (colors_to_check σ1) c true)
        by (rewrite ?Hcc, ?length_insert; (done || lia)).
      simpl. apply Hrest; simpl; try done.
      * rewrite Hcc, list_insert_insert_eq. by apply list_insert_id.
      * apply (f_equal (take k)) in Htake.
        rewrite !take_take, Nat.min_l in Htake by lia.
        by rewrite take_insert_ge in Htake by lia.
Qed.

Lemma _make_guess_checked (depth : nat) σ (k : nat) σ' :
  0 ≤ n_positions gu → (k ≤ N)%nat →
  search_pre gu σ k → check_mono cc0 σ →
  _make_guess gu shuffle depth σ (Z.of_nat k) = Ok (true, σ') →
  take k (current_guess σ') = take k (current_guess σ)
  ∧ checked_from cc0 σ' k.
Proof.
  intros HN. revert σ k σ'.
  induction depth as [|depth IH]; intros σ k σ' Hk Hpre Hmono; [done|]. simpl.
  case_decide as Heq.
  - intros [= <-]. split; [done|]. intros p x Hp Hx.
    destruct Hpre as [Hlen _]. apply lookup_lt_Some in Hx.
    unfold N in *. lia.
  - destruct (ordered_colors gu shuffle σ (Z.of_nat k)) as [[l σ1]|?] eqn:Hord;
      simpl; try done.
    pose proof (ordered_colors_candidates gu RNG shuffle shuffle_perm
                  _ _ _ _ Hord) as Hcand.
    apply ordered_colors_self in Hord as (Hself & Hcg & Hcc).
    intros Hrun. apply try_colors_checked in Hrun.
    + by rewrite Hcg in Hrun.
    + intros σ2 found2 σ2' Hpre2 Hmono2.
      replace (Z.of_nat k + 1) with (Z.of_nat (S k)) by lia.
      intros Hrun2. split.
      * apply (_make_guess_sound gu RNG shuffle shuffle_perm depth);
          [done|unfold N in *; lia|done..].
      * intros ->. apply IH; [unfold N in *; lia|done..].
    + unfold N in *. lia.
    + destruct Hpre as (Hlen & code & Hplaced).
      split; [congruence|]. exists code.
      eapply placed_frame; [done..|by rewrite Hcg|done].
    + intros i. rewrite Hcc. apply Hmono.
    + intros c Hc. eapply candidate_frame; [done..|]. auto.
Qed.
End SearchChecked.

(** X17: the guess that [make_guess] returns agrees with what the breaker
    knows ([consistent]): besides being a code with its colors set in the
    matrix, it has no color that is neither right nor unseen. *)
Theorem make_guess_consistent (gu : MastermindGameUtils) (RNG : Type)
    (shuffle : RNG → list Z → list Z * RNG) (depth : nat)
    (self0 : ComputerCodeBreaker) (g : RNG)
    (guess : list (option Z)) (self1 : ComputerCodeBreaker) (g' : RNG) :
  (∀ g l, (shuffle g l).1 ≡ₚ l) →
  make_guess gu shuffle depth self0 g = Ok (Some guess, self1, g') →
  ∃ code, guess = Some <$> code ∧ consistent gu self0 code.
Proof.
  intros Hperm Hrun.
  destruct (make_guess_code _ _ _ _ _ _ _ _ _ Hperm Hrun)
    as (code & -> & Hcode & Hvalid).
  exists code. split; [done|]. split; [done|].
  intros p color Hp. split; [by apply Hvalid|].
  pose proof Hcode as (Hlen & _)%validate_code_spec.
  unfold make_guess in Hrun.
  destruct (_make_guess _ _ _ _ _) as [[found σ']|?] eqn:Hsearch;
    simpl in Hrun; try done.
  destruct found; [|done]. injection Hrun as Hcg _ _.
  apply (_make_guess_checked gu RNG shuffle Hperm
           ((λ color, bool_decide (color ∈ _right_colors self0)
                      || bool_decide (color ∈ _unseen_colors self0))
              <$> range (n_colors gu)) depth _ 0%nat) in Hsearch
    as [_ Hchk]; [|lia|lia| |by intros i].
  - destruct (Hchk p (Some color)) as (c & [= ->] & Hc & Hcheck); [lia| |].
    { by rewrite Hcg, list_lookup_fmap, Hp. }
    rewrite list_lookup_fmap in Hcheck.
    destruct (range (n_colors gu) !! Z.to_nat c) as [c'|] eqn:Hc';
      [|done].
    apply range_lookup in Hc' as [-> _]. simpl in Hcheck.
    injection Hcheck as Hcheck. apply orb_true_iff in Hcheck.
    rewrite !bool_decide_eq_true in Hcheck.
    by replace (c + 1 - 1) with (Z.of_nat (Z.to_nat c)) by lia.
  - split; simpl; [by rewrite length_replicate|].
    exists []. split_and!; try done.
    intros _. split; [apply NoDup_nil_2|]. intros c. by rewrite elem_of_nil.
Qed.

Lemma make_guess_consistent_witness :
  (∀ g l, (id_shuffle g l).1 ≡ₚ l) ∧
  make_guess game_3_3_distinct id_shuffle 4 all_white tt
  = Ok (Some [Some 2; Some 3; Some 1], all_white, tt) ∧
  ∃ code, [Some 2; Some 3; Some 1] = Some <$> code
          ∧ consistent game_3_3_distinct all_white code.
Proof.
  split; [intros g l; reflexivity|]. split; [vm_compute; reflexivity|].
  apply (make_guess_consistent game_3_3_distinct unit id_shuffle 4 all_white tt
           [Some 2; Some 3; Some 1] all_white tt).
  - intros g l. reflexivity.
  - vm_compute. reflexivity.
Defined.

(** X18: a game without duplicates that has more positions than colors is
    one that [__init__] of [MastermindGameUtils] refuses; in such a game
    (with a number of colors that is not negative) [make_guess] returns no
    guess, in any state of the breaker. *)
Theorem too_many_positions_no_guess (gu : MastermindGameUtils) (RNG : Type)
    (shuffle : RNG → list Z → list Z * RNG) (depth : nat)
    (self0 : ComputerCodeBreaker) (g : RNG)
    (r : option (list (option Z))) (self1 : ComputerCodeBreaker) (g' : RNG) :
  (∀ g l, (shuffle g l).1 ≡ₚ l) →
  0 ≤ n_colors gu →
  new_game_utils (n_colors gu) (n_positions gu) (duplicates_allowed gu)
  = None →
  make_guess gu shuffle depth self0 g = Ok (r, self1, g') →
  r = None.
Proof.
  intros Hperm Hcolors Hnew Hrun. destruct r as [guess|]; [|done]. exfalso.
  unfold new_game_utils in Hnew.
  destruct (negb (duplicates_allowed gu) && bool_decide (_ > _)) eqn:Hguard;
    [|done].
  apply andb_true_iff in Hguard as [Hno%negb_true_iff Hmany].
  apply bool_decide_eq_true in Hmany.
  destruct (make_guess_code _ _ _ _ _ _ _ _ _ Hperm Hrun)
    as (code & _ & (Hlen & Hdup & Hcol)%validate_code_spec & _).
  destruct Hdup as [?|Hnodup]; [congruence|].
  assert (code ⊆+ seqZ 1 (n_colors gu)) as Hsub.
  { apply NoDup_submseteq; [done|]. intros c Hc. apply elem_of_seqZ.
    rewrite Forall_forall in Hcol. specialize (Hcol c Hc). lia. }
  apply submseteq_length in Hsub. rewrite length_seqZ in Hsub. lia.
Qed.

Lemma too_many_positions_no_guess_witness :
  (∀ g l, (id_shuffle g l).1 ≡ₚ l) ∧
  0 ≤ 2 ∧
  new_game_utils 2 3 false = None ∧
  make_guess (Build_MastermindGameUtils 2 3 false) id_shuffle 4
    (init (Build_MastermindGameUtils 2 3 false)) tt
  = Ok (None, init (Build_MastermindGameUtils 2 3 false), tt) ∧
  (None : option (list (option Z))) = None.
Proof.
  split; [intros g l; reflexivity|]. split; [lia|].
  split; [reflexivity|]. split; [vm_compute; reflexivity|].
  apply (too_many_positions_no_guess (Build_MastermindGameUtils 2 3 false)
           unit id_shuffle 4 (init (Build_MastermindGameUtils 2 3 false)) tt
           None (init (Build_MastermindGameUtils 2 3 false)) tt).
  - intros g l. reflexivity.
  - simpl. lia.
  - reflexivity.
  - vm_compute. reflexivity.
Defined.

(** ** The breaker does not repeat a guess *)

(** A turn of the game keeps the shape of the matrix and sets no entry. *)
Lemma game_turn_entries (gu : MastermindGameUtils) (RNG : Type)
    (shuffle : RNG → list Z → list Z * RNG)
    (self self' : ComputerCodeBreaker) (code : list Z) (feedback : string) :
  (∀ g l, (shuffle g l).1 ≡ₚ l) →
  well_formed gu self →
  game_turn gu shuffle self code feedback self' →
  well_formed gu self'
  ∧ validate_code gu code = true
  ∧ (∀ i j, valid_at (_valid_guess self') i j = true →
       valid_at (_valid_guess self) i j = true)
  ∧ (∀ (p c : nat) (peg : ascii),
       list_ascii_of_string feedback !! p = Some peg → peg ≠ "b"%char →
       code !! p = Some (Z.of_nat c + 1) →
       valid_at (_valid_guess self') p c = false).
Proof.
  intros Hperm Hwf Hturn.
  destruct Hturn as [depth self g code self1 g' feedback self' Hguess Hfb Hrun].
  pose proof (make_guess_same_self _ _ _ _ _ _ _ _ _ Hguess) as ->.
  destruct (make_guess_code _ _ _ _ _ _ _ _ _ Hperm Hguess)
    as (code' & Heq & Hcode & Hvalid).
  apply (inj (fmap Some)) in Heq as <-.
  pose proof Hcode as (Hlen & _ & Hcol)%validate_code_spec.
  destruct (receive_feedback_entries gu self code feedback)
    as (s1 & Hrun1 & Hwf' & Hsub); [done..|].
  destruct (receive_feedback_not_black gu self code feedback)
    as (s2 & Hrun2 & Hnb); [done..|].
  rewrite Hrun in Hrun1, Hrun2.
  injection Hrun1 as <-. injection Hrun2 as <-.
  split_and!; [done..| |done].
  intros i j Hset. destruct (Hsub _ _ Hset) as [?|[_ Hcolor]]; [done|].
  pose proof Hcolor as Hin%list_elem_of_lookup_2.
  rewrite Forall_forall in Hcol. apply Hcol in Hin.
  pose proof Hcolor as Hi%lookup_lt_Some.
  apply Hvalid in Hcolor.
  rewrite (mat_get_Z gu) in Hcolor by (done || lia).
  injection Hcolor as Hcolor.
  by replace (Z.to_nat (Z.of_nat i)) with i in Hcolor by lia;
     replace (Z.to_nat (Z.of_nat j + 1 - 1)) with j in Hcolor by lia.
Qed.

Lemma later_entries (gu : MastermindGameUtils) (RNG : Type)
    (shuffle : RNG → list Z → list Z * RNG)
    (self self' : ComputerCodeBreaker) :
  (∀ g l, (shuffle g l).1 ≡ₚ l) →
  well_formed gu self →
  later gu shuffle self self' →
  well_formed gu self'
  ∧ ∀ i j, valid_at (_valid_guess self') i j = true →
      valid_at (_valid_guess self) i j = true.
Proof.
  intros Hperm Hwf Hlater.
  induction Hlater as [self|self code feedback self' self'' Hturn _ IH];
    [done|].
  destruct (game_turn_entries _ _ _ _ _ _ _ Hperm Hwf Hturn)
    as (Hwf' & _ & Hsub & _).
  destruct (IH Hwf') as [Hwf'' Hsub']. split; [done|]. auto.
Qed.

(** X19: in a game, a guess that was answered with a feedback that is not
    all black is never returned by [make_guess] again, however many turns
    the game goes on. *)
Theorem rejected_guess_not_repeated (gu : MastermindGameUtils) (RNG : Type)
    (shuffle : RNG → list Z → list Z * RNG) (depth : nat)
    (self self' self'' : ComputerCodeBreaker) (code : list Z)
    (feedback : string) (g : RNG)
    (guess : list (option Z)) (self2 : ComputerCodeBreaker) (g2 : RNG) :
  (∀ g l, (shuffle g l).1 ≡ₚ l) →
  well_formed gu self →
  game_turn gu shuffle self code feedback self' →
  _is_guess_correct (Some feedback) = false →
  later gu shuffle self' self'' →
  make_guess gu shuffle depth self'' g = Ok (Some guess, self2, g2) →
  guess ≠ Some <$> code.
Proof.
  intros Hperm Hwf Hturn Hwrong Hlater Hguess ->.
  assert (validate_feedback gu feedback = true) as Hfb by (by destruct Hturn).
  destruct (game_turn_entries _ _ _ _ _ _ _ Hperm Hwf Hturn)
    as (Hwf' & Hcode & _ & Hnb).
  destruct (later_entries _ _ _ _ _ Hperm Hwf' Hlater) as [Hwf'' Hsub].
  destruct (make_guess_code _ _ _ _ _ _ _ _ _ Hperm Hguess)
    as (code' & Heq & _ & Hvalid).
  apply (inj (fmap Some)) in Heq as <-.
  apply not_all_black in Hwrong as (p & peg & Hpeg & Hne).
  apply validate_feedback_length in Hfb.
  pose proof Hcode as (Hlen & _ & Hcol)%validate_code_spec.
  assert (p < length code)%nat as Hp by (apply lookup_lt_Some in Hpeg; lia).
  apply lookup_lt_is_Some in Hp as [color Hcolor].
  pose proof Hcolor as Hin%list_elem_of_lookup_2.
  rewrite Forall_forall in Hcol. apply Hcol in Hin.
  pose proof Hcolor as Hi%lookup_lt_Some.
  specialize (Hnb p (Z.to_nat (color - 1)) peg Hpeg Hne).
  rewrite Z2Nat.id in Hnb by lia.
  replace (color - 1 + 1) with color in Hnb by lia.
  specialize (Hnb Hcolor).
  apply Hvalid in Hcolor.
  rewrite (mat_get_Z gu) in Hcolor by (done || lia).
  injection Hcolor as Hcolor. rewrite Nat2Z.id in Hcolor.
  apply Hsub in Hcolor. congruence.
Qed.

Lemma rejected_guess_not_repeated_witness :
  (∀ g l, (id_shuffle g l).1 ≡ₚ l) ∧
  well_formed game_3_3_distinct (init game_3_3_distinct) ∧
  game_turn game_3_3_distinct id_shuffle
    (init game_3_3_distinct) [1; 2; 3] "www" all_white ∧
  _is_guess_correct (Some "www"%string) = false ∧
  later game_3_3_distinct id_shuffle all_white all_white ∧
  make_guess game_3_3_distinct id_shuffle 4 all_white tt
  = Ok (Some [Some 2; Some 3; Some 1], all_white, tt) ∧
  [Some 2; Some 3; Some 1] ≠ Some <$> [1; 2; 3].
Proof.
  assert (∀ (g : unit) l, (id_shuffle g l).1 ≡ₚ l) as Hperm
    by (intros g l; reflexivity).
  assert (well_formed game_3_3_distinct (init game_3_3_distinct)) as Hwf.
  { split; [reflexivity|]. intros row Hrow. simpl in Hrow.
    repeat (apply elem_of_cons in Hrow as [->|Hrow]; [reflexivity|]).
    by apply elem_of_nil in Hrow. }
  assert (game_turn game_3_3_distinct id_shuffle
            (init game_3_3_distinct) [1; 2; 3] "www" all_white) as Hturn.
  { apply (game_turn_intro game_3_3_distinct id_shuffle 4
             (init game_3_3_distinct) tt [1; 2; 3]
             (init game_3_3_distinct) tt "www" all_white);
      vm_compute; reflexivity. }
  split; [exact Hperm|]. split; [exact Hwf|]. split; [exact Hturn|].
  split; [reflexivity|]. split; [apply later_now|].
  split; [vm_compute; reflexivity|].
  apply (rejected_guess_not_repeated game_3_3_distinct unit id_shuffle 4
           (init game_3_3_distinct) all_white all_white [1; 2; 3] "www" tt
           [Some 2; Some 3; Some 1] all_white tt);
    [exact Hperm|exact Hwf|exact Hturn|reflexivity|apply later_now
    |vm_compute; reflexivity].
Defined.

(** ** Colors outside of the matrix *)

Lemma py_index_Some_range (n : nat) (i : Z) (k : nat) :
  py_index n i = Some k → - Z.of_nat n ≤ i < Z.of_nat n.
Proof. unfold py_index. repeat case_decide; intros ?; simplify_eq; lia. Qed.

Lemma mat_set_in_depth (m : list (list bool)) (pos col : Z) (b : bool) :
  in_depth (mat_set m pos col b).
Proof.
  unfold mat_set. pose proof (getitem_in_depth m pos).
  destruct (getitem m pos) as [row|?]; simpl; try raised.
  pose proof (setitem_in_depth row col b).
  destruct (setitem row col b); simpl; try raised.
  apply setitem_in_depth.
Qed.

Lemma feedback_step_in_depth (gu : MastermindGameUtils) (pos : Z)
    (peg : ascii) (color : Z) (self : ComputerCodeBreaker) :
  in_depth (feedback_step gu pos peg color self).
Proof.
  assert (∀ col m, in_depth (invalidate_color gu col m)) as Hcolor.
  { intros col m. apply for_in_depth. intros x s. apply mat_set_in_depth. }
  assert (∀ p m, in_depth (invalidate_position gu p m)) as Hpos.
  { intros p m. apply for_in_depth. intros x s. apply mat_set_in_depth. }
  unfold feedback_step.
  set (s0 := if decide (color - 1 ∈ _unseen_colors self) then _ else _).
  clearbody s0. repeat case_decide.
  - assert (in_depth (if negb (duplicates_allowed gu)
                        then invalidate_color gu (color - 1) (_valid_guess s0)
                        else Ok (_valid_guess s0))) as H1
      by (destruct (negb _); [apply Hcolor|raised]).
    destruct (if negb _ then _ else _) as [m1|?]; simpl; try raised.
    pose proof (Hpos pos m1) as H2.
    destruct (invalidate_position gu pos m1) as [m2|?]; simpl; try raised.
    pose proof (mat_set_in_depth m2 pos (color - 1) true) as H3.
    destruct (mat_set m2 pos (color - 1) true); raised.
  - pose proof (mat_set_in_depth (_valid_guess s0) pos (color - 1) false).
    destruct (mat_set _ pos (color - 1) false); raised.
  - pose proof (Hcolor (color - 1) (_valid_guess s0)).
    destruct (invalidate_color gu (color - 1) (_valid_guess s0)); raised.
Qed.

Lemma receive_feedback_in_depth (gu : MastermindGameUtils)
    (self : ComputerCodeBreaker) (guess : list Z) (feedback : string) :
  in_depth (receive_feedback gu self guess feedback).
Proof.
  rewrite receive_feedback_unfold.
  match goal with |- in_depth (mbind _ ?r) =>
    assert (in_depth r) as Hr end.
  { apply for_in_depth. intros [pos [peg color]] s.
    apply feedback_step_in_depth. }
  destruct (for_ _ _ _); raised.
Qed.

Section Shape.
Variable gu : MastermindGameUtils.
Let R := Z.to_nat (n_positions gu).
Let C := Z.to_nat (n_colors gu).

Lemma mat_set_shape m (pos col : Z) (b : bool) m' :
  matrix_shape R C m → mat_set m pos col b = Ok m' →
  matrix_shape R C m' ∧ - Z.of_nat C ≤ col < Z.of_nat C.
Proof.
  intros [Hlen Hrows]. unfold mat_set, getitem, setitem.
  destruct (py_index (length m) pos) as [k|] eqn:Hk; simpl; [|done].
  destruct (m !! k) as [row|] eqn:Hrow; simpl; [|done].
  assert (length row = C) as HC
    by (by eapply Hrows, list_elem_of_lookup_2).
  rewrite HC.
  destruct (py_index C col) as [j|] eqn:Hj; simpl; [|done].
  intros [= <-]. apply py_index_Some_range in Hj.
  split; [|done]. split; [by rewrite length_insert|].
  intros row' [i Hi]%list_elem_of_lookup_1.
  destruct (decide (i = k)) as [->|Hne].
  - rewrite list_lookup_insert_eq in Hi by (by eapply lookup_lt_Some).
    injection Hi as <-. by rewrite length_insert.
  - rewrite list_lookup_insert_ne in Hi by done.
    by eapply Hrows, list_elem_of_lookup_2.
Qed.

Lemma invalidate_color_shape (col : Z) m m' :
  matrix_shape R C m → invalidate_color gu col m = Ok m' →
  matrix_shape R C m'
  ∧ (0 < n_positions gu → - Z.of_nat C ≤ col < Z.of_nat C).
Proof.
  intros Hm Hrun. unfold invalidate_color in Hrun.
  pose proof (for_invariant_partial
    (λ k m, matrix_shape R C m
            ∧ ((0 < k)%nat → - Z.of_nat C ≤ col < Z.of_nat C))
    _ _ _ _ Hrun) as Hinv.
  rewrite length_range in Hinv. destruct Hinv as [Hm' Hcol].
  - split; [done|lia].
  - intros k x s s1 _ [Hs _] Hbody.
    apply mat_set_shape in Hbody as [? ?]; done.
  - split; [done|]. intros HN. apply Hcol. lia.
Qed.

Lemma invalidate_position_shape (pos : Z) m m' :
  matrix_shape R C m → invalidate_position gu pos m = Ok m' →
  matrix_shape R C m'.
Proof.
  intros Hm Hrun. unfold invalidate_position in Hrun.
  apply (for_invariant_partial (λ _ m, matrix_shape R C m) _ _ _ _ Hrun);
    [done|].
  intros k x s s1 _ Hs Hbody. by apply mat_set_shape in Hbody as [? _].
Qed.

(** A round of the loop that raises nothing keeps the shape of the matrix,
    and its color is one that an index of a row stands for. *)
Lemma feedback_step_shape (pos : Z) (peg : ascii) (color : Z)
    (self self' : ComputerCodeBreaker) :
  well_formed gu self →
  feedback_step gu pos peg color self = Ok self' →
  well_formed gu self'
  ∧ (0 < n_positions gu → - n_colors gu < color ≤ n_colors gu).
Proof.
  unfold well_formed, feedback_step. fold R C.
  set (s0 := if decide (color - 1 ∈ _unseen_colors self) then _ else _).
  assert (_valid_guess s0 = _valid_guess self) as Hs0
    by (unfold s0; by case_decide).
  rewrite <- Hs0. clearbody s0. clear Hs0. intros Hwf.
  destruct (decide (peg = "b"%char)) as [_|_];
    [|destruct (decide (peg = "w"%char)) as [_|_]].
  - destruct (if negb _ then _ else _) as [m1|?] eqn:H1; simpl; try done.
    destruct (invalidate_position gu pos m1) as [m2|?] eqn:H2; simpl;
      try done.
    destruct (mat_set m2 pos (color - 1) true) as [m3|?] eqn:H3; simpl;
      try done.
    intros [= <-]. simpl.
    assert (matrix_shape R C m1) as Hm1.
    { destruct (negb _); [by apply invalidate_color_shape in H1 as [? _]|].
      by injection H1 as <-. }
    apply invalidate_position_shape in H2; [|done].
    apply mat_set_shape in H3 as [? ?]; [|done].
    split; [done|]. unfold C in *. lia.
  - destruct (mat_set _ pos (color - 1) false) as [m1|?] eqn:H1; simpl;
      try done.
    intros [= <-]. simpl. apply mat_set_shape in H1 as [? ?]; [|done].
    split; [done|]. unfold C in *. lia.
  - destruct (invalidate_color gu (color - 1) _) as [m1|?] eqn:H1; simpl;
      try done.
    intros [= <-]. simpl. apply invalidate_color_shape in H1 as [? ?]; [|done].
    split; [done|]. unfold C in *. lia.
Qed.

Lemma receive_feedback_color_range self guess feedback self'
    (p : nat) (color : Z) (peg : ascii) :
  well_formed gu self → 0 < n_positions gu →
  receive_feedback gu self guess feedback = Ok self' →
  guess !! p = Some color →
  list_ascii_of_string feedback !! p = Some peg →
  - n_colors gu < color ≤ n_colors gu.
Proof.
  intros Hwf HN Hrun Hcolor Hpeg. rewrite receive_feedback_unfold in Hrun.
  destruct (for_ _ _ _) as [s|?] eqn:Hloop; simpl in Hrun; try done.
  pose proof (for_invariant_partial
    (λ k s, well_formed gu s
            ∧ ∀ (q : nat) c, (q < k)%nat → guess !! q = Some c →
                is_Some (list_ascii_of_string feedback !! q) →
                - n_colors gu < c ≤ n_colors gu)
    _ _ _ _ Hloop) as [_ Hinv].
  - split; [done|]. intros q c Hq. lia.
  - intros k [pos [peg1 color1]] s1 s2 [-> Hk]%enumerate_lookup [Hwf1 IH] Hstep.
    apply lookup_zip_with_Some in Hk
      as (peg' & color' & [= <- <-] & Hpeg1 & Hcolor1).
    apply feedback_step_shape in Hstep as [Hwf2 Hrange]; [|done].
    split; [done|]. intros q c Hq Hc Hsome.
    destruct (decide (q = k)) as [->|Hne].
    + rewrite Hcolor1 in Hc. injection Hc as <-. by apply Hrange.
    + apply (IH q c); [lia|done..].
  - apply (Hinv p color); [|done|by eexists].
    rewrite length_enumerate, length_zip_with.
    apply lookup_lt_Some in Hcolor, Hpeg. lia.
Qed.
End Shape.

(** X20: a guess with a color that is above [n_colors], or at or below
    [- n_colors], at a position that has a peg makes [receive_feedback]
    raise [IndexError]: [color - 1] is then no index of a row, not even
    one that counts from the end of the row. *)
Theorem color_out_of_range_raises (gu : MastermindGameUtils)
    (self : ComputerCodeBreaker) (guess : list Z) (feedback : string)
    (p : nat) (color : Z) (peg : ascii) :
  well_formed gu self → 0 < n_positions gu →
  guess !! p = Some color →
  list_ascii_of_string feedback !! p = Some peg →
  n_colors gu < color ∨ color ≤ - n_colors gu →
  receive_feedback gu self guess feedback = Raise IndexError.
Proof.
  intros Hwf HN Hcolor Hpeg Hout.
  pose proof (receive_feedback_in_depth gu self guess feedback) as Hterm.
  destruct (receive_feedback gu self guess feedback) as [self'|[]] eqn:Hrun;
    [|done|done].
  pose proof (receive_feedback_color_range gu _ _ _ _ _ _ _
                Hwf HN Hrun Hcolor Hpeg). lia.
Qed.

Lemma color_out_of_range_raises_witness :
  well_formed game_3_3 (init game_3_3) ∧ 0 < n_positions game_3_3 ∧
  [1; 4; 2] !! 1%nat = Some 4 ∧
  list_ascii_of_string "b.w" !! 1%nat = Some "."%char ∧
  (n_colors game_3_3 < 4 ∨ 4 ≤ - n_colors game_3_3) ∧
  receive_feedback game_3_3 (init game_3_3) [1; 4; 2] "b.w"
  = Raise IndexError.
Proof.
  assert (well_formed game_3_3 (init game_3_3)) as Hwf.
  { split; [reflexivity|]. intros row Hrow. simpl in Hrow.
    repeat (apply elem_of_cons in Hrow as [->|Hrow]; [reflexivity|]).
    by apply elem_of_nil in Hrow. }
  split; [exact Hwf|]. split; [simpl; lia|]. split; [reflexivity|].
  split; [reflexivity|]. split; [left; simpl; lia|].
  apply (color_out_of_range_raises game_3_3 (init game_3_3) [1; 4; 2] "b.w"
           1%nat 4 "."%char);
    [exact Hwf|simpl; lia|reflexivity|reflexivity|left; simpl; lia].
Defined.

(** ** The depth that [make_guess] needs *)

Lemma try_colors_success (gu : MastermindGameUtils) (RNG : Type)
    (rec : frame RNG → result (bool * frame RNG))
    (pos : Z) (colors : list Z) (σ σ' : frame RNG) :
  try_colors gu rec pos colors σ = Ok (true, σ') →
  ∃ σ1 σ1', rec σ1 = Ok (true, σ1').
Proof.
  revert σ. induction colors as [|color colors IH]; intros σ; simpl; [done|].
  destruct (duplicates_allowed gu).
  - destruct (setitem _ pos _) as [cg|?]; simpl; try done.
    destruct (rec _) as [[[] σ1]|?] eqn:Hr; simpl; try done; eauto.
  - destruct (setitem _ color _) as [cc|?]; simpl; try done.
    destruct (setitem _ pos _) as [cg|?]; simpl; try done.
    destruct (rec _) as [[[] σ1]|?] eqn:Hr; simpl; try done; eauto.
    destruct (setitem _ color true) as [cc2|?]; simpl; try done; eauto.
Qed.

(** A search that returns a guess had a nested call for every position
    that was left, and one more. *)
Lemma _make_guess_success_depth (gu : MastermindGameUtils) (RNG : Type)
    (shuffle : RNG → list Z → list Z * RNG) (depth : nat)
    (σ σ' : frame RNG) (pos : Z) :
  pos ≤ n_positions gu →
  _make_guess gu shuffle depth σ pos = Ok (true, σ') →
  (Z.to_nat (n_positions gu - pos) < depth)%nat.
Proof.
  revert σ σ' pos. induction depth as [|depth IH]; intros σ σ' pos Hpos;
    [done|]. simpl.
  case_decide as Heq; [intros _; lia|].
  destruct (ordered_colors gu shuffle σ pos) as [[l σ1]|?]; simpl; try done.
  intros (σ2 & σ2' & Hrec)%try_colors_success.
  apply IH in Hrec; lia.
Qed.

(** When a code agrees with what the breaker knows, fewer nested calls
    than one for each position and one more end in [RecursionError]. *)
Lemma make_guess_overflow (gu : MastermindGameUtils) (RNG : Type)
    (shuffle : RNG → list Z → list Z * RNG) (depth : nat)
    (self0 : ComputerCodeBreaker) (g : RNG) (code : list Z) :
  (∀ g l, (shuffle g l).1 ≡ₚ l) →
  well_formed gu self0 → consistent gu self0 code →
  (depth ≤ Z.to_nat (n_positions gu))%nat →
  make_guess gu shuffle depth self0 g = Raise RecursionError.
Proof.
  intros Hperm Hwf Hcons Hdepth.
  pose proof Hcons as [(Hlen & _)%validate_code_spec _].
  destruct (make_guess_total gu RNG shuffle (S (Z.to_nat (n_positions gu)))
              self0 g) as (r & g' & Hrun & Hsome); [done|done|lia|lia|].
  specialize (Hsome (ex_intro _ code Hcons)).
  unfold make_guess in *.
  set (σ0 := {| self := self0; rng := g;
                current_guess := replicate (Z.to_nat (n_positions gu)) None;
                colors_to_check :=
                  (λ color, bool_decide (color ∈ _right_colors self0)
                            || bool_decide (color ∈ _unseen_colors self0))
                    <$> range (n_colors gu) |}) in *.
  destruct (_make_guess gu shuffle depth σ0 0) as [[found σ']|[]] eqn:Hd;
    simpl; [| |done].
  - rewrite (_make_guess_enough gu RNG shuffle depth) in Hrun;
      [|by rewrite Hd|lia].
    rewrite Hd in Hrun. simpl in Hrun. destruct found; [|congruence].
    apply _make_guess_success_depth in Hd; lia.
  - rewrite (_make_guess_enough gu RNG shuffle depth) in Hrun;
      [|by rewrite Hd|lia].
    by rewrite Hd in Hrun.
Qed.




(** X7: the depth that X8 asks for is needed: when some code agrees with
    what the breaker knows and the interpreter allows no more nested calls
    of [_make_guess] than there are positions, [make_guess] raises
    [RecursionError]. *)
Theorem make_guess_needs_depth (gu : MastermindGameUtils) (RNG : Type)
    (shuffle : RNG → list Z → list Z * RNG) (depth : nat)
    (self0 : ComputerCodeBreaker) (g : RNG) (code : list Z) :
  (∀ g l, (shuffle g l).1 ≡ₚ l) →
  well_formed gu self0 → consistent gu self0 code →
  (depth ≤ Z.to_nat (n_positions gu))%nat →
  make_guess gu shuffle depth self0 g = Raise RecursionError.
Proof. apply make_guess_overflow. Qed.

Lemma make_guess_needs_depth_witness :
  (∀ g l, (id_shuffle g l).1 ≡ₚ l) ∧
  well_formed game_3_3_distinct all_white ∧
  consistent game_3_3_distinct all_white [2; 3; 1] ∧
  (3 ≤ Z.to_nat (n_positions game_3_3_distinct))%nat ∧
  make_guess game_3_3_distinct id_shuffle 3 all_white tt
  = Raise RecursionError.
Proof.
  assert (Hwf : well_formed game_3_3_distinct all_white)
    by (apply reachable_well_formed, all_white_reachable).
  assert (Hcons : consistent game_3_3_distinct all_white [2; 3; 1]).
  { split; [reflexivity|].
    intros [|[|[|p]]] color [=]; subst; (split; [reflexivity|left]);
      by vm_compute. }
  split; [intros g l; reflexivity|]. split; [exact Hwf|].
  split; [exact Hcons|]. split; [simpl; lia|].
  apply (make_guess_needs_depth game_3_3_distinct unit id_shuffle 3 all_white
           tt [2; 3; 1]); [intros g l; reflexivity|exact Hwf|exact Hcons|].
  simpl. lia.
Defined.

Section GameTooDeep.
Variable gu : MastermindGameUtils.
Variable RNG : Type.
Variable shuffle : RNG → list Z → list Z * RNG.
Variable randint : RNG → Z → Z → option Z * RNG.
Variable sample : RNG → list Z → Z → option (list Z) * RNG.

Hypothesis shuffle_perm : ∀ g l, (shuffle g l).1 ≡ₚ l.
Hypothesis randint_range : ∀ g a b, a ≤ b →
  ∃ x g', randint g a b = (Some x, g') ∧ a ≤ x ≤ b.
Hypothesis sample_distinct : ∀ g population k,
  0 ≤ k ≤ Z.of_nat (length population) → NoDup population →
  ∃ l g', sample g population k = (Some l, g')
          ∧ Z.of_nat (length l) = k ∧ NoDup l ∧ l ⊆ population.

End GameTooDeep.

